(** * Verification of qaie: providers, page utilities, benchmark scoring,
    visual regression and ARIA references.

    JavaScript strings are modelled as Rocq [string]s whose characters are
    single UTF-16 code units (code units 0..255).  Numbers that the code
    computes in floating point are modelled as exact integers or rationals;
    each place where this matters says so. *)

From Stdlib Require Import String Ascii List Bool ZArith QArith Lia.
Set Warnings "-register-all".
Import ListNotations.
Open Scope string_scope.
Open Scope list_scope.

(* ------------------------------------------------------------------ *)
(** ** JavaScript string helpers *)

Definition chr (n : nat) : ascii := ascii_of_nat n.
Definition nl_chr : ascii := chr 10.
Definition dq_chr : ascii := chr 34.
Definition nl : string := String nl_chr EmptyString.

(** Source literals: [js "..."] turns ['] into a double quote and [~]
    into a newline, so JSON text can be written inside Rocq strings. *)
Fixpoint js (s : string) : string :=
  match s with
  | EmptyString => EmptyString
  | String c t =>
      if Ascii.eqb c "'"%char then String dq_chr (js t)
      else if Ascii.eqb c "~"%char then String nl_chr (js t)
      else String c (js t)
  end.

(** [s.startsWith(p)] *)
Definition startsWith (s p : string) : bool := String.prefix p s.

(** [hay.includes(needle)] *)
Fixpoint includes (hay needle : string) : bool :=
  String.prefix needle hay ||
  match hay with
  | EmptyString => false
  | String _ t => includes t needle
  end.

(** [s.endsWith(suf)] *)
Definition endsWith (s suf : string) : bool :=
  (String.length suf <=? String.length s)%nat &&
  String.eqb (substring (String.length s - String.length suf) (String.length suf) s) suf.

(** White space and line terminators of [String.prototype.trim] (and of
    the regex class [\s]) among code units 0..255. *)
Definition is_js_space (c : ascii) : bool :=
  let n := nat_of_ascii c in
  ((9 <=? n) && (n <=? 13))%nat || (n =? 32)%nat || (n =? 160)%nat.

Fixpoint trim_start (s : string) : string :=
  match s with
  | EmptyString => EmptyString
  | String c t => if is_js_space c then trim_start t else s
  end.

Fixpoint rev_string (s : string) : string :=
  match s with
  | EmptyString => EmptyString
  | String c t => rev_string t ++ String c EmptyString
  end.

(** [s.trim()] *)
Definition trim (s : string) : string :=
  rev_string (trim_start (rev_string (trim_start s))).

(** [s.toLowerCase()] on code units 0..255: A-Z and U+00C0..U+00DE
    (except U+00D7) move up by 32. *)
Definition lower_chr (c : ascii) : ascii :=
  let n := nat_of_ascii c in
  if ((65 <=? n) && (n <=? 90))%nat
     || ((192 <=? n) && (n <=? 222) && negb (n =? 215))%nat
  then chr (n + 32) else c.

Fixpoint toLowerCase (s : string) : string :=
  match s with
  | EmptyString => EmptyString
  | String c t => String (lower_chr c) (toLowerCase t)
  end.

(* ------------------------------------------------------------------ *)
(** ** JSON.parse

    A parser for RFC 8259 JSON text, as [JSON.parse] accepts it.  Errors
    carry the kind of failure.  The message text of the thrown
    [SyntaxError] is the engine's own (V8 words it differently from one
    Node version to the next and includes a position or an excerpt of
    the text), so the code that reads it takes it as a parameter. *)

Inductive json : Type :=
| JNull
| JBool (b : bool)
| JNum (lexeme : string)
| JStr (units : list Z)
| JArr (items : list json)
| JObj (members : list (list Z * json)).

Inductive json_error : Type :=
| UnexpectedEnd
| UnexpectedToken (c : ascii)
| BadControl
| BadEscape (c : ascii)
| Unterminated
| TrailingChars (c : ascii).

Definition is_json_ws (c : ascii) : bool :=
  let n := nat_of_ascii c in (n =? 32)%nat || (n =? 9)%nat || (n =? 10)%nat || (n =? 13)%nat.

Fixpoint skip_ws (s : string) : string :=
  match s with
  | EmptyString => EmptyString
  | String c t => if is_json_ws c then skip_ws t else s
  end.

Definition is_digit (c : ascii) : bool :=
  let n := nat_of_ascii c in ((48 <=? n) && (n <=? 57))%nat.

Definition hex_val (c : ascii) : option Z :=
  let n := nat_of_ascii c in
  if ((48 <=? n) && (n <=? 57))%nat then Some (Z.of_nat (n - 48))
  else if ((97 <=? n) && (n <=? 102))%nat then Some (Z.of_nat (n - 87))
  else if ((65 <=? n) && (n <=? 70))%nat then Some (Z.of_nat (n - 55))
  else None.

(** The body of a string literal, after the opening quote: the decoded
    code units and the rest of the input after the closing quote. *)
Fixpoint string_body (s : string) : json_error + (list Z * string) :=
  match s with
  | EmptyString => inl Unterminated
  | String c t =>
      if Ascii.eqb c dq_chr then inr ([], t)
      else if (nat_of_ascii c <? 32)%nat then inl BadControl
      else if Ascii.eqb c "\"%char then
        match t with
        | EmptyString => inl Unterminated
        | String e t' =>
            let simple (u : Z) :=
              match string_body t' with
              | inl err => inl err
              | inr (us, r) => inr (u :: us, r)
              end in
            if Ascii.eqb e dq_chr then simple 34%Z
            else if Ascii.eqb e "\"%char then simple 92%Z
            else if Ascii.eqb e "/"%char then simple 47%Z
            else if Ascii.eqb e "b"%char then simple 8%Z
            else if Ascii.eqb e "f"%char then simple 12%Z
            else if Ascii.eqb e "n"%char then simple 10%Z
            else if Ascii.eqb e "r"%char then simple 13%Z
            else if Ascii.eqb e "t"%char then simple 9%Z
            else if Ascii.eqb e "u"%char then
              match t' with
              | String h1 (String h2 (String h3 (String h4 r))) =>
                  match hex_val h1, hex_val h2, hex_val h3, hex_val h4 with
                  | Some a, Some b, Some c0, Some d =>
                      match string_body r with
                      | inl err => inl err
                      | inr (us, r') =>
                          inr ((((a * 16 + b) * 16 + c0) * 16 + d)%Z :: us, r')
                      end
                  | _, _, _, _ => inl (BadEscape e)
                  end
              | _ => inl Unterminated
              end
            else inl (BadEscape e)
        end
      else
        match string_body t with
        | inl err => inl err
        | inr (us, r) => inr (Z.of_nat (nat_of_ascii c) :: us, r)
        end
  end.

Fixpoint take_digits (s : string) : string * string :=
  match s with
  | String c t =>
      if is_digit c then let (ds, r) := take_digits t in (String c ds, r)
      else (EmptyString, s)
  | EmptyString => (EmptyString, EmptyString)
  end.

(** [1-9][0-9]* or [0], then fraction and exponent; returns the rest. *)
Definition number_tail (s : string) : json_error + string :=
  let frac r :=
    match r with
    | String c t =>
        if Ascii.eqb c "."%char then
          match take_digits t with
          | (EmptyString, String d _) => inl (UnexpectedToken d)
          | (EmptyString, EmptyString) => inl UnexpectedEnd
          | (_, r') => inr r'
          end
        else inr r
    | EmptyString => inr r
    end in
  let expo r :=
    match r with
    | String c t =>
        if Ascii.eqb c "e"%char || Ascii.eqb c "E"%char then
          let t1 := match t with
                    | String sg t2 =>
                        if Ascii.eqb sg "+"%char || Ascii.eqb sg "-"%char then t2 else t
                    | EmptyString => t
                    end in
          match take_digits t1 with
          | (EmptyString, String d _) => inl (UnexpectedToken d)
          | (EmptyString, EmptyString) => inl UnexpectedEnd
          | (_, r') => inr r'
          end
        else inr r
    | EmptyString => inr r
    end in
  let int_rest :=
    match s with
    | String c t =>
        if Ascii.eqb c "0"%char then inr t
        else if is_digit c then inr (snd (take_digits t))
        else inl (UnexpectedToken c)
    | EmptyString => inl UnexpectedEnd
    end in
  match int_rest with
  | inl err => inl err
  | inr r1 =>
      match frac r1 with
      | inl err => inl err
      | inr r2 => expo r2
      end
  end.

Definition parse_number (s : string) : json_error + (json * string) :=
  let body := match s with
              | String c t => if Ascii.eqb c "-"%char then t else s
              | EmptyString => s
              end in
  match number_tail body with
  | inl err => inl err
  | inr r =>
      inr (JNum (substring 0 (String.length s - String.length r) s), r)
  end.

(** A keyword such as [true]: the remaining letters must follow. *)
Fixpoint expect (kw s : string) : json_error + string :=
  match kw, s with
  | EmptyString, _ => inr s
  | String k kt, String c t => if Ascii.eqb k c then expect kt t else inl (UnexpectedToken c)
  | String _ _, EmptyString => inl UnexpectedEnd
  end.

Definition PR : Type := json_error + (json * string).

Fixpoint parse_value (n : nat) (s : string) : PR :=
  match n with
  | O => inl UnexpectedEnd
  | S n' =>
      match skip_ws s with
      | EmptyString => inl UnexpectedEnd
      | String c t as s0 =>
          if Ascii.eqb c "{"%char then parse_object n' t
          else if Ascii.eqb c "["%char then parse_array n' t
          else if Ascii.eqb c dq_chr then
            match string_body t with
            | inl e => inl e
            | inr (us, r) => inr (JStr us, r)
            end
          else if Ascii.eqb c "t"%char then
            match expect "rue" t with inl e => inl e | inr r => inr (JBool true, r) end
          else if Ascii.eqb c "f"%char then
            match expect "alse" t with inl e => inl e | inr r => inr (JBool false, r) end
          else if Ascii.eqb c "n"%char then
            match expect "ull" t with inl e => inl e | inr r => inr (JNull, r) end
          else if Ascii.eqb c "-"%char || is_digit c then parse_number s0
          else inl (UnexpectedToken c)
      end
  end
with parse_array (n : nat) (s : string) : PR :=
  match n with
  | O => inl UnexpectedEnd
  | S n' =>
      match skip_ws s with
      | String c r => if Ascii.eqb c "]"%char then inr (JArr [], r)
                      else array_items n' s []
      | EmptyString => inl UnexpectedEnd
      end
  end
with array_items (n : nat) (s : string) (acc : list json) : PR :=
  match n with
  | O => inl UnexpectedEnd
  | S n' =>
      match parse_value n' s with
      | inl e => inl e
      | inr (v, r) =>
          match skip_ws r with
          | String c r' =>
              if Ascii.eqb c ","%char then array_items n' r' (v :: acc)
              else if Ascii.eqb c "]"%char then inr (JArr (rev (v :: acc)), r')
              else inl (UnexpectedToken c)
          | EmptyString => inl UnexpectedEnd
          end
      end
  end
with parse_object (n : nat) (s : string) : PR :=
  match n with
  | O => inl UnexpectedEnd
  | S n' =>
      match skip_ws s with
      | String c r => if Ascii.eqb c "}"%char then inr (JObj [], r)
                      else object_members n' s []
      | EmptyString => inl UnexpectedEnd
      end
  end
with object_members (n : nat) (s : string) (acc : list (list Z * json)) : PR :=
  match n with
  | O => inl UnexpectedEnd
  | S n' =>
      match skip_ws s with
      | EmptyString => inl UnexpectedEnd
      | String c t =>
          if negb (Ascii.eqb c dq_chr) then inl (UnexpectedToken c) else
          match string_body t with
          | inl e => inl e
          | inr (key, r) =>
              match skip_ws r with
              | EmptyString => inl UnexpectedEnd
              | String colon r1 =>
                  if negb (Ascii.eqb colon ":"%char) then inl (UnexpectedToken colon) else
                  match parse_value n' r1 with
                  | inl e => inl e
                  | inr (v, r2) =>
                      match skip_ws r2 with
                      | String c2 r3 =>
                          if Ascii.eqb c2 ","%char then object_members n' r3 ((key, v) :: acc)
                          else if Ascii.eqb c2 "}"%char then inr (JObj (rev ((key, v) :: acc)), r3)
                          else inl (UnexpectedToken c2)
                      | EmptyString => inl UnexpectedEnd
                      end
                  end
              end
          end
      end
  end.

(** [JSON.parse(s)]: a value followed only by white space.  The fuel
    bounds the nesting work; every call consumes input. *)
Definition JSON_parse (s : string) : json_error + json :=
  match parse_value (4 * String.length s + 4) s with
  | inl e => inl e
  | inr (v, r) =>
      match skip_ws r with
      | EmptyString => inr v
      | String c _ => inl (TrailingChars c)
      end
  end.
(* ------------------------------------------------------------------ *)
(** ** BaseProvider.parseResponse (src/providers/base.js) *)

Definition fence : string := "```".

(** [s.replace(/```json?\n?/g, '')]: every occurrence of three backticks
    followed by [jso], an optional [n] and an optional newline is removed. *)
Fixpoint strip_open_fences (s : string) : string :=
  match s with
  | EmptyString => EmptyString
  | String c t =>
      match t with
      | String c2 (String c3 (String c4 (String c5 (String c6 r)))) =>
          if Ascii.eqb c "`"%char && Ascii.eqb c2 "`"%char && Ascii.eqb c3 "`"%char
             && Ascii.eqb c4 "j"%char && Ascii.eqb c5 "s"%char && Ascii.eqb c6 "o"%char
          then
            match r with
            | String c7 r1 =>
                if Ascii.eqb c7 "n"%char then
                  match r1 with
                  | String c8 r2 =>
                      if Ascii.eqb c8 nl_chr then strip_open_fences r2 else strip_open_fences r1
                  | EmptyString => EmptyString
                  end
                else if Ascii.eqb c7 nl_chr then strip_open_fences r1
                else strip_open_fences r
            | EmptyString => EmptyString
            end
          else String c (strip_open_fences t)
      | _ => String c (strip_open_fences t)
      end
  end.

(** [s.replace(/```\n?$/g, '')]: the leftmost match ends the input, so at
    most one trailing fence (with an optional newline) goes. *)
Definition strip_close_fence (s : string) : string :=
  if endsWith s (fence ++ nl) then substring 0 (String.length s - 4) s
  else if endsWith s fence then substring 0 (String.length s - 3) s
  else s.

Record fallback_report : Type := {
  summary : string;
  bugs : list json;
  score : option Z;            (* [null] is [None] *)
  recommendations : list json;
  raw_response : string;
  parse_error : string
}.

Inductive parsed_response : Type :=
| Parsed (v : json)
| Fallback (r : fallback_report).

(** [syntax_error_message text] is the [message] of the [SyntaxError]
    that [JSON.parse(text)] throws. *)
Definition parseResponse (syntax_error_message : string -> string) (response : string)
    : parsed_response :=
  let jsonStr := trim response in
  let jsonStr :=
    if startsWith jsonStr fence
    then strip_close_fence (strip_open_fences jsonStr)
    else jsonStr in
  match JSON_parse jsonStr with
  | inr v => Parsed v
  | inl error =>
      Fallback {| summary := "Failed to parse LLM response";
                  bugs := [];
                  score := None;
                  recommendations := [];
                  raw_response := response;
                  parse_error := syntax_error_message jsonStr |}
  end.

(** The text [JSON.parse] receives. *)
Definition parseResponse_input (response : string) : string :=
  let jsonStr := trim response in
  if startsWith jsonStr fence
  then strip_close_fence (strip_open_fences jsonStr)
  else jsonStr.

(* ------------------------------------------------------------------ *)
(** ** shouldIgnoreRequest (scripts/page-utils.js) *)

Definition IGNORED_DOMAINS : list string :=
  [ "doubleclick.net"; "googlesyndication.com"; "googleadservices.com";
    "google-analytics.com"; "googletagmanager.com"; "facebook.net";
    "facebook.com/tr"; "hotjar.com"; "intercom.io"; "segment.io"; "segment.com";
    "mixpanel.com"; "amplitude.com"; "sentry.io"; "newrelic.com"; "nr-data.net";
    "fullstory.com"; "clarity.ms"; "bing.com/bat"; "ads.linkedin.com";
    "analytics.twitter.com"; "px.ads.linkedin.com" ].

(** The fields of a [URL] object that the code reads. *)
Record parsed_url : Type := { protocol : string; hostname : string }.

Section ShouldIgnore.
(** [new URL(url)]: [None] when the constructor throws. *)
Variable URL_parse : string -> option parsed_url.

Definition shouldIgnoreRequest (url : string) : bool :=
  match URL_parse url with
  | None => true
  | Some parsed =>
      if String.eqb (protocol parsed) "data:" then true
      else if (2000 <? String.length url)%nat then true
      else existsb (fun domain => includes (hostname parsed) domain) IGNORED_DOMAINS
  end.
End ShouldIgnore.

(** A small instance of the URL constructor for concrete runs:
    [scheme:] then, after [//], the host up to the next [/], [?] or [#];
    anything without a scheme separator throws. *)
Fixpoint split_at (p : ascii -> bool) (s : string) : string * string :=
  match s with
  | EmptyString => (EmptyString, EmptyString)
  | String c t => if p c then (EmptyString, s) else let (a, b) := split_at p t in (String c a, b)
  end.

Definition sample_URL_parse (url : string) : option parsed_url :=
  match split_at (fun c => Ascii.eqb c ":"%char || is_js_space c) url with
  | (EmptyString, _) => None
  | (scheme, String c rest) =>
      if negb (Ascii.eqb c ":"%char) then None else
      let proto := (toLowerCase scheme ++ ":")%string in
      if String.prefix "//" rest then
        let host := fst (split_at (fun c => Ascii.eqb c "/"%char || Ascii.eqb c "?"%char
                                            || Ascii.eqb c "#"%char) (substring 2 (String.length rest - 2) rest)) in
        Some {| protocol := proto; hostname := toLowerCase host |}
      else Some {| protocol := proto; hostname := EmptyString |}
  | (_, EmptyString) => None
  end.

(* ------------------------------------------------------------------ *)
(** ** waitForPageReady (scripts/page-utils.js)

    A simulated session: [pending_at t] is the content of the
    [pendingRequests] map at time [t], as the request, response and
    requestfailed listeners leave it (only requests that
    [shouldIgnoreRequest] keeps are ever added).  [Date.now()] reads the
    simulated clock, which advances only while the function sleeps. *)

Record pending_req : Type := { req_url : string; req_type : string; req_start : Z }.

Record ready_options : Type := {
  timeout : Z; networkIdleTime : Z; nonCriticalTimeout : Z
}.

Definition default_ready_options : ready_options :=
  {| timeout := 30000; networkIdleTime := 500; nonCriticalTimeout := 3000 |}.

Definition NON_CRITICAL_TYPES : list string := ["image"; "font"; "media"; "stylesheet"].

(** The filter callback of [criticalPending] and [stillPending]. *)
Definition still_blocking (nonCritical now : Z) (req : pending_req) : bool :=
  if existsb (String.eqb (req_type req)) NON_CRITICAL_TYPES
  then (now - req_start req <? nonCritical)%Z
  else true.

Definition critical_pending (nonCritical now : Z) (reqs : list pending_req) : list pending_req :=
  filter (still_blocking nonCritical now) reqs.

(** Node's [setTimeout] delay: a value below 1 or above [TIMEOUT_MAX]
    is replaced by 1. *)
Definition TIMEOUT_MAX : Z := 2147483647.

Definition timer_delay (d : Z) : Z :=
  if (1 <=? d)%Z && (d <=? TIMEOUT_MAX)%Z then d else 1%Z.

(** [await new Promise((r) => setTimeout(r, d))] started at [t] resumes
    at [sleep_end late t d]: after the delay as Node sets it, plus the
    lateness [late t d] of the timer (0 when it fires on time). *)
Definition sleep_end (late : Z -> Z -> nat) (t d : Z) : Z :=
  (t + timer_delay d + Z.of_nat (late t d))%Z.

(** The [while] loop; returns the clock when the loop exits.  Every turn
    that does not exit sleeps at least 100 ms, so the fuel exceeds the
    number of turns. *)
Fixpoint ready_loop (fuel : nat) (o : ready_options) (pending_at : Z -> list pending_req)
    (late : Z -> Z -> nat) (startTime now : Z) : Z :=
  match fuel with
  | O => now
  | S fuel' =>
      if (now - startTime <? timeout o)%Z then
        match critical_pending (nonCriticalTimeout o) now (pending_at now) with
        | [] =>
            let now1 := sleep_end late now (networkIdleTime o) in
            match critical_pending (nonCriticalTimeout o) now1 (pending_at now1) with
            | [] => now1
            | _ => ready_loop fuel' o pending_at late startTime (sleep_end late now1 100)
            end
        | _ => ready_loop fuel' o pending_at late startTime (sleep_end late now 100)
        end
      else now
  end.

Record ready_result : Type := {
  ready : bool; pendingRequests : list string; loadTime : Z
}.

(** The body after [waitForLoadState('domcontentloaded')] resolved at
    [domLoaded]; [startTime] is the clock at entry. *)
Definition ready_after (o : ready_options) (pending_at : Z -> list pending_req)
    (late : Z -> Z -> nat) (startTime domLoaded : Z) : ready_result :=
  let final := ready_loop (Z.to_nat (timeout o - (domLoaded - startTime)) + 1)
                 o pending_at late startTime domLoaded in
  let remaining := map req_url (pending_at final) in
  {| ready := match remaining with [] => true | _ => false end;
     pendingRequests := remaining;
     loadTime := (final - startTime)%Z |}.

(** A call of [waitForPageReady]: [dom] is the clock when
    [waitForLoadState] resolves, or [None] when it rejects (its timeout
    elapsed first), and then the call rejects with that error. *)
Definition waitForPageReady_run (o : ready_options) (pending_at : Z -> list pending_req)
    (late : Z -> Z -> nat) (startTime : Z) (dom : option Z) : option ready_result :=
  match dom with
  | Some domLoaded => Some (ready_after o pending_at late startTime domLoaded)
  | None => None
  end.

Definition on_time : Z -> Z -> nat := fun _ _ => O.

(** A call in which [waitForLoadState] resolves at [domLoaded] and every
    timer fires on time. *)
Definition waitForPageReady (o : ready_options) (pending_at : Z -> list pending_req)
    (startTime domLoaded : Z) : ready_result :=
  ready_after o pending_at on_time startTime domLoaded.

(* ------------------------------------------------------------------ *)
(** ** Benchmark scoring (benchmarks/run.js) *)

(** [s.split(c)] at every character satisfying [p]. *)
Fixpoint split_chars (p : ascii -> bool) (s : string) : list string :=
  match s with
  | EmptyString => [EmptyString]
  | String c t =>
      if p c then EmptyString :: split_chars p t
      else match split_chars p t with
           | [] => [String c EmptyString]
           | x :: r => String c x :: r
           end
  end.

(** Splitting at maximal runs ([+]) keeps the first and last pieces and
    drops the empty pieces between adjacent separators. *)
Definition merge_runs (pieces : list string) : list string :=
  match pieces with
  | [] => []
  | [x] => [x]
  | x :: rest =>
      x :: filter (fun w => negb (String.eqb w EmptyString)) (removelast rest)
        ++ [last rest EmptyString]
  end.

Definition is_split_sep (c : ascii) : bool :=
  is_js_space c || Ascii.eqb c ","%char || Ascii.eqb c "/"%char.

(** [s.split(/[\s,/]+/)] *)
Definition split_words (s : string) : list string := merge_runs (split_chars is_split_sep s).

Definition keywords (expected : string) : list string :=
  filter (fun w => (3 <? String.length w)%nat) (split_words (toLowerCase expected)).

(** [Math.ceil(n * 0.4)].  For a count [n] below 2^50 the double product
    rounds to the nearest double of [2n/5] and never crosses an integer,
    so the ceiling is the exact one. *)
Definition ceil_two_fifths (n : nat) : nat := (2 * n + 4) / 5.

Definition matchDescription (actual expected : string) : bool :=
  let kws := keywords expected in
  let normalised := toLowerCase actual in
  let hits := filter (fun kw => includes normalised kw) kws in
  (ceil_two_fifths (length kws) <=? length hits)%nat.

(** A reported issue; [None] is an absent field. *)
Record issue : Type := {
  description : option string; message : option string;
  category : option string; severity : option string
}.

Record expected_issue : Type := {
  exp_description : string; exp_category : option string; exp_severity : option string
}.

(** [a || b] for an optional string [a] and a string [b]. *)
Definition or_str (a : option string) (b : string) : string :=
  match a with
  | Some x => if String.eqb x EmptyString then b else x
  | None => b
  end.

(** [!exp.f || (issue.f || '').toLowerCase().includes(exp.f.toLowerCase())] *)
Definition field_match (expf issuef : option string) : bool :=
  match expf with
  | None => true
  | Some e =>
      if String.eqb e EmptyString then true
      else includes (toLowerCase (or_str issuef EmptyString)) (toLowerCase e)
  end.

(** The candidate's description text: [issue.description || issue.message || '']. *)
Definition issue_text (i : issue) : string :=
  or_str (description i) (or_str (message i) EmptyString).

(** The callback of [review.issues.some]. *)
Definition issue_matches (i : issue) (exp : expected_issue) : bool :=
  let descMatch := matchDescription (issue_text i) (exp_description exp) in
  let catMatch := field_match (exp_category exp) (category i) in
  let sevMatch := field_match (exp_severity exp) (severity i) in
  descMatch || (catMatch && sevMatch).

(** [review.issues]: absent, an array, or some other value (with its
    truthiness). *)
Inductive issues_field : Type :=
| IssuesAbsent
| IssuesArray (l : list issue)
| IssuesOther (truthy : bool).

Record review : Type := { issues : issues_field }.

Record score_result : Type := { detected : bool; falsePositives : Z }.

(** [scoreResult]; a [None] review is [null] or [undefined]. *)
Definition scoreResult (rv : option review) (expected : list expected_issue) : score_result :=
  match rv with
  | Some r =>
      match issues r with
      | IssuesArray l =>
          {| detected := forallb (fun exp => existsb (fun i => issue_matches i exp) l) expected;
             falsePositives := Z.max 0 (Z.of_nat (length l) - Z.of_nat (length expected)) |}
      | _ => {| detected := false; falsePositives := 0 |}
      end
  | None => {| detected := false; falsePositives := 0 |}
  end.

Definition issues_array (rv : option review) : option (list issue) :=
  match rv with
  | Some r => match issues r with IssuesArray l => Some l | _ => None end
  | None => None
  end.

(* ------------------------------------------------------------------ *)
(** ** Visual regression (compareImages, compareDirectories)

    A finite JavaScript number is the rational it denotes; each
    arithmetic result is rounded to binary64 by [round64] (to nearest,
    ties to even).  The exponent range is not bounded: the numbers met
    here (pixel counts, which are below 2^64, their ratios times 100, and
    counts of files) are far from overflow and from the subnormal
    range. *)

Definition round64 (x : Q) : Q :=
  match Qnum x with
  | Z0 => 0
  | _ =>
      let a := Z.abs (Qnum x) in
      let d := Zpos (Qden x) in
      (* [a / d] scaled by [2^-e], as a fraction *)
      let scaled (e : Z) := if (e <=? 0)%Z then (Z.shiftl a (- e), d) else (a, Z.shiftl d e) in
      let e0 := (Z.log2 a - Z.log2 d - 52)%Z in
      (* the exponent that puts the scaled value in [2^52, 2^53) *)
      let e := let '(n, m) := scaled e0 in if (n <? Z.shiftl m 52)%Z then (e0 - 1)%Z else e0 in
      let '(n, m) := scaled e in
      let q := (n / m)%Z in
      let r := (n mod m)%Z in
      let mant := if (m <? 2 * r)%Z || ((2 * r =? m)%Z && Z.odd q) then (q + 1)%Z else q in
      let sm := if (Qnum x <? 0)%Z then (- mant)%Z else mant in
      if (0 <=? e)%Z then Z.shiftl sm e # 1 else sm # Z.to_pos (Z.shiftl 1 (- e))
  end.

(** [x / y] for [y <> 0] and [x * y] on numbers. *)
Definition js_div (x y : Q) : Q := round64 (x / y).
Definition js_mul (x y : Q) : Q := round64 (x * y).

(** An integer as a number. *)
Definition js_of_Z (z : Z) : Q := round64 (z # 1).

(** The value of the string [x.toFixed(k)] for a finite [x]: the sign
    when [x < 0], then for [|x| >= 10^21] [String(|x|)] (which reads back
    as [|x|]), else [n / 10^k] for the integer [n] nearest to
    [|x| * 10^k], the larger one when two are equally near. *)
Definition toFixed (x : Q) (k : nat) : Q :=
  let m := (10 ^ Z.of_nat k)%Z in
  let y := Z.abs (Qnum x) # Qden x in
  let v := if Qle_bool (10 ^ 21 # 1) y then y
           else ((2 * Qnum y * m + Zpos (Qden y)) / (2 * Zpos (Qden y)))%Z # Z.to_pos m in
  if Qle_bool 0 x then v else - v.

(** [parseFloat(x.toFixed(k))]: [parseFloat] rounds the decimal to the
    nearest number. *)
Definition parseFloat_toFixed (x : Q) (k : nat) : Q := round64 (toFixed x k).

(** A [diffPercent] value: [NaN] (0 / 0), an infinity (a non-zero count
    over zero pixels; [true] for [+Infinity]), or a finite number. *)
Inductive js_pct : Type :=
| PctNaN
| PctInfinity (positive : bool)
| Pct (x : Q).

(** A decoded PNG: the dimensions and the RGBA data. *)
Record png_image : Type := { png_width : Z; png_height : Z; png_data : list Z }.

(** A directory listing: names and contents; [None] when [PNG.sync.read]
    throws on the file.  A directory that does not exist lists nothing. *)
Definition directory : Type := list (string * option png_image).

Inductive comparison : Type :=
| DimensionMismatch (baseline current : Z * Z)
| Compared (diffPixels : Z) (diffPercent : js_pct).

Inductive file_status : Type := New | Missing | Failed | Warning | Passed.

Record summary_counts : Type := {
  total : nat; passed : nat; failed : nat; missing : nat; new_images : nat;
  passRate : Q
}.

(** [diffPercent > failThreshold] for a finite [failThreshold]; a
    comparison with [NaN] is false. *)
Definition pct_gt (p : js_pct) (failThreshold : Q) : bool :=
  match p with
  | PctNaN => false
  | PctInfinity positive => positive
  | Pct x => negb (Qle_bool x failThreshold)
  end.

Section VisualRegression.
(** The pixel-difference library: the number of differing pixels of
    two images of the same size, at a colour [threshold]. *)
Variable pixelmatch : png_image -> png_image -> Q -> Z.

Definition compareImages (baseline current : png_image) (threshold : Q) : comparison :=
  if negb (Z.eqb (png_width baseline) (png_width current))
     || negb (Z.eqb (png_height baseline) (png_height current))
  then DimensionMismatch (png_width baseline, png_height baseline)
                         (png_width current, png_height current)
  else
    let diffPixels := pixelmatch baseline current threshold in
    let totalPixels := js_of_Z (png_width baseline * png_height baseline) in
    Compared diffPixels
      (if Qeq_bool totalPixels 0 then
         (* [width * height] is [-0] when exactly one factor is negative *)
         if Z.eqb diffPixels 0 then PctNaN
         else PctInfinity (xorb (0 <? diffPixels)%Z
                                (xorb (png_width baseline <? 0)%Z (png_height baseline <? 0)%Z))
       else Pct (parseFloat_toFixed (js_mul (js_div (js_of_Z diffPixels) totalPixels) 100) 2)).

Definition png_names (dir : directory) : list string :=
  filter (fun f => endsWith f ".png") (map fst dir).

(** [new Set([...a, ...b])] in insertion order. *)
Fixpoint set_add_all (acc : list string) (l : list string) : list string :=
  match l with
  | [] => acc
  | x :: r => set_add_all (if existsb (String.eqb x) acc then acc else acc ++ [x]) r
  end.

Definition allFiles (baseline current : directory) : list string :=
  set_add_all [] (png_names baseline ++ png_names current).

(** [fs.existsSync(path.join(dir, file))] *)
Definition existsIn (dir : directory) (f : string) : bool :=
  existsb (fun e => String.eqb (fst e) f) dir.

(** [PNG.sync.read(fs.readFileSync(path.join(dir, file)))] *)
Definition readPng (dir : directory) (f : string) : option png_image :=
  match find (fun e => String.eqb (fst e) f) dir with
  | Some (_, img) => img
  | None => None
  end.

(** The body of the [for] loop: the status of one file, or [None]
    when reading an image throws. *)
Definition compare_file (baseline current : directory) (threshold failThreshold : Q)
    (f : string) : option file_status :=
  if negb (existsIn baseline f) then Some New
  else if negb (existsIn current f) then Some Missing
  else
    match readPng baseline f, readPng current f with
    | Some b, Some c =>
        match compareImages b c threshold with
        | DimensionMismatch _ _ => Some Failed
        | Compared diffPixels diffPercent =>
            if pct_gt diffPercent failThreshold then Some Failed
            else if (0 <? diffPixels)%Z then Some Warning
            else Some Passed
        end
    | _, _ => None
    end.

Record counters : Type := { c_passed : nat; c_failed : nat; c_missing : nat; c_new : nat }.

Definition bump (st : file_status) (c : counters) : counters :=
  match st with
  | New => {| c_passed := c_passed c; c_failed := c_failed c; c_missing := c_missing c; c_new := S (c_new c) |}
  | Missing => {| c_passed := c_passed c; c_failed := c_failed c; c_missing := S (c_missing c); c_new := c_new c |}
  | Failed => {| c_passed := c_passed c; c_failed := S (c_failed c); c_missing := c_missing c; c_new := c_new c |}
  | Warning | Passed => {| c_passed := S (c_passed c); c_failed := c_failed c; c_missing := c_missing c; c_new := c_new c |}
  end.

Fixpoint compare_loop (baseline current : directory) (threshold failThreshold : Q)
    (files : list string) (c : counters) : option (list (string * file_status) * counters) :=
  match files with
  | [] => Some ([], c)
  | f :: rest =>
      match compare_file baseline current threshold failThreshold f with
      | None => None
      | Some st =>
          match compare_loop baseline current threshold failThreshold rest (bump st c) with
          | None => None
          | Some (results, c') => Some ((f, st) :: results, c')
          end
      end
  end.

Definition compareDirectories (baseline current : directory) (threshold failThreshold : Q)
    : option (summary_counts * list (string * file_status)) :=
  let files := allFiles baseline current in
  match compare_loop baseline current threshold failThreshold files
          {| c_passed := 0; c_failed := 0; c_missing := 0; c_new := 0 |} with
  | None => None
  | Some (results, c) =>
      let size := length files in
      Some ({| total := size; passed := c_passed c; failed := c_failed c;
               missing := c_missing c; new_images := c_new c;
               passRate := if (0 <? size)%nat
                           then parseFloat_toFixed
                                  (js_mul (js_div (js_of_Z (Z.of_nat (c_passed c)))
                                                  (js_of_Z (Z.of_nat size))) 100) 1
                           else 100 |},
            results)
  end.
End VisualRegression.

(* ------------------------------------------------------------------ *)
(** ** JavaScript objects used as maps

    [obj[key]] on an object literal finds its own properties first and
    then those of [Object.prototype], whose values are all truthy. *)

Definition OBJECT_PROTOTYPE_KEYS : list string :=
  [ "constructor"; "__defineGetter__"; "__defineSetter__"; "hasOwnProperty";
    "__lookupGetter__"; "__lookupSetter__"; "isPrototypeOf"; "propertyIsEnumerable";
    "toString"; "valueOf"; "__proto__"; "toLocaleString" ].

Inductive prop_lookup (A : Type) : Type :=
| Own (v : A)
| Inherited (key : string)
| Undefined.
Arguments Own {A} v.
Arguments Inherited {A} key.
Arguments Undefined {A}.

Definition obj_get {A : Type} (o : list (string * A)) (key : string) : prop_lookup A :=
  match find (fun kv => String.eqb (fst kv) key) o with
  | Some (_, v) => Own v
  | None => if existsb (String.eqb key) OBJECT_PROTOTYPE_KEYS then Inherited key else Undefined
  end.

(* ------------------------------------------------------------------ *)
(** ** Viewport resolution in capturePage and capturePageData *)

Record viewport : Type := { vp_width : Z; vp_height : Z }.

(** [VIEWPORTS] of the disk-oriented capture. *)
Definition VIEWPORTS : list (string * viewport) :=
  [ ("desktop", {| vp_width := 1920; vp_height := 1080 |});
    ("tablet", {| vp_width := 768; vp_height := 1024 |});
    ("mobile", {| vp_width := 375; vp_height := 667 |}) ].

Record viewport_config : Type := { cfg_width : Z; cfg_height : Z; cfg_name : string }.

(** [VIEWPORT_CONFIGS] of the library capture. *)
Definition VIEWPORT_CONFIGS : list (string * viewport_config) :=
  [ ("mobile", {| cfg_width := 375; cfg_height := 667; cfg_name := "mobile" |});
    ("tablet", {| cfg_width := 768; cfg_height := 1024; cfg_name := "tablet" |});
    ("desktop", {| cfg_width := 1920; cfg_height := 1080; cfg_name := "desktop" |}) ].

(** One turn of the viewport loop: a screenshot at a size, a warning and
    [continue], or an inherited property value handed to
    [page.setViewportSize] (what the browser library then does is not
    part of this repository). *)
Inductive viewport_step : Type :=
| Screenshot (viewport_name : string) (width height : Z)
| SkipWarning (warning : string)
| BrowserGetsInherited (key : string).

Definition unknown_viewport_warning (viewportName : string) : string :=
  "Unknown viewport: " ++ viewportName ++ ", skipping".

(** capturePage: [VIEWPORTS[viewportName]]. *)
Fixpoint capturePage_viewports (viewports : list string) : list viewport_step :=
  match viewports with
  | [] => []
  | viewportName :: rest =>
      match obj_get VIEWPORTS viewportName with
      | Own v => Screenshot viewportName (vp_width v) (vp_height v)
      | Inherited k => BrowserGetsInherited k
      | Undefined => SkipWarning (unknown_viewport_warning viewportName)
      end :: capturePage_viewports rest
  end.

(** capturePageData: [VIEWPORT_CONFIGS[viewportName.toLowerCase()]]. *)
Fixpoint capturePageData_viewports (viewports : list string) : list viewport_step :=
  match viewports with
  | [] => []
  | viewportName :: rest =>
      match obj_get VIEWPORT_CONFIGS (toLowerCase viewportName) with
      | Own config => Screenshot (cfg_name config) (cfg_width config) (cfg_height config)
      | Inherited k => BrowserGetsInherited k
      | Undefined => SkipWarning (unknown_viewport_warning viewportName)
      end :: capturePageData_viewports rest
  end.

Definition screenshots_of (steps : list viewport_step) : list (string * Z * Z) :=
  flat_map (fun s => match s with Screenshot n w h => [(n, w, h)] | _ => [] end) steps.

(** The three presets by their lowercase names. *)
Definition preset (name : string) : option (Z * Z) :=
  if String.eqb name "desktop" then Some (1920%Z, 1080%Z)
  else if String.eqb name "tablet" then Some (768%Z, 1024%Z)
  else if String.eqb name "mobile" then Some (375%Z, 667%Z)
  else None.

(* ------------------------------------------------------------------ *)
(** ** Provider auto-detection

    [process.env] as an association list; a variable is truthy when it
    is set to a non-empty string. *)

Definition env_t : Type := list (string * string).

(** [env.NAME] *)
Definition env_get (env : env_t) (name : string) : option string :=
  match find (fun kv => String.eqb (fst kv) name) env with
  | Some (_, v) => Some v
  | None => None
  end.

Definition truthy (v : option string) : bool :=
  match v with Some s => negb (String.eqb s EmptyString) | None => false end.

(** [a || b] on optional strings: [b] when [a] is falsy. *)
Definition or_opt (a b : option string) : option string := if truthy a then a else b.

(** [v === s] for an optional string [v]. *)
Definition option_eq_string (v : option string) (s : string) : bool :=
  match v with Some x => String.eqb x s | None => false end.

Record detected_provider : Type := {
  provider : string; apiKey : option string; options : list (string * string)
}.

(** src/providers/index.js: the [INPUT_]-prefixed variables only. *)
Module ProvidersIndex.
Definition detectProvider (env : env_t) : option detected_provider :=
  if truthy (env_get env "INPUT_PROVIDER") && truthy (env_get env "INPUT_API_KEY") then
    Some {| provider := toLowerCase (or_str (env_get env "INPUT_PROVIDER") EmptyString);
            apiKey := env_get env "INPUT_API_KEY"; options := [] |}
  else if truthy (env_get env "INPUT_ANTHROPIC_API_KEY") then
    Some {| provider := "anthropic"; apiKey := env_get env "INPUT_ANTHROPIC_API_KEY"; options := [] |}
  else if truthy (env_get env "INPUT_OPENAI_API_KEY") then
    Some {| provider := "openai"; apiKey := env_get env "INPUT_OPENAI_API_KEY"; options := [] |}
  else if truthy (env_get env "INPUT_CODEX_API_KEY") then
    Some {| provider := "codex"; apiKey := env_get env "INPUT_CODEX_API_KEY";
            options := [("model", "codex-mini-latest")] |}
  else if truthy (env_get env "INPUT_GEMINI_API_KEY") then
    Some {| provider := "gemini"; apiKey := env_get env "INPUT_GEMINI_API_KEY"; options := [] |}
  else if option_eq_string (env_get env "INPUT_PROVIDER") "ollama" then
    Some {| provider := "ollama"; apiKey := None;
            options := [("baseUrl", or_str (env_get env "INPUT_OLLAMA_BASE_URL") "http://localhost:11434");
                        ("model", or_str (env_get env "INPUT_OLLAMA_MODEL") "llava")] |}
  else None.

Definition no_key_message : string :=
  "No API key provided. Set one of: " ++
  "INPUT_ANTHROPIC_API_KEY, INPUT_OPENAI_API_KEY, INPUT_CODEX_API_KEY, " ++
  "INPUT_GEMINI_API_KEY, or INPUT_PROVIDER with INPUT_API_KEY".

(** [getProvider] up to [createProvider]: the thrown message, or the
    detected configuration handed to [createProvider]. *)
Definition getProvider (env : env_t) : string + detected_provider :=
  match detectProvider env with
  | None => inl no_key_message
  | Some d => inr d
  end.
End ProvidersIndex.

(** The detection code that follows [OpenAIProvider] in
    src/providers/openai.js: plain name first, then the [INPUT_] one. *)
Module ProvidersOpenAI.
Definition detectProvider (env : env_t) : option detected_provider :=
  let provider0 := or_opt (env_get env "PROVIDER") (env_get env "INPUT_PROVIDER") in
  let apiKey0 := or_opt (env_get env "API_KEY") (env_get env "INPUT_API_KEY") in
  if truthy provider0 && truthy apiKey0 then
    Some {| provider := toLowerCase (or_str provider0 EmptyString); apiKey := apiKey0; options := [] |}
  else
  let anthropicKey := or_opt (env_get env "ANTHROPIC_API_KEY") (env_get env "INPUT_ANTHROPIC_API_KEY") in
  if truthy anthropicKey then
    Some {| provider := "anthropic"; apiKey := anthropicKey; options := [] |}
  else
  let openaiKey := or_opt (env_get env "OPENAI_API_KEY") (env_get env "INPUT_OPENAI_API_KEY") in
  if truthy openaiKey then
    Some {| provider := "openai"; apiKey := openaiKey; options := [] |}
  else
  let codexKey := or_opt (env_get env "CODEX_API_KEY") (env_get env "INPUT_CODEX_API_KEY") in
  if truthy codexKey then
    Some {| provider := "codex"; apiKey := codexKey; options := [("model", "codex-mini-latest")] |}
  else
  let geminiKey := or_opt (env_get env "GEMINI_API_KEY") (env_get env "INPUT_GEMINI_API_KEY") in
  if truthy geminiKey then
    Some {| provider := "gemini"; apiKey := geminiKey; options := [] |}
  else if option_eq_string provider0 "ollama" then
    Some {| provider := "ollama"; apiKey := None;
            options := [("baseUrl", or_str (or_opt (env_get env "OLLAMA_BASE_URL")
                                                   (env_get env "INPUT_OLLAMA_BASE_URL"))
                                           "http://localhost:11434");
                        ("model", or_str (or_opt (env_get env "OLLAMA_MODEL")
                                                 (env_get env "INPUT_OLLAMA_MODEL")) "llava")] |}
  else None.

Definition no_key_message : string :=
  "No API key provided. Set one of: " ++
  "ANTHROPIC_API_KEY, OPENAI_API_KEY, CODEX_API_KEY, GEMINI_API_KEY, " ++
  "or PROVIDER with API_KEY".

Definition getProvider (env : env_t) : string + detected_provider :=
  match detectProvider env with
  | None => inl no_key_message
  | Some d => inr d
  end.
End ProvidersOpenAI.

(* ------------------------------------------------------------------ *)
(** ** Provider classes and test generation (src/generate.js)

    A class is its own methods plus the prototype it extends; a method
    call looks the name up along that chain. *)

Inductive js_class : Type :=
| BaseProvider | AnthropicProvider | OpenAIProvider | GeminiProvider | OllamaProvider
| StringWrapper  (* [new Object(apiKey)] for a string [apiKey] *)
| ObjectProto.

Definition STRING_PROTOTYPE_KEYS : list string :=
  [ "length"; "constructor"; "anchor"; "at"; "big"; "blink"; "bold"; "charAt";
    "charCodeAt"; "codePointAt"; "concat"; "endsWith"; "fontcolor"; "fontsize";
    "fixed"; "includes"; "indexOf"; "isWellFormed"; "italics"; "lastIndexOf";
    "link"; "localeCompare"; "match"; "matchAll"; "normalize"; "padEnd";
    "padStart"; "repeat"; "replace"; "replaceAll"; "search"; "slice"; "small";
    "split"; "strike"; "sub"; "substr"; "substring"; "sup"; "startsWith";
    "toString"; "toWellFormed"; "trim"; "trimStart"; "trimLeft"; "trimEnd";
    "trimRight"; "toLocaleLowerCase"; "toLocaleUpperCase"; "toLowerCase";
    "toUpperCase"; "valueOf" ].

(** Methods declared in each class body, and the properties the
    constructors assign on the instance. *)
Definition own_methods (c : js_class) : list string :=
  match c with
  | BaseProvider =>
      ["constructor"; "analyze"; "reviewCode"; "buildPrompt"; "parseResponse"; "buildReviewPrompt"]
  | AnthropicProvider => ["constructor"; "analyze"]
  | OpenAIProvider => ["constructor"; "analyze"; "reviewCode"]
  | GeminiProvider => ["constructor"; "analyze"; "reviewCode"]
  | OllamaProvider => ["constructor"; "analyze"]
  | StringWrapper => STRING_PROTOTYPE_KEYS
  | ObjectProto => OBJECT_PROTOTYPE_KEYS
  end.

Definition instance_fields (c : js_class) : list string :=
  match c with
  | AnthropicProvider | OpenAIProvider => ["apiKey"; "options"; "client"; "model"]
  | GeminiProvider => ["apiKey"; "options"; "genAI"; "model"]
  | OllamaProvider => ["apiKey"; "options"; "baseUrl"; "model"]
  | BaseProvider => ["apiKey"; "options"]
  | StringWrapper | ObjectProto => []
  end.

Definition extends (c : js_class) : option js_class :=
  match c with
  | AnthropicProvider | OpenAIProvider | GeminiProvider | OllamaProvider => Some BaseProvider
  | BaseProvider | StringWrapper => Some ObjectProto
  | ObjectProto => None
  end.

(** The prototype chain of an instance, nearest first. *)
Fixpoint chain_from (fuel : nat) (c : js_class) : list js_class :=
  match fuel with
  | O => []
  | S f => c :: match extends c with Some p => chain_from f p | None => [] end
  end.

Definition proto_chain (c : js_class) : list js_class := chain_from 3 c.

(** [typeof instance[name] === 'function'] for an instance of [c]. *)
Definition has_method (c : js_class) (name : string) : bool :=
  existsb (fun k => existsb (String.eqb name) (own_methods k)) (proto_chain c).

Definition has_property (c : js_class) (name : string) : bool :=
  existsb (String.eqb name) (instance_fields c) || has_method c name.

(** [PROVIDERS] of src/providers/index.js. *)
Definition PROVIDERS : list (string * js_class) :=
  [ ("anthropic", AnthropicProvider); ("openai", OpenAIProvider);
    ("codex", OpenAIProvider); ("gemini", GeminiProvider); ("ollama", OllamaProvider) ].

Inductive created : Type :=
| Instance (c : js_class)
| Thrown (msg : string).

(** [createProvider]: [PROVIDERS[name.toLowerCase()]] is an ordinary
    property read, so the keys of Object.prototype are found as well:
    [constructor] is [Object], which [new] turns into a wrapper of the
    string key; the other inherited values are not constructors. *)
Definition createProvider (providerName : string) (apiKey : option string) : created :=
  match obj_get PROVIDERS (toLowerCase providerName) with
  | Own c => Instance c
  | Inherited k =>
      if String.eqb k "constructor"
      then match apiKey with Some _ => Instance StringWrapper | None => Instance ObjectProto end
      else Thrown "TypeError: ProviderClass is not a constructor"
  | Undefined =>
      Thrown ("Unknown provider: " ++ providerName ++
              ". Supported: anthropic, openai, codex, gemini, ollama")%string
  end.

(** [getProvider()] of src/providers/index.js, through [createProvider]. *)
Definition getProvider_instance (env : env_t) : created :=
  match ProvidersIndex.getProvider env with
  | inl msg => Thrown msg
  | inr d => createProvider (provider d) (apiKey d)
  end.

Definition not_a_function_msg : string :=
  "TypeError: provider.generateTests is not a function".

(** How a generation run ends: the promise rejects with a message, or
    the run reaches the output step (printing or [writeTestFiles]). *)
Inductive gen_outcome : Type :=
| GenRejected (msg : string)
| GenWritten.

(** [const provider = getProvider(); ... await provider.generateTests(prompt)]:
    [None] when the call returns, [Some msg] when it throws. A provider
    that did define the method is taken to answer. *)
Definition provider_call (env : env_t) : option string :=
  match getProvider_instance env with
  | Thrown msg => Some msg
  | Instance c => if has_method c "generateTests" then None else Some not_a_function_msg
  end.

(** [generateE2ETests]: [crawlSite] either rejects or yields the site
    data; nothing else before the provider call can fail. *)
Definition generateE2ETests (env : env_t) (crawl : string + unit) : gen_outcome :=
  match crawl with
  | inl err => GenRejected err
  | inr _ =>
      match provider_call env with
      | Some msg => GenRejected msg
      | None => GenWritten
      end
  end.

(** [generateUnitTests]: one provider call per source file, in order. *)
Fixpoint unit_loop (env : env_t) (sources : list string) : option string :=
  match sources with
  | [] => None
  | _ :: rest =>
      match provider_call env with
      | Some msg => Some msg
      | None => unit_loop env rest
      end
  end.

Definition generateUnitTests (env : env_t) (filePath : string) (sources : list string) : gen_outcome :=
  match sources with
  | [] => GenRejected ("No source files found at: " ++ filePath)%string
  | _ =>
      match unit_loop env sources with
      | Some msg => GenRejected msg
      | None => GenWritten
      end
  end.

(* ------------------------------------------------------------------ *)
(** ** ARIA references (scripts/aria-snapshot.js)

    Elements are identified by a number; [window.__qaRefs] is an object
    with string keys, kept in insertion order. *)

Inductive dom_node : Type :=
| Node (el : nat) (hidden : bool) (needsRef : bool) (children : list dom_node).

(** Decimal digits of a number, as in ['e' + n]. *)
Fixpoint dec_aux (fuel n : nat) (acc : string) : string :=
  match fuel with
  | O => acc
  | S f =>
      let acc' := String (ascii_of_nat (48 + n mod 10)) acc in
      if Nat.ltb n 10 then acc' else dec_aux f (n / 10) acc'
  end.

Definition dec (n : nat) : string := dec_aux (S n) n EmptyString.

(** [obj[key] = v]: an existing key keeps its place. *)
Fixpoint obj_set {A : Type} (o : list (string * A)) (key : string) (v : A) : list (string * A) :=
  match o with
  | [] => [(key, v)]
  | (k, w) :: rest => if String.eqb k key then (k, v) :: rest else (k, w) :: obj_set rest key v
  end.

Record ref_state : Type := { qaRefs : list (string * nat); refCounter : nat }.

(** [getRef(el)]: the first entry of [Object.entries(window.__qaRefs)]
    holding [el], else ['e' + (++refCounter)]. *)
Definition getRef (el : nat) (s : ref_state) : string * ref_state :=
  match find (fun kv => Nat.eqb (snd kv) el) (qaRefs s) with
  | Some (r, _) => (r, s)
  | None =>
      let r := ("e" ++ dec (S (refCounter s)))%string in
      (r, {| qaRefs := obj_set (qaRefs s) r el; refCounter := S (refCounter s) |})
  end.

(** [buildSnapshot]: hidden subtrees are skipped; an element that gets a
    ref is numbered before its children. The result lists the refs in
    the order they appear in the snapshot text. *)
Fixpoint buildSnapshot (n : dom_node) (s : ref_state) : list (nat * string) * ref_state :=
  match n with
  | Node el hidden needsRef children =>
      if hidden then ([], s) else
      let '(mine, s1) :=
        if needsRef then let '(r, s') := getRef el s in ([(el, r)], s') else ([], s) in
      let fix go (cs : list dom_node) (s : ref_state) : list (nat * string) * ref_state :=
        match cs with
        | [] => ([], s)
        | c :: rest =>
            let '(a, s') := buildSnapshot c s in
            let '(b, s'') := go rest s' in (a ++ b, s'')
        end in
      let '(kids, s2) := go children s1 in
      (mine ++ kids, s2)
  end.

(** One [page.evaluate(SNAPSHOT_SCRIPT)]: [refCounter] starts again at 0,
    [window.__qaRefs] is kept. The result is the refs and [refCount]. *)
Definition getAriaSnapshot (body : dom_node) (qa : list (string * nat))
  : (list (nat * string) * nat) * list (string * nat) :=
  let '(refs, s) := buildSnapshot body {| qaRefs := qa; refCounter := 0 |} in
  ((refs, refCounter s), qaRefs s).

(** What [page.evaluateHandle] hands back: an [ElementHandle] when the
    value is a DOM element, a plain [JSHandle] otherwise; either is an
    object, hence truthy. *)
Inductive js_handle : Type :=
| ElementHandle (el : nat)
| ValueHandle.

Definition handle_truthy (h : js_handle) : bool := true.

(** [selectByRef]: [window.__qaRefs?.[ref] || null]. *)
Definition selectByRef (qa : list (string * nat)) (ref : string) : js_handle :=
  match obj_get qa ref with
  | Own el => ElementHandle el
  | Inherited _ | Undefined => ValueHandle
  end.

Inductive click_result : Type :=
| Clicked (el : nat)
| ClickError (msg : string).

(** [clickByRef]; a [JSHandle] that is not an [ElementHandle] has no
    [click] method. *)
Definition clickByRef (qa : list (string * nat)) (ref : string) : click_result :=
  let element := selectByRef qa ref in
  if handle_truthy element then
    match element with
    | ElementHandle el => Clicked el
    | ValueHandle => ClickError "TypeError: element.click is not a function"
    end
  else ClickError ("Element with ref " ++ ref ++ " not found")%string.

(* ------------------------------------------------------------------ *)
(** ** Method resolution, PR review and the library entry point *)

(** The class on the prototype chain of an instance of [c] that
    defines [name], nearest first. *)
Definition resolve_method (c : js_class) (name : string) : option js_class :=
  find (fun k => existsb (String.eqb name) (own_methods k)) (proto_chain c).

(** How [reviewPR] (src/review.js) ends: the fixed report for an empty
    diff, a rejection, or the vendor's [reviewCode] request. *)
Inductive review_outcome : Type :=
| NoChanges
| ReviewRejected (msg : string)
| VendorReview (c : js_class).

(** [reviewPR]: [getDiff] yields the diff text or throws (wrapped as
    "Failed to get diff: ..."); [parseChangedFiles] and [gatherContext]
    catch their own errors and only shape the request. *)
Definition reviewPR (env : env_t) (diff : string + string) : review_outcome :=
  match diff with
  | inl err => ReviewRejected ("Failed to get diff: " ++ err)%string
  | inr d =>
      if String.eqb (trim d) EmptyString then NoChanges
      else
        match getProvider_instance env with
        | Thrown msg => ReviewRejected msg
        | Instance c =>
            match resolve_method c "reviewCode" with
            | Some BaseProvider => ReviewRejected "reviewCode() must be implemented by subclass"
            | Some k => VendorReview k
            | None => ReviewRejected "TypeError: provider.reviewCode is not a function"
            end
        end
  end.

(** The provider [analyzeWithAI] (src/analyze.js) uses: [createProvider]
    when both [options.provider] and [options.apiKey] are truthy, the
    environment otherwise. *)
Definition analyzeWithAI_provider (env : env_t) (providerName apiKey0 : option string) : created :=
  if truthy providerName && truthy apiKey0
  then createProvider (or_str providerName EmptyString) apiKey0
  else getProvider_instance env.

(** The variables the detection in src/providers/openai.js reads, each
    under its plain name and under [INPUT_] + name. *)
Definition PROVIDER_VARS : list string :=
  [ "PROVIDER"; "API_KEY"; "ANTHROPIC_API_KEY"; "OPENAI_API_KEY"; "CODEX_API_KEY";
    "GEMINI_API_KEY"; "OLLAMA_BASE_URL"; "OLLAMA_MODEL" ].

(** The environment seen through [env.NAME || env.INPUT_NAME], stored
    under the [INPUT_] names. *)
Definition input_view (env : env_t) : env_t :=
  flat_map (fun n => match or_opt (env_get env n) (env_get env ("INPUT_" ++ n)) with
                     | Some v => [(("INPUT_" ++ n)%string, v)]
                     | None => []
                     end) PROVIDER_VARS.

(* ------------------------------------------------------------------ *)
(** ** Test-file helpers of src/generate.js *)

(** A model response: [provider.generateTests] gives a string, or an object
    whose [raw] field is a string or missing; [RespNullish] is [null] or
    [undefined]. *)
Inductive llm_response : Type :=
| RespString (s : string)
| RespObject (raw : option string)
| RespNullish.

(** [typeof response === 'string' ? response : response.raw || ''] *)
Definition response_text (r : llm_response) : string :=
  match r with
  | RespString s => s
  | RespObject (Some s) => s
  | RespObject None => EmptyString
  | RespNullish => EmptyString
  end.

(** The value [parseGeneratedFiles] returns: a parsed JSON value, the
    fallback [[{ name: 'generated.spec.ts', content: text }]], or a
    thrown [TypeError]. *)
Inductive gen_files : Type :=
| GenFiles (v : json)
| GenFallback (content : string)
| GenThrows.

(** A number lexeme is zero when its mantissa has no non-zero digit. *)
Fixpoint mantissa_zero (s : string) : bool :=
  match s with
  | EmptyString => true
  | String c t =>
      if Ascii.eqb c "e"%char || Ascii.eqb c "E"%char then true
      else if is_digit c && negb (Ascii.eqb c "0"%char) then false
      else mantissa_zero t
  end.

(** JavaScript truthiness of a parsed JSON value. *)
Definition json_truthy (v : json) : bool :=
  match v with
  | JNull => false
  | JBool b => b
  | JNum l => negb (mantissa_zero l)
  | JStr us => match us with [] => false | _ => true end
  | JArr _ | JObj _ => true
  end.

(** Own property [k] of an object built by [JSON.parse]: the last member
    with that key wins. *)
Definition member_last (k : list Z) (m : list (list Z * json)) : option json :=
  fold_left (fun acc kv => if list_eq_dec Z.eq_dec k (fst kv) then Some (snd kv) else acc)
            m None.

Definition files_key : list Z := [102; 105; 108; 101; 115]%Z.

(** The text after the fence removal of [parseGeneratedFiles] (no trim). *)
Definition generated_text (text : string) : string :=
  if startsWith text fence then strip_close_fence (strip_open_fences text) else text.

(** [parseGeneratedFiles(response)]. For [null] the [try] block throws on
    [response.raw] and so does the [catch] block. [null.files] throws a
    [TypeError] that the [catch] turns into the fallback. *)
Definition parseGeneratedFiles (r : llm_response) : gen_files :=
  match r with
  | RespNullish => GenThrows
  | _ =>
      let text := response_text r in
      match JSON_parse (generated_text text) with
      | inl _ => GenFallback text
      | inr parsed =>
          match parsed with
          | JArr _ => GenFiles parsed
          | JNull => GenFallback text
          | JObj m =>
              match member_last files_key m with
              | Some f => if json_truthy f then GenFiles f else GenFiles (JArr [parsed])
              | None => GenFiles (JArr [parsed])
              end
          | _ => GenFiles (JArr [parsed])
          end
      end
  end.

(** Node's POSIX [path.extname] and [path.basename(p, ext)]. The last path
    segment is what follows the last ['/'] once trailing slashes are
    dropped. *)
Definition is_slash (c : ascii) : bool := Ascii.eqb c "/"%char.
Definition is_dot (c : ascii) : bool := Ascii.eqb c "."%char.

Fixpoint take_while {A} (f : A -> bool) (l : list A) : list A :=
  match l with
  | [] => []
  | x :: r => if f x then x :: take_while f r else []
  end.

Fixpoint drop_while {A} (f : A -> bool) (l : list A) : list A :=
  match l with
  | [] => []
  | x :: r => if f x then drop_while f r else l
  end.

Definition last_segment (p : string) : list ascii :=
  rev (take_while (fun c => negb (is_slash c))
         (drop_while is_slash (rev (list_ascii_of_string p)))).

(** The segment split at its last dot into name and extension. There is
    no extension when the segment has no dot, when the dot is its first
    character, and for the segment [..]. *)
Definition split_ext (seg : list ascii) : list ascii * list ascii :=
  let r := rev seg in
  match drop_while (fun c => negb (is_dot c)) r with
  | [] => (seg, [])
  | _ :: pre_rev =>
      match pre_rev with
      | [] => (seg, [])
      | _ =>
          if list_eq_dec ascii_dec seg ["."; "."]%char then (seg, [])
          else (rev pre_rev, "."%char :: rev (take_while (fun c => negb (is_dot c)) r))
      end
  end.

(** [path.extname(p)] *)
Definition path_extname (p : string) : string :=
  string_of_list_ascii (snd (split_ext (last_segment p))).

(** [path.basename(p, path.extname(p))] *)
Definition basename_noext (p : string) : string :=
  string_of_list_ascii (fst (split_ext (last_segment p))).

(** [getTestFileName(sourcePath, _framework)] *)
Definition getTestFileName (sourcePath : string) : string :=
  let ext := path_extname sourcePath in
  let base := basename_noext sourcePath in
  let testExt :=
    if String.eqb ext ".ts" || String.eqb ext ".tsx" then ".test.ts" else ".test.js" in
  (base ++ testExt)%string.

(** [readSourceFiles(filePath, pattern)] over a file tree. A directory
    entry that is neither a file nor a directory (a symbolic link, a
    socket) is [FsOther]. *)
Inductive fs_entry : Type :=
| FsFile (name : string) (content : string)
| FsDir (name : string) (entries : list fs_entry)
| FsOther (name : string).

Record source_file : Type := {
  relativePath : string;
  content : string;
  ext : string
}.

Definition source_exts : list string := [".js"; ".ts"; ".jsx"; ".tsx"; ".mjs"].
Definition skipDirs : list string :=
  ["node_modules"; ".next"; "dist"; ".git"; "__tests__"; "test"; "tests"].

(** [pattern.replace(/\*/g, '.*')] *)
Fixpoint replace_star (s : string) : string :=
  match s with
  | EmptyString => EmptyString
  | String c t => if Ascii.eqb c "*"%char then (".*" ++ replace_star t)%string
                  else String c (replace_star t)
  end.

Fixpoint concat_map_res {A B E} (f : A -> E + list B) (l : list A) : E + list B :=
  match l with
  | [] => inr []
  | x :: r =>
      match f x with
      | inl e => inl e
      | inr b1 => match concat_map_res f r with
                  | inl e => inl e
                  | inr b2 => inr (b1 ++ b2)
                  end
      end
  end.

Section ReadSourceFiles.

(** [path.resolve], [path.join] and [path.relative(process.cwd(), _)]. *)
Variable resolve : string -> string.
Variable join : string -> string -> string.
Variable relative : string -> string.
(** [new RegExp(src)]: the [SyntaxError] message, or the test of the
    expression against a name. *)
Variable regex_of : string -> string + (string -> bool).

(** The pattern filter of one file name: [inl] when [new RegExp] throws. *)
Definition pattern_filter (pattern : option string) (name : string) : string + bool :=
  match pattern with
  | Some pat =>
      if String.eqb pat EmptyString then inr true
      else match regex_of (replace_star pat) with
           | inl e => inl e
           | inr re => inr (re name)
           end
  | None => inr true
  end.

(** [walk(dir)] for one entry of [dir]. *)
Fixpoint walk_entry (pattern : option string) (dir : string) (e : fs_entry)
  : string + list source_file :=
  match e with
  | FsDir name es =>
      if existsb (String.eqb name) skipDirs then inr []
      else concat_map_res (walk_entry pattern (join dir name)) es
  | FsFile name body =>
      let x := path_extname name in
      if negb (existsb (String.eqb x) source_exts) then inr []
      else if includes name ".test." || includes name ".spec." then inr []
      else match pattern_filter pattern name with
           | inl err => inl err
           | inr false => inr []
           | inr true =>
               if (30000 <? Z.of_nat (String.length body))%Z
                  || (Z.of_nat (String.length body) <? 50)%Z
               then inr []
               else inr [{| relativePath := relative (join dir name);
                            content := body; ext := x |}]
           end
  | FsOther _ => inr []
  end.

(** [readSourceFiles(filePath, pattern)], with [target] what
    [path.resolve(filePath)] names ([None] when it does not exist);
    [inl] is the thrown [SyntaxError]. *)
Definition readSourceFiles (filePath : string) (pattern : option string)
  (target : option fs_entry) : string + list source_file :=
  match target with
  | Some (FsFile _ body) =>
      inr [{| relativePath := filePath; content := body; ext := path_extname filePath |}]
  | Some (FsDir _ es) =>
      match concat_map_res (walk_entry pattern (resolve filePath)) es with
      | inl err => inl err
      | inr srcs => inr (firstn 10 srcs)
      end
  | _ => inr []
  end.

(** [generateTests({ target, pattern, ... })]: the mode is chosen by the
    scheme prefix; [fs_at] gives the tree at a path. *)
Definition generateTests (env : env_t) (target : option string) (pattern : option string)
  (crawl : string + unit) (fs_at : string -> option fs_entry) : gen_outcome :=
  match target with
  | None => GenRejected "Target is required (URL or file path)"
  | Some t =>
      if String.eqb t EmptyString then GenRejected "Target is required (URL or file path)"
      else if startsWith t "http://" || startsWith t "https://"
      then generateE2ETests env crawl
      else match readSourceFiles t pattern (fs_at t) with
           | inl err => GenRejected err
           | inr srcs => generateUnitTests env t (map relativePath srcs)
           end
  end.

End ReadSourceFiles.


(** Characters of a path segment that are neither a slash nor a dot. *)
Definition plain_char (c : ascii) : bool := negb (is_slash c) && negb (is_dot c).

(** What [readSourceFiles] requires of a file found in a directory. *)
Definition source_ok (s : source_file) : Prop :=
  In (ext s) source_exts /\ (50 <= Z.of_nat (String.length (content s)) <= 30000)%Z.

(** A small source tree: a module, its test, a dependency and a stub. *)
Definition sample_body : string :=
  "export function add(a, b) { return a + b; } // sample module".
Definition sample_tree : fs_entry :=
  FsDir "src" [FsFile "add.ts" sample_body; FsFile "add.test.ts" sample_body;
               FsDir "node_modules" [FsFile "dep.js" sample_body]; FsFile "tiny.js" "x"].
Definition id_join (d n : string) : string := (d ++ "/" ++ n)%string.

(* ------------------------------------------------------------------ *)
(** ** The pending-request map of waitForPageReady (scripts/page-utils.js)

    The [request], [response] and [requestfailed] listeners over a
    sequence of browser events.  Requests are identified by a number
    (the Playwright request object); the map keeps insertion order and
    [set] on a present key replaces its value in place. *)

Inductive page_event : Type :=
| PageRequest (id : nat) (url : string) (type : string) (t : Z)
| PageResponse (id : nat)
| PageRequestFailed (id : nat).

Fixpoint map_set {V} (m : list (nat * V)) (k : nat) (v : V) : list (nat * V) :=
  match m with
  | [] => [(k, v)]
  | (k', v') :: r => if Nat.eqb k k' then (k, v) :: r else (k', v') :: map_set r k v
  end.

Definition map_delete {V} (m : list (nat * V)) (k : nat) : list (nat * V) :=
  filter (fun kv => negb (Nat.eqb (fst kv) k)) m.

Section PendingRequests.
Variable URL_parse : string -> option parsed_url.

(** [onRequest], [onResponse] and [onRequestFailed]. *)
Definition pending_step (m : list (nat * pending_req)) (ev : page_event)
  : list (nat * pending_req) :=
  match ev with
  | PageRequest id url type t =>
      if negb (shouldIgnoreRequest URL_parse url)
      then map_set m id {| req_url := url; req_type := type; req_start := t |}
      else m
  | PageResponse id => map_delete m id
  | PageRequestFailed id => map_delete m id
  end.

Definition pending_after (evs : list page_event) : list (nat * pending_req) :=
  fold_left pending_step evs [].

End PendingRequests.

(* ------------------------------------------------------------------ *)
(** ** createNetworkLogger (scripts/page-utils.js)

    The three arrays of the logger over a sequence of events.  The
    [requests] entries are mutable objects: [slowRequests] and the
    failures pushed by [onRequestFailed] hold references to them (an
    index into [requests]); the failures pushed by [onResponse] are
    copies ([{ ...entry, statusText }]).  A field that was never
    assigned is [None]. *)

Record net_entry : Type := {
  e_url : string; e_method : string; e_type : string; e_startTime : Z;
  e_endTime : option Z; e_duration : option Z; e_status : option Z;
  e_failed : bool; e_error : option string
}.

Inductive failure_item : Type :=
| FailureCopy (e : net_entry) (statusText : string)
| FailureRef (i : nat).

Record net_log : Type := {
  log_requests : list net_entry;
  log_failures : list failure_item;
  log_slow : list nat
}.

Inductive net_event : Type :=
| NetRequest (url method type : string) (t : Z)
| NetResponse (url : string) (status : Z) (statusText : string) (t : Z)
| NetRequestFailed (url : string) (errorText : option string) (t : Z).

Definition SLOW_THRESHOLD : Z := 3000.

(** [!r.endTime] *)
Definition end_open (e : net_entry) : bool :=
  match e_endTime e with
  | None => true
  | Some z => Z.eqb z 0
  end.

(** [requests.find((r) => r.url === url && !r.endTime)], as an index. *)
Fixpoint find_open (url : string) (l : list net_entry) : option nat :=
  match l with
  | [] => None
  | e :: r =>
      if String.eqb (e_url e) url && end_open e then Some O
      else option_map S (find_open url r)
  end.

Fixpoint replace_nth {A} (l : list A) (i : nat) (x : A) : list A :=
  match l, i with
  | [], _ => []
  | _ :: r, O => x :: r
  | y :: r, S i' => y :: replace_nth r i' x
  end.

Definition empty_net_log : net_log := {| log_requests := []; log_failures := []; log_slow := [] |}.

Definition default_entry : net_entry :=
  {| e_url := EmptyString; e_method := EmptyString; e_type := EmptyString; e_startTime := 0;
     e_endTime := None; e_duration := None; e_status := None; e_failed := false;
     e_error := None |}.

(** [onRequest], [onResponse] and [onRequestFailed]. *)
Definition net_step (lg : net_log) (ev : net_event) : net_log :=
  match ev with
  | NetRequest url method type t =>
      {| log_requests := log_requests lg ++
           [{| e_url := url; e_method := method; e_type := type; e_startTime := t;
               e_endTime := None; e_duration := None; e_status := None;
               e_failed := false; e_error := None |}];
         log_failures := log_failures lg; log_slow := log_slow lg |}
  | NetResponse url status statusText t =>
      match find_open url (log_requests lg) with
      | None => lg
      | Some i =>
          let e := nth i (log_requests lg) default_entry in
          let d := (t - e_startTime e)%Z in
          let e' := {| e_url := e_url e; e_method := e_method e; e_type := e_type e;
                       e_startTime := e_startTime e; e_endTime := Some t;
                       e_duration := Some d; e_status := Some status;
                       e_failed := e_failed e; e_error := e_error e |} in
          {| log_requests := replace_nth (log_requests lg) i e';
             log_slow := if (SLOW_THRESHOLD <? d)%Z then log_slow lg ++ [i] else log_slow lg;
             log_failures := if (400 <=? status)%Z
                             then log_failures lg ++ [FailureCopy e' statusText]
                             else log_failures lg |}
      end
  | NetRequestFailed url errorText t =>
      match find_open url (log_requests lg) with
      | None => lg
      | Some i =>
          let e := nth i (log_requests lg) default_entry in
          let err := match errorText with
                     | Some s => if String.eqb s EmptyString then "Unknown error" else s
                     | None => "Unknown error"
                     end in
          let e' := {| e_url := e_url e; e_method := e_method e; e_type := e_type e;
                       e_startTime := e_startTime e; e_endTime := Some t;
                       e_duration := Some (t - e_startTime e)%Z; e_status := e_status e;
                       e_failed := true; e_error := Some err |} in
          {| log_requests := replace_nth (log_requests lg) i e';
             log_slow := log_slow lg;
             log_failures := log_failures lg ++ [FailureRef i] |}
      end
  end.

Definition net_run (evs : list net_event) : net_log := fold_left net_step evs empty_net_log.

Record failure_summary : Type := {
  f_url : string; f_method : string; f_status : option Z;
  f_error : option string; f_duration : option Z
}.

Record net_summary : Type := {
  totalRequests : nat;
  failedRequests : nat;
  slowRequests : nat;
  failures : list failure_summary;
  slow : list (string * option Z)
}.

Definition failure_entry (lg : net_log) (f : failure_item) : net_entry :=
  match f with
  | FailureCopy e _ => e
  | FailureRef i => nth i (log_requests lg) default_entry
  end.

(** [getSummary()] *)
Definition getSummary (lg : net_log) : net_summary :=
  {| totalRequests := length (log_requests lg);
     failedRequests := length (log_failures lg);
     slowRequests := length (log_slow lg);
     failures := map (fun f => let e := failure_entry lg f in
                        {| f_url := e_url e; f_method := e_method e; f_status := e_status e;
                           f_error := e_error e; f_duration := e_duration e |})
                     (log_failures lg);
     slow := map (fun i => let e := nth i (log_requests lg) default_entry in
                   (e_url e, e_duration e)) (log_slow lg) |}.

(** Requests still without an end time. *)
Definition open_count (l : list net_entry) : nat := length (filter end_open l).

Definition net_event_time (ev : net_event) : Z :=
  match ev with
  | NetRequest _ _ _ t | NetResponse _ _ _ t | NetRequestFailed _ _ t => t
  end.

Definition is_net_request (ev : net_event) : bool :=
  match ev with NetRequest _ _ _ _ => true | _ => false end.


(** The logger's counting invariant: every failure and every slow
    request is a request that has ended. *)
Definition net_inv (lg : net_log) : Prop :=
  (length (log_failures lg) + open_count (log_requests lg) <= length (log_requests lg))%nat /\
  (length (log_slow lg) + open_count (log_requests lg) <= length (log_requests lg))%nat.

(* ------------------------------------------------------------------ *)
(** ** updateBaseline (visual regression)

    [fs.copyFileSync(src, dest)] gives [dest] the content of [src],
    replacing the entry of that name or adding it. *)

(** The content of the entry [f] of a directory listing. *)
Definition entry_of (dir : directory) (f : string) : option (option png_image) :=
  match find (fun e => String.eqb (fst e) f) dir with
  | Some (_, v) => Some v
  | None => None
  end.

Definition dir_put (dir : directory) (f : string) (v : option png_image) : directory :=
  if existsIn dir f
  then map (fun e => if String.eqb (fst e) f then (f, v) else e) dir
  else dir ++ [(f, v)].

Record update_summary : Type := { copied : nat; skipped : nat; update_total : nat }.

(** The [forEach] over the PNG names of the current run. *)
Fixpoint update_loop (current : directory) (overwrite : bool) (files : list string)
    (baseline : directory) (copied0 skipped0 : nat) : directory * nat * nat :=
  match files with
  | [] => (baseline, copied0, skipped0)
  | file :: rest =>
      if negb overwrite && existsIn baseline file
      then update_loop current overwrite rest baseline copied0 (S skipped0)
      else
        let v := match entry_of current file with Some v => v | None => None end in
        update_loop current overwrite rest (dir_put baseline file v) (S copied0) skipped0
  end.

(** [updateBaseline(currentDir, baselineDir, { overwrite })]: the current
    directory is [None] when it does not exist ([readdirSync] throws); a
    missing baseline directory is created empty. *)
Definition updateBaseline (current : option directory) (baseline : directory)
    (overwrite : bool) : option (directory * update_summary) :=
  match current with
  | None => None
  | Some cur =>
      let currentFiles := png_names cur in
      let '(baseline', c, s) := update_loop cur overwrite currentFiles baseline 0 0 in
      Some (baseline', {| copied := c; skipped := s; update_total := length currentFiles |})
  end.


(* ------------------------------------------------------------------ *)
(** ** The [main] command (src/index.js) *)

Record main_config : Type := {
  m_url : string; m_viewports : list string; m_focus : string; m_outputFormat : string
}.

Definition is_comma (c : ascii) : bool := Ascii.eqb c ","%char.

(** [viewportsRaw.split(',').map((v) => v.trim().toLowerCase())] *)
Definition parse_viewports (viewportsRaw : string) : list string :=
  map (fun v => toLowerCase (trim v)) (split_chars is_comma viewportsRaw).

(** The configuration read by [main] before any capture; [None] is the
    [process.exit(1)] when no URL is set. *)
Definition main_config_of (env : env_t) : option main_config :=
  let url := or_opt (env_get env "URL") (env_get env "INPUT_URL") in
  let viewportsRaw := or_str (or_opt (env_get env "VIEWPORTS") (env_get env "INPUT_VIEWPORTS"))
                             "desktop,mobile" in
  let focus := or_str (or_opt (env_get env "FOCUS") (env_get env "INPUT_FOCUS")) "all" in
  let outputFormat := or_str (or_opt (env_get env "OUTPUT_FORMAT") (env_get env "INPUT_OUTPUT_FORMAT"))
                             "markdown" in
  if truthy url then
    Some {| m_url := or_str url EmptyString; m_viewports := parse_viewports viewportsRaw;
            m_focus := focus; m_outputFormat := outputFormat |}
  else None.

(** The report files [main] writes for an output format. *)
Definition saved_reports (outputFormat : string) : list string :=
  (if String.eqb outputFormat "json" || String.eqb outputFormat "all"
   then ["qa-report.json"] else [])
  ++ (if String.eqb outputFormat "markdown" || String.eqb outputFormat "all"
      then ["qa-report.md"] else []).

(** The [report=...] line written to [GITHUB_OUTPUT]. *)
Definition report_output_file (outputFormat : string) : string :=
  "qa-report." ++ (if String.eqb outputFormat "json" then "json" else "md").

Fixpoint count_chars (p : ascii -> bool) (s : string) : nat :=
  match s with
  | EmptyString => 0
  | String c t => (if p c then 1 else 0) + count_chars p t
  end.

(** The string does not start with white space. *)
Definition starts_ok (s : string) : Prop :=
  match s with String c _ => is_js_space c = false | EmptyString => True end.


(* ------------------------------------------------------------------ *)
(** ** Argument parsing of [runReview] (src/index.js) and the diff
    source of [getDiff] *)

(** [options] of [runReview]; [opt_pr] keeps the digit string whose
    [parseInt] was stored. *)
Record review_options : Type := {
  opt_base : option string; opt_focus : option string; opt_json : bool; opt_pr : option string
}.

Definition no_review_options : review_options :=
  {| opt_base := None; opt_focus := None; opt_json := false; opt_pr := None |}.

(** [/^\d+$/.test(a)] *)
Definition all_digits (a : string) : bool :=
  negb (String.eqb a EmptyString) && forallb is_digit (list_ascii_of_string a).

(** The branches of the loop body that read one argument only:
    [--json], a number, or nothing. *)
Definition single_arg (a : string) (o : review_options) : review_options :=
  if String.eqb a "--json" then
    {| opt_base := opt_base o; opt_focus := opt_focus o; opt_json := true; opt_pr := opt_pr o |}
  else if all_digits a then
    {| opt_base := opt_base o; opt_focus := opt_focus o; opt_json := opt_json o; opt_pr := Some a |}
  else o.

(** The [for] loop over [args]: [--base] and [--focus] followed by a
    truthy argument consume it ([args[++i]]). *)
Fixpoint parse_review_args (args : list string) (o : review_options) : review_options :=
  match args with
  | [] => o
  | a :: rest =>
      match rest with
      | b :: r =>
          if String.eqb a "--base" && negb (String.eqb b EmptyString) then
            parse_review_args r
              {| opt_base := Some b; opt_focus := opt_focus o; opt_json := opt_json o; opt_pr := opt_pr o |}
          else if String.eqb a "--focus" && negb (String.eqb b EmptyString) then
            parse_review_args r
              {| opt_base := opt_base o; opt_focus := Some b; opt_json := opt_json o; opt_pr := opt_pr o |}
          else parse_review_args rest (single_arg a o)
      | [] => parse_review_args rest (single_arg a o)
      end
  end.

Definition runReview_options (args : list string) : review_options :=
  parse_review_args args no_review_options.

(** [parseInt] of a digit string is truthy unless every digit is 0. *)
Definition pr_truthy (digits : string) : bool :=
  existsb (fun c => negb (Ascii.eqb c "0"%char)) (list_ascii_of_string digits).

(** The command [getDiff] runs: [gh pr diff] for a truthy [pr], else
    [git diff <base>...HEAD] with [base] defaulting to main. *)
Inductive diff_source : Type :=
| DiffOfPR (pr : string)
| DiffOfBranch (base : string).

Definition getDiff_source (o : review_options) : diff_source :=
  let base := match opt_base o with Some b => b | None => "main" end in
  match opt_pr o with
  | Some pr => if pr_truthy pr then DiffOfPR pr else DiffOfBranch base
  | None => DiffOfBranch base
  end.

(** The last argument that is a number. *)
Definition last_number_arg (args : list string) : option string :=
  fold_left (fun acc a => if all_digits a then Some a else acc) args None.

(* ------------------------------------------------------------------ *)
(** ** [parseChangedFiles] (review.js) *)

(** Line terminators among code units 0..255 ([^] and [.] of a regex). *)
Definition is_line_term (c : ascii) : bool :=
  Ascii.eqb c "010"%char || Ascii.eqb c "013"%char.

Definition diff_sep : string := "diff --git ".

(** [s.split(/^diff --git /m)] for the rest [s] of the input, with
    [line_start] telling whether the previous code unit ended a line
    (or [s] is the whole input) and [skip] the code units of a match
    still to pass over. *)
Fixpoint split_file_diffs (s : string) (line_start : bool) (skip : nat) : list string :=
  match s with
  | EmptyString => [EmptyString]
  | String c t =>
      match skip with
      | S k => split_file_diffs t false k
      | O =>
          if line_start && String.prefix diff_sep s then
            EmptyString :: split_file_diffs t false (String.length diff_sep - 1)
          else
            match split_file_diffs t (is_line_term c) 0 with
            | p :: ps => String c p :: ps
            | [] => [String c EmptyString]
            end
      end
  end.

(** [diff.split(/^diff --git /m).filter(Boolean)] *)
Definition file_diffs (diff : string) : list string :=
  filter (fun p => negb (String.eqb p EmptyString)) (split_file_diffs diff true 0).

(** The rest of the line: [.*] at a position. *)
Fixpoint take_line (s : string) : string :=
  match s with
  | EmptyString => EmptyString
  | String c t => if is_line_term c then EmptyString else String c (take_line t)
  end.

(** [ b\/(.+)] at a position: the second group. *)
Definition path_after_b (s : string) : option string :=
  match s with
  | String c1 (String c2 (String c3 (String c r))) =>
      if Ascii.eqb c1 " "%char && Ascii.eqb c2 "b"%char && Ascii.eqb c3 "/"%char
         && negb (is_line_term c)
      then Some (take_line (String c r)) else None
  | _ => None
  end.

(** [(.+?) b\/(.+)] after [a/]: the lazy group grows one code unit at a
    time (never over a line terminator) until the rest matches;
    [nonempty] tells whether it already holds one code unit. *)
Fixpoint lazy_path (s : string) (nonempty : bool) : option string :=
  match s with
  | EmptyString => None
  | String c t =>
      match (if nonempty then path_after_b s else None) with
      | Some g => Some g
      | None => if is_line_term c then None else lazy_path t true
      end
  end.

(** [fileDiff.match(/a\/(.+?) b\/(.+)/)[2]]: the leftmost start that matches. *)
Fixpoint header_path (s : string) : option string :=
  match s with
  | EmptyString => None
  | String c t =>
      match (if Ascii.eqb c "a"%char then
               match t with
               | String d u => if Ascii.eqb d "/"%char then lazy_path u false else None
               | EmptyString => None
               end
             else None) with
      | Some g => Some g
      | None => header_path t
      end
  end.

(** A hunk; the start lines keep the digit strings given to [parseInt]. *)
Record hunk : Type := { oldStart : string; newStart : string; hunk_header : string }.

Fixpoint drop_str (n : nat) (s : string) : string :=
  match n, s with
  | O, _ => s
  | S k, String _ t => drop_str k t
  | S _, EmptyString => EmptyString
  end.

(** [(?:,\d+)?] *)
Definition skip_count (s : string) : string :=
  match s with
  | String c t =>
      if Ascii.eqb c ","%char then
        let (ds, r) := take_digits t in
        if String.eqb ds EmptyString then s else r
      else s
  | EmptyString => s
  end.

(** The hunk regex on one line: [^@@ -(\d+)(?:,\d+)? \+(\d+)(?:,\d+)? @@]
    and then the rest of the line, trimmed, as the third group. *)
Definition hunk_of_line (ln : string) : option hunk :=
  if String.prefix "@@ -" ln then
    let (d1, r1) := take_digits (drop_str 4 ln) in
    if String.eqb d1 EmptyString then None else
    let r2 := skip_count r1 in
    if String.prefix " +" r2 then
      let (d2, r3) := take_digits (drop_str 2 r2) in
      if String.eqb d2 EmptyString then None else
      let r4 := skip_count r3 in
      if String.prefix " @@" r4 then
        Some {| oldStart := d1; newStart := d2; hunk_header := trim (drop_str 3 r4) |}
      else None
    else None
  else None.

(** The [exec] loop of the global, multiline hunk regex: one try per line. *)
Definition hunks_of (fileDiff : string) : list hunk :=
  flat_map (fun ln => match hunk_of_line ln with Some h => [h] | None => [] end)
           (split_chars is_line_term fileDiff).

Definition is_nl (c : ascii) : bool := Ascii.eqb c "010"%char.

Definition count_lines (p : string -> bool) (fileDiff : string) : nat :=
  length (filter p (split_chars is_nl fileDiff)).

Definition is_addition (l : string) : bool := String.prefix "+" l && negb (String.prefix "+++" l).
Definition is_deletion (l : string) : bool := String.prefix "-" l && negb (String.prefix "---" l).

Record changed_file : Type := {
  cf_path : string; isNew : bool; isDeleted : bool; cf_hunks : list hunk;
  additions : nat; deletions : nat; cf_diff : string
}.

(** The loop body for one piece: [continue] without a header match,
    else one entry. *)
Definition changed_file_of (fileDiff : string) : list changed_file :=
  match header_path fileDiff with
  | Some filePath =>
      [{| cf_path := filePath;
          isNew := includes fileDiff "new file mode";
          isDeleted := includes fileDiff "deleted file mode";
          cf_hunks := hunks_of fileDiff;
          additions := count_lines is_addition fileDiff;
          deletions := count_lines is_deletion fileDiff;
          cf_diff := fileDiff |}]
  | None => []
  end.

Definition parseChangedFiles (diff : string) : list changed_file :=
  flat_map changed_file_of (file_diffs diff).

(** The text of one file's diff in git's form, for paths without spaces. *)
Definition git_file_diff (path body : string) : string :=
  diff_sep ++ "a/" ++ path ++ " b/" ++ path ++ String "010"%char body.

Fixpoint render_diff (files : list (string * string)) : string :=
  match files with
  | [] => EmptyString
  | (p, body) :: rest => git_file_diff p body ++ render_diff rest
  end.

Definition no_char (p : ascii -> bool) (s : string) : bool :=
  forallb (fun c => negb (p c)) (list_ascii_of_string s).

(** The string is empty or ends with a line terminator. *)
Fixpoint ends_line (s : string) : bool :=
  match s with
  | EmptyString => true
  | String c EmptyString => is_line_term c
  | String _ t => ends_line t
  end.

(** [ps] with [h] put before its first piece. *)
Definition prepend_first (h : string) (ps : list string) : list string :=
  match ps with
  | p :: ps' => (h ++ p)%string :: ps'
  | [] => [h]
  end.

(** The text of one file's diff after the split. *)
Definition git_file_text (path body : string) : string :=
  "a/" ++ path ++ " b/" ++ path ++ String "010"%char body.

Definition path_char_bad (c : ascii) : bool := is_line_term c || Ascii.eqb c " "%char.

(** The string is empty or starts with a non-digit. *)
Definition starts_non_digit (r : string) : Prop :=
  match r with String x _ => is_digit x = false | EmptyString => True end.


(** ** The benchmark runner's [main] (benchmarks/run.js) *)

(** How [provider.reviewCode] ends for one case: it throws (with
    [err.message], absent when the thrown value has none) or it
    returns a review ([None] for [null] or [undefined]). *)
Inductive review_call : Type :=
| ReviewThrows (message : option string)
| ReviewReturns (rv : option review).

Record bench_case : Type := {
  case_name : string; expectedIssues : list expected_issue; case_call : review_call
}.

Record bench_summary : Type := { b_total : nat; b_detected : nat; b_totalFP : Z }.

(** [main] ends with [process.exit(1)] after a failed provider set-up,
    rejects (the final [catch]) or writes the report. *)
Inductive bench_outcome : Type :=
| BenchInitFailed (msg : string)
| BenchCrashed
| BenchReport (summary : bench_summary).

(** [args[args.indexOf('--provider') + 1]] when the flag is present. *)
Fixpoint provider_arg (args : list string) : option string :=
  match args with
  | [] => None
  | a :: rest =>
      if String.eqb a "--provider" then
        match rest with b :: _ => Some b | [] => None end
      else provider_arg rest
  end.

(** [getProvider(providerName)]: the [getProvider] of src/providers
    declares no parameter, so the argument is dropped. *)
Definition bench_getProvider (env : env_t) (providerName : option string) : created :=
  getProvider_instance env.

(** The [for] loop over the dataset with its [detected] and [totalFP]
    counters ([ndetected] is the source's [detected]); [None] when an iteration throws: with a falsy [error] the
    loop goes on to [review.issues] on a nullish review. *)
Fixpoint bench_loop (cases : list bench_case) (ndetected : nat) (totalFP : Z) : option (nat * Z) :=
  match cases with
  | [] => Some (ndetected, totalFP)
  | tc :: rest =>
      match case_call tc with
      | ReviewThrows message =>
          if truthy message then bench_loop rest ndetected totalFP else None
      | ReviewReturns None => None
      | ReviewReturns (Some r) =>
          let score := scoreResult (Some r) (expectedIssues tc) in
          bench_loop rest (if detected score then S ndetected else ndetected)
                     (totalFP + falsePositives score)%Z
      end
  end.

Definition bench_main (env : env_t) (args : list string) (dataset : list bench_case) : bench_outcome :=
  match bench_getProvider env (provider_arg args) with
  | Thrown msg => BenchInitFailed msg
  | Instance _ =>
      match bench_loop dataset 0 0 with
      | None => BenchCrashed
      | Some (d, fp) => BenchReport {| b_total := length dataset; b_detected := d; b_totalFP := fp |}
      end
  end.

(** A case whose run reaches [review.issues] with a nullish review. *)
Definition nullish_call (c : review_call) : bool :=
  match c with
  | ReviewThrows message => negb (truthy message)
  | ReviewReturns None => true
  | ReviewReturns (Some _) => false
  end.

(** The review a case returned, when it returned one. *)
Definition returned_review (c : review_call) : option review :=
  match c with ReviewReturns (Some r) => Some r | _ => None end.

Definition case_detected (tc : bench_case) : bool :=
  match returned_review (case_call tc) with
  | Some r => detected (scoreResult (Some r) (expectedIssues tc))
  | None => false
  end.

Definition case_fp (tc : bench_case) : Z :=
  match returned_review (case_call tc) with
  | Some r => falsePositives (scoreResult (Some r) (expectedIssues tc))
  | None => 0%Z
  end.

Definition sample_bench_crash : list bench_case :=
  [{| case_name := "sql"; expectedIssues := []; case_call := ReviewReturns (Some {| issues := IssuesArray [] |}) |};
   {| case_name := "xss"; expectedIssues := []; case_call := ReviewThrows (Some EmptyString) |}].

Definition sample_bench_report : list bench_case :=
  [{| case_name := "sql"; expectedIssues := []; case_call := ReviewReturns (Some {| issues := IssuesArray [] |}) |};
   {| case_name := "xss"; expectedIssues := []; case_call := ReviewThrows (Some "timeout") |}].


(* ------------------------------------------------------------------ *)
(** ** Sample inputs *)

(** A session where one image request, started at time 0, never
    completes and nothing else is pending. *)
Definition hero_image : pending_req :=
  {| req_url := "https://cdn.example.com/hero.png"; req_type := "image"; req_start := 0 |}.

Definition sql_expected : string := "SQL injection via unsanitized query parameter".

Definition sql_issue_by_message : issue :=
  {| description := None; message := Some "SQL injection in the query builder";
     category := Some "style"; severity := Some "low" |}.

Definition sql_expected_issue : expected_issue :=
  {| exp_description := sql_expected; exp_category := Some "security";
     exp_severity := Some "critical" |}.

Definition counts_as_passed (st : file_status) : bool :=
  match st with Warning | Passed => true | _ => false end.

(** What the claim says of each status, in terms of the directory
    listings, the decoded images and the pixel comparison. *)
Definition status_spec pm (baseline current : directory) (threshold failThreshold : Q)
    (f : string) (st : file_status) : Prop :=
  match st with
  | New => existsIn baseline f = false
  | Missing => existsIn baseline f = true /\ existsIn current f = false
  | _ =>
      existsIn baseline f = true /\ existsIn current f = true /\
      exists b c, readPng baseline f = Some b /\ readPng current f = Some c /\
      match st with
      | Failed =>
          (png_width b <> png_width c \/ png_height b <> png_height c) \/
          (png_width b = png_width c /\ png_height b = png_height c /\
           exists dp pct, compareImages pm b c threshold = Compared dp pct /\
                          pct_gt pct failThreshold = true)
      | Warning =>
          png_width b = png_width c /\ png_height b = png_height c /\
          exists pct, compareImages pm b c threshold = Compared (pm b c threshold) pct /\
            pct_gt pct failThreshold = false /\ (0 < pm b c threshold)%Z
      | _ =>
          png_width b = png_width c /\ png_height b = png_height c /\
          exists pct, compareImages pm b c threshold = Compared (pm b c threshold) pct /\
            pct_gt pct failThreshold = false /\ (pm b c threshold <= 0)%Z
      end
  end.

Definition sample_image : png_image := {| png_width := 2; png_height := 2; png_data := [] |}.

Definition sample_baseline : directory :=
  [("a.png", Some sample_image); ("b.png", Some sample_image); ("notes.txt", None)].

Definition sample_current : directory :=
  [("a.png", Some sample_image); ("c.png", Some sample_image)].

Definition no_diff (_ _ : png_image) (_ : Q) : Z := 0.

Definition input_only (env : env_t) : env_t :=
  filter (fun kv => startsWith (fst kv) "INPUT_") env.

Definition plain_anthropic_env : env_t := [("ANTHROPIC_API_KEY", "sk-ant-test")].

(** A page whose body holds one button (element 1), and the same page
    after a second button (element 2) was appended. *)
Definition page_one : dom_node := Node 0 false false [Node 1 false true []].
Definition page_two : dom_node :=
  Node 0 false false [Node 1 false true []; Node 2 false true []].

(** An environment with only the action input of the Anthropic key. *)
Definition anthropic_input_env : env_t := [("INPUT_ANTHROPIC_API_KEY", "sk-ant-test")].

(* ================================================================== *)
(** * Theorems *)

Example json_parse_example :
  JSON_parse (js "{'a': [1, -2.5e3, true, null], 'b':'xA'}") =
  inr (JObj [([97%Z], JArr [JNum "1"; JNum "-2.5e3"; JBool true; JNull]);
             ([98%Z], JStr [120%Z; 65%Z])]).
Proof. vm_compute. reflexivity. Qed.

Example parse_json_fenced (syntax_error_message : string -> string) :
  parseResponse syntax_error_message (js "```json~{'score': 90}~```") = Parsed (JObj [([115;99;111;114;101]%Z, JNum "90")]).
Proof. vm_compute. reflexivity. Qed.

(** Every string whose text fails [JSON.parse] after the fence handling
    gives the fallback report: the input kept verbatim, the message of
    the [SyntaxError] thrown on the text after the fence handling, and no
    exception. *)
Lemma parseResponse_fallback (syntax_error_message : string -> string)
    (response : string) (e : json_error) :
  JSON_parse (parseResponse_input response) = inl e ->
  parseResponse syntax_error_message response =
    Fallback {| summary := "Failed to parse LLM response"; bugs := []; score := None;
                recommendations := []; raw_response := response;
                parse_error := syntax_error_message (parseResponse_input response) |}.
Proof.
  unfold parseResponse, parseResponse_input. intros H. rewrite H. reflexivity.
Qed.

Lemma parseResponse_fallback_witness :
  JSON_parse (parseResponse_input "not json") = inl (UnexpectedToken "o"%char) /\
  parseResponse (fun text => ("Unexpected token in " ++ text)%string) "not json" =
    Fallback {| summary := "Failed to parse LLM response"; bugs := []; score := None;
                recommendations := []; raw_response := "not json";
                parse_error := "Unexpected token in not json" |}.
Proof.
  split; [vm_compute; reflexivity|].
  apply (parseResponse_fallback (fun text => ("Unexpected token in " ++ text)%string) "not json"
           (UnexpectedToken "o"%char)).
  vm_compute. reflexivity.
Defined.

(** C1 (code_bug).  The fence handling does not remove just a leading
    and trailing code-block wrapper.  A bare fence (three backticks and a
    newline, no language tag) is not matched by [/```json?\n?/g], since
    that regex needs [jso] after the backticks, so a fenced JSON object
    gets the fallback report: [JSON.parse] receives the text with its
    opening fence still in place and fails on the first backtick.  And a
    fence inside the JSON text is removed as well: the regex is global.
    Both hold whatever the engine's [SyntaxError] message is. *)
Theorem parseResponse_fence_stripping_slip :
  JSON_parse (js "{'summary':'ok'}") = inr (JObj [([115;117;109;109;97;114;121]%Z, JStr [111;107]%Z)])
  /\ parseResponse_input (js "```~{'summary':'ok'}~```") = js "```~{'summary':'ok'}~"
  /\ JSON_parse (js "```~{'summary':'ok'}~") = inl (UnexpectedToken "`"%char)
  /\ (forall syntax_error_message : string -> string,
        parseResponse syntax_error_message (js "```~{'summary':'ok'}~```") =
          Fallback {| summary := "Failed to parse LLM response"; bugs := []; score := None;
                      recommendations := []; raw_response := js "```~{'summary':'ok'}~```";
                      parse_error := syntax_error_message (js "```~{'summary':'ok'}~") |})
  /\ (forall syntax_error_message : string -> string,
        parseResponse syntax_error_message (js "```json~{'n':'a```json b'}~```") =
          Parsed (JObj [([110]%Z, JStr [97; 32; 98]%Z)])).
Proof.
  split; [vm_compute; reflexivity|]. split; [vm_compute; reflexivity|].
  split; [vm_compute; reflexivity|]. split; intros msg; vm_compute; reflexivity.
Qed.

(** C3.  [shouldIgnoreRequest] is true exactly for inputs the URL
    constructor rejects, [data:] URLs, inputs longer than 2000 characters,
    and URLs whose host contains an entry of the block-list; false for
    everything else; it returns a boolean for every input. *)
Theorem shouldIgnoreRequest_spec (URL_parse : string -> option parsed_url) (url : string) :
  shouldIgnoreRequest URL_parse url = true <->
  URL_parse url = None \/
  (exists parsed, URL_parse url = Some parsed /\
     (protocol parsed = "data:" \/ (2000 < String.length url)%nat \/
      exists domain, In domain IGNORED_DOMAINS /\ includes (hostname parsed) domain = true)).
Proof.
  unfold shouldIgnoreRequest. destruct (URL_parse url) as [parsed|] eqn:E.
  - split.
    + intros H. right. exists parsed. split; [reflexivity|].
      destruct (String.eqb_spec (protocol parsed) "data:"); [left; assumption|].
      destruct (Nat.ltb_spec 2000 (String.length url)); [right; left; assumption|].
      right; right. apply existsb_exists in H. exact H.
    + intros [H|[p [Hp H]]]; [discriminate|]. injection Hp as <-.
      destruct (String.eqb_spec (protocol parsed) "data:"); [reflexivity|].
      destruct (Nat.ltb_spec 2000 (String.length url)); [reflexivity|].
      destruct H as [H|[H|H]]; [contradiction|lia|]. apply existsb_exists. exact H.
  - split; [left; reflexivity|reflexivity].
Qed.

Lemma prefix_nil (s : string) : String.prefix EmptyString s = true.
Proof. destruct s; reflexivity. Qed.

Lemma prefix_trans (a b c : string) :
  String.prefix a b = true -> String.prefix b c = true -> String.prefix a c = true.
Proof.
  revert b c. induction a as [|x a IH]; intros b c Hab Hbc; [apply prefix_nil|].
  destruct b as [|y b]; [discriminate|]. destruct c as [|z c]; [discriminate|].
  simpl in *. destruct (ascii_dec x y) as [<-|]; [|discriminate].
  destruct (ascii_dec x z) as [<-|]; [|discriminate]. eauto.
Qed.

Lemma includes_cons (c : ascii) (t x : string) :
  includes (String c t) x = String.prefix x (String c t) || includes t x.
Proof. reflexivity. Qed.

Lemma prefix_includes (d h x : string) :
  String.prefix d h = true -> includes d x = true -> includes h x = true.
Proof.
  revert h. induction d as [|c d IH]; intros h Hp Hi.
  - simpl in Hi. rewrite orb_false_r in Hi. destruct x; [|discriminate].
    destruct h; reflexivity.
  - rewrite includes_cons in Hi. apply orb_true_iff in Hi as [Hi|Hi].
    + destruct h as [|c' h]; [discriminate|]. rewrite includes_cons.
      rewrite (prefix_trans _ _ _ Hi Hp). reflexivity.
    + destruct h as [|c' h]; [discriminate|]. simpl in Hp.
      destruct (ascii_dec c c'); [|discriminate].
      rewrite includes_cons, (IH h Hp Hi). apply orb_true_r.
Qed.

Lemma includes_trans (h d x : string) :
  includes h d = true -> includes d x = true -> includes h x = true.
Proof.
  induction h as [|c h IH]; intros Hd Hx.
  - apply (prefix_includes d EmptyString x); [|exact Hx].
    simpl in Hd. rewrite orb_false_r in Hd. exact Hd.
  - rewrite includes_cons in Hd. apply orb_true_iff in Hd as [Hd|Hd].
    + exact (prefix_includes _ _ _ Hd Hx).
    + rewrite includes_cons, (IH Hd Hx). apply orb_true_r.
Qed.

(** A host name never contains a slash, so the path-bearing entries
    [facebook.com/tr] and [bing.com/bat] never match one. *)
Lemma slash_entries_never_match (host : string) :
  includes host "/" = false ->
  includes host "facebook.com/tr" = false /\ includes host "bing.com/bat" = false.
Proof.
  intros H. split.
  - destruct (includes host "facebook.com/tr") eqn:E; [|reflexivity].
    assert (includes host "/" = true) by (apply (includes_trans host "facebook.com/tr"); [exact E|reflexivity]).
    congruence.
  - destruct (includes host "bing.com/bat") eqn:E; [|reflexivity].
    assert (includes host "/" = true) by (apply (includes_trans host "bing.com/bat"); [exact E|reflexivity]).
    congruence.
Qed.

Example shouldIgnoreRequest_examples :
  shouldIgnoreRequest sample_URL_parse "https://www.google-analytics.com/collect" = true /\
  shouldIgnoreRequest sample_URL_parse "https://api.myapp.com/v1/orders" = false /\
  shouldIgnoreRequest sample_URL_parse "not a url" = true /\
  shouldIgnoreRequest sample_URL_parse "data:image/png;base64,AAAA" = true.
Proof. vm_compute. repeat split. Qed.

(** C2 (code_bug).  The loop stops waiting for the non-critical image
    once it has been outstanding for [nonCriticalTimeout] and the idle
    period has passed (clock 3500, well before the 30000 ms timeout), but
    [ready] is computed from all pending requests, so the result is
    [ready: false] with the image listed. *)
Theorem waitForPageReady_image_not_ready :
  waitForPageReady default_ready_options (fun _ => [hero_image]) 0 0 =
    {| ready := false; pendingRequests := ["https://cdn.example.com/hero.png"]; loadTime := 3500 |}.
Proof. vm_compute. reflexivity. Qed.

(** A script request that is pending whenever the clock is read keeps
    [ready] false, whatever the options. *)
Lemma waitForPageReady_script_blocks (o : ready_options) (pending_at : Z -> list pending_req)
    (startTime domLoaded : Z) (script : pending_req) :
  req_type script = "script" ->
  (forall t, In script (pending_at t)) ->
  ready (waitForPageReady o pending_at startTime domLoaded) = false.
Proof.
  intros _ Hin. unfold waitForPageReady, ready_after. cbn [ready].
  match goal with |- match map req_url (pending_at ?f) with _ => _ end = _ =>
    specialize (Hin f); destruct (pending_at f) end.
  - contradiction.
  - reflexivity.
Qed.

(** C10.  With no expected issues, [scoreResult] reports the case as
    detected exactly when the response carries an issues array (even an
    empty one), counting every reported issue as a false positive;
    otherwise it reports not detected with no false positives. *)
Theorem scoreResult_no_expected (rv : option review) :
  scoreResult rv [] =
    match issues_array rv with
    | Some l => {| detected := true; falsePositives := Z.of_nat (length l) |}
    | None => {| detected := false; falsePositives := 0 |}
    end.
Proof.
  destruct rv as [[f]|]; [destruct f|]; cbn; try reflexivity.
  f_equal. lia.
Qed.

(** C4 counterexample.  The example description yields 4 tokens, not 5:
    [sql] and [via] have only 3 characters.  And an issue whose
    description is absent is matched through its [message], although its
    description text is empty and its category does not match. *)
Lemma matchDescription_sql_counterexample :
  keywords sql_expected = ["injection"; "unsanitized"; "query"; "parameter"] /\
  length (keywords sql_expected) <> 5%nat /\
  matchDescription (or_str (description sql_issue_by_message) EmptyString) sql_expected = false /\
  includes (toLowerCase "style") (toLowerCase "security") = false /\
  issue_matches sql_issue_by_message sql_expected_issue = true.
Proof. vm_compute. repeat split; discriminate. Qed.

(** C4 (as amended).  A candidate matches an expected entry iff the fuzzy
    match holds on its description text (description, else message, else
    empty) or both the category and severity conditions hold (each one
    vacuous when the expected entry lacks that field); the fuzzy match
    needs at least ceil(40%) of the expected description's lowercase
    words longer than 3 characters as substrings of the candidate's
    lowercase text; the SQL example yields 4 tokens and threshold 2, and
    a case with one expected entry is detected iff some issue matches it. *)
Theorem issue_matches_spec :
  (forall (i : issue) (exp : expected_issue),
     issue_matches i exp = true <->
     (ceil_two_fifths (length (keywords (exp_description exp)))
        <= length (filter (fun kw => includes (toLowerCase (issue_text i)) kw)
                          (keywords (exp_description exp))))%nat
     \/ (field_match (exp_category exp) (category i) = true /\
         field_match (exp_severity exp) (severity i) = true)) /\
  (keywords (exp_description sql_expected_issue) = ["injection"; "unsanitized"; "query"; "parameter"] /\
   ceil_two_fifths (length (keywords (exp_description sql_expected_issue))) = 2%nat) /\
  (forall (l : list issue) (exp : expected_issue),
     detected (scoreResult (Some {| issues := IssuesArray l |}) [exp]) = true <->
     exists i, In i l /\ issue_matches i exp = true).
Proof.
  split; [|split].
  - intros i exp. unfold issue_matches, matchDescription.
    rewrite orb_true_iff, andb_true_iff, Nat.leb_le. reflexivity.
  - vm_compute. split; reflexivity.
  - intros l exp. cbn [scoreResult issues detected forallb].
    rewrite andb_true_r, existsb_exists. reflexivity.
Qed.

(** *** Visual regression *)

Lemma set_add_all_In (acc l : list string) (x : string) :
  In x (set_add_all acc l) <-> In x acc \/ In x l.
Proof.
  revert acc. induction l as [|a l IH]; intros acc; cbn [set_add_all].
  - simpl. tauto.
  - rewrite IH. destruct (existsb (String.eqb a) acc) eqn:E.
    + apply existsb_exists in E as [y [Hy Hay]]. apply String.eqb_eq in Hay. subst y.
      simpl. split; [tauto|]. intros [H|[<-|H]]; tauto.
    + rewrite in_app_iff. simpl. tauto.
Qed.

Lemma set_add_all_NoDup (acc l : list string) :
  NoDup acc -> NoDup (set_add_all acc l).
Proof.
  revert acc. induction l as [|a l IH]; intros acc Hacc; cbn [set_add_all]; [exact Hacc|].
  apply IH. destruct (existsb (String.eqb a) acc) eqn:E; [exact Hacc|].
  apply NoDup_app; [exact Hacc| constructor; [intros []|constructor] |].
  intros x Hx [Hax|[]]. subst x. assert (existsb (String.eqb a) acc = true) as H.
  { apply existsb_exists. exists a. split; [exact Hx|apply String.eqb_refl]. }
  congruence.
Qed.

Lemma compare_loop_spec pm baseline current threshold failThreshold files c results c' :
  compare_loop pm baseline current threshold failThreshold files c = Some (results, c') ->
  map fst results = files /\
  (forall f st, In (f, st) results ->
     compare_file pm baseline current threshold failThreshold f = Some st) /\
  c_passed c' = (c_passed c + length (filter (fun p => counts_as_passed (snd p)) results))%nat.
Proof.
  revert c results. induction files as [|f rest IH]; intros c results H; cbn [compare_loop] in H.
  - injection H as <- <-. simpl. repeat split; [intros f st []|lia].
  - destruct (compare_file pm baseline current threshold failThreshold f) as [st|] eqn:Ef; [|discriminate].
    destruct (compare_loop pm baseline current threshold failThreshold rest (bump st c))
      as [[res' c'']|] eqn:El; [|discriminate].
    injection H as <- <-. destruct (IH _ _ El) as [Hm [Hs Hc]].
    split; [simpl; congruence|split].
    + intros g s [Heq|Hin]; [injection Heq as <- <-; exact Ef|exact (Hs _ _ Hin)].
    + rewrite Hc. destruct st; simpl; lia.
Qed.

Lemma compareImages_dims pm b c threshold :
  (png_width b = png_width c /\ png_height b = png_height c /\
   exists pct, compareImages pm b c threshold = Compared (pm b c threshold) pct) \/
  ((png_width b <> png_width c \/ png_height b <> png_height c) /\
   exists d1 d2, compareImages pm b c threshold = DimensionMismatch d1 d2).
Proof.
  unfold compareImages.
  destruct (Z.eqb_spec (png_width b) (png_width c));
  destruct (Z.eqb_spec (png_height b) (png_height c)); cbn [negb orb].
  - left. repeat split; try assumption. eexists. reflexivity.
  - right. split; [right; assumption|]. do 2 eexists. reflexivity.
  - right. split; [left; assumption|]. do 2 eexists. reflexivity.
  - right. split; [left; assumption|]. do 2 eexists. reflexivity.
Qed.

Lemma compare_file_spec pm baseline current threshold failThreshold f st :
  compare_file pm baseline current threshold failThreshold f = Some st ->
  status_spec pm baseline current threshold failThreshold f st.
Proof.
  unfold compare_file.
  destruct (existsIn baseline f) eqn:Eb; cbn [negb];
    [|intros H; injection H as <-; exact Eb].
  destruct (existsIn current f) eqn:Ec; cbn [negb];
    [|intros H; injection H as <-; split; assumption].
  destruct (readPng baseline f) as [b|] eqn:Rb; [|discriminate].
  destruct (readPng current f) as [c|] eqn:Rc; [|discriminate].
  destruct (compareImages_dims pm b c threshold) as [[Hw [Hh [pct Hcmp]]]|[Hd [d1 [d2 Hcmp]]]];
    rewrite Hcmp.
  - destruct (pct_gt pct failThreshold) eqn:Eg.
    + intros H; injection H as <-. do 2 (split; [assumption|]).
      exists b, c. do 2 (split; [assumption|]). right. do 2 (split; [assumption|]).
      exists (pm b c threshold), pct. split; assumption.
    + destruct (Z.ltb_spec 0 (pm b c threshold)); intros Hs; injection Hs as <-;
        do 2 (split; [assumption|]); exists b, c; do 2 (split; [assumption|]);
        do 2 (split; [assumption|]); exists pct; repeat split; assumption.
  - intros H; injection H as <-. do 2 (split; [assumption|]).
    exists b, c. do 2 (split; [assumption|]). left. exact Hd.
Qed.

Lemma zero_diff_not_over (pm : png_image -> png_image -> Q -> Z) b c threshold failThreshold :
  0 <= failThreshold -> pm b c threshold = 0%Z ->
  png_width b = png_width c -> png_height b = png_height c ->
  exists pct, compareImages pm b c threshold = Compared 0 pct /\ pct_gt pct failThreshold = false.
Proof.
  intros Hft Hz Hw Hh. unfold compareImages. rewrite Hw, Hh, !Z.eqb_refl, Hz. cbn [negb orb].
  eexists. split; [reflexivity|].
  destruct (Qeq_bool _ 0); [reflexivity|].
  assert (E0 : forall t, parseFloat_toFixed (js_mul (js_div (js_of_Z 0) t) 100) 2 = 0)
    by (intros t; reflexivity).
  rewrite E0. cbn [pct_gt].
  assert (Qle_bool 0 failThreshold = true) as E by (apply Qle_bool_iff; exact Hft).
  rewrite E. reflexivity.
Qed.

(** The rounding of [toFixed] applies to the number JavaScript computes,
    not to the exact ratio: [(23 / 80) * 100] is 28.749999999999996, so
    [toFixed(1)] gives 28.7 where 28.75 rounded would give 28.8; and
    [(23 / 160) * 100] gives 14.37 with [toFixed(2)]. *)
Example toFixed_of_double :
  js_mul (js_div (js_of_Z 23) (js_of_Z 80)) 100 = 8092405580431359 # 281474976710656 /\
  parseFloat_toFixed (js_mul (js_div (js_of_Z 23) (js_of_Z 80)) 100) 1 = round64 (287 # 10) /\
  parseFloat_toFixed (js_mul (js_div (js_of_Z 23) (js_of_Z 160)) 100) 2 = round64 (1437 # 100).
Proof. vm_compute. repeat split; reflexivity. Qed.

(** C5 counterexample.  One passed file out of three gives a pass rate
    of [parseFloat("33.3")] (rounded by [toFixed(1)]), not 100/3; and
    with a negative [failThreshold] an image identical to its baseline is
    [failed]. *)
Lemma compareDirectories_counterexample :
  (exists summ results,
     compareDirectories no_diff sample_baseline sample_current (1 # 10) (1 # 2) = Some (summ, results) /\
     passed summ = 1%nat /\ total summ = 3%nat /\ passRate summ = round64 (333 # 10) /\
     ~ (passRate summ == 100 * (1 # 3))) /\
  (exists summ,
     compareDirectories no_diff sample_baseline sample_current (1 # 10) (-1) =
       Some (summ, [("a.png", Failed); ("b.png", Missing); ("c.png", New)])).
Proof.
  split.
  - do 2 eexists. split; [vm_compute; reflexivity|]. vm_compute.
    split; [reflexivity|]. split; [reflexivity|]. split; [reflexivity|].
    intros H. discriminate H.
  - eexists. vm_compute. reflexivity.
Qed.

(** C5 (as amended).  When [compareDirectories] completes (it rejects
    when a compared file cannot be decoded), its results list every PNG
    name of either directory exactly once, in [Set] insertion order, each
    with the status the claim describes; with [failThreshold >= 0] an
    image with no differing pixels is [passed]; the summary counts
    [warning] toward [passed], and [passRate] is the number
    [(passed / total) * 100], computed in double precision, rounded by
    [toFixed(1)] and read back by [parseFloat], or 100 when there are no
    files. *)
Theorem compareDirectories_spec pm baseline current threshold failThreshold summ results :
  compareDirectories pm baseline current threshold failThreshold = Some (summ, results) ->
  map fst results = allFiles baseline current /\
  NoDup (map fst results) /\
  (forall f, In f (map fst results) <-> In f (png_names baseline) \/ In f (png_names current)) /\
  (forall f st, In (f, st) results ->
     status_spec pm baseline current threshold failThreshold f st) /\
  (0 <= failThreshold -> forall f b c,
     In f (map fst results) -> existsIn baseline f = true -> existsIn current f = true ->
     readPng baseline f = Some b -> readPng current f = Some c ->
     png_width b = png_width c -> png_height b = png_height c -> pm b c threshold = 0%Z ->
     In (f, Passed) results) /\
  total summ = length results /\
  passed summ = length (filter (fun p => counts_as_passed (snd p)) results) /\
  passRate summ =
    (if (0 <? total summ)%nat
     then parseFloat_toFixed
            (js_mul (js_div (js_of_Z (Z.of_nat (passed summ))) (js_of_Z (Z.of_nat (total summ))))
                    100) 1
     else 100).
Proof.
  unfold compareDirectories.
  destruct (compare_loop pm baseline current threshold failThreshold (allFiles baseline current)
              {| c_passed := 0; c_failed := 0; c_missing := 0; c_new := 0 |})
    as [[res cnt]|] eqn:El; [|discriminate].
  intros H. injection H as <- <-.
  destruct (compare_loop_spec _ _ _ _ _ _ _ _ _ El) as [Hm [Hs Hc]].
  assert (Hlen : length (allFiles baseline current) = length res).
  { rewrite <- Hm, length_map. reflexivity. }
  split; [exact Hm|]. split.
  { rewrite Hm. apply set_add_all_NoDup. constructor. }
  split.
  { intros f. rewrite Hm. unfold allFiles. rewrite set_add_all_In, in_app_iff. simpl. tauto. }
  split.
  { intros f st Hin. apply compare_file_spec. exact (Hs _ _ Hin). }
  split.
  { intros Hft f b c Hin Eb Ec Rb Rc Hw Hh Hz.
    apply in_map_iff in Hin as [[g st] [Hg Hin]]. simpl in Hg. subst g.
    pose proof (Hs _ _ Hin) as Hf. unfold compare_file in Hf.
    rewrite Eb, Ec, Rb, Rc in Hf. cbn [negb] in Hf.
    destruct (zero_diff_not_over pm b c threshold failThreshold Hft Hz Hw Hh) as [pct [Hcmp Hg]].
    rewrite Hcmp, Hg in Hf. cbn in Hf. injection Hf as <-. exact Hin. }
  cbn [total passed passRate]. rewrite Hc. simpl. rewrite Hlen. repeat split.
Qed.

Lemma compareDirectories_spec_witness :
  compareDirectories no_diff sample_baseline sample_current (1 # 10) (1 # 2) =
    Some ({| total := 3; passed := 1; failed := 0; missing := 1; new_images := 1;
             passRate := round64 (333 # 10) |},
          [("a.png", Passed); ("b.png", Missing); ("c.png", New)]) /\
  map fst [("a.png", Passed); ("b.png", Missing); ("c.png", New)] = allFiles sample_baseline sample_current.
Proof.
  assert (H : compareDirectories no_diff sample_baseline sample_current (1 # 10) (1 # 2) =
    Some ({| total := 3; passed := 1; failed := 0; missing := 1; new_images := 1;
             passRate := round64 (333 # 10) |},
          [("a.png", Passed); ("b.png", Missing); ("c.png", New)])) by (vm_compute; reflexivity).
  split; [exact H|].
  exact (proj1 (compareDirectories_spec _ _ _ _ _ _ _ H)).
Defined.

(** *** Viewport resolution *)

(** C6 counterexample.  [capturePage] looks names up as given: a
    capitalised preset name is skipped with a warning and gives no
    screenshot, while [capturePageData] resolves it. *)
Lemma capturePage_case_counterexample :
  preset (toLowerCase "Desktop") = Some (1920%Z, 1080%Z) /\
  capturePage_viewports ["Desktop"] = [SkipWarning "Unknown viewport: Desktop, skipping"] /\
  screenshots_of (capturePage_viewports ["Desktop"]) = [] /\
  capturePageData_viewports ["Desktop"] = [Screenshot "desktop" 1920 1080].
Proof. vm_compute. repeat split. Qed.

Ltac drop_string_eqb :=
  repeat match goal with
         | |- context [String.eqb ?a ?b] =>
             destruct (String.eqb_spec a b); [congruence|]
         end.

Lemma preset_some (key : string) (w h : Z) :
  preset key = Some (w, h) ->
  (key = "desktop" /\ w = 1920%Z /\ h = 1080%Z) \/ (key = "tablet" /\ w = 768%Z /\ h = 1024%Z) \/
  (key = "mobile" /\ w = 375%Z /\ h = 667%Z).
Proof.
  unfold preset.
  destruct (String.eqb_spec key "desktop"); [intros H; injection H as <- <-; left; auto|].
  destruct (String.eqb_spec key "tablet"); [intros H; injection H as <- <-; right; left; auto|].
  destruct (String.eqb_spec key "mobile"); [intros H; injection H as <- <-; right; right; auto|].
  discriminate.
Qed.

Lemma preset_none (key : string) :
  preset key = None -> key <> "desktop" /\ key <> "tablet" /\ key <> "mobile".
Proof.
  unfold preset.
  destruct (String.eqb_spec key "desktop"); [discriminate|].
  destruct (String.eqb_spec key "tablet"); [discriminate|].
  destruct (String.eqb_spec key "mobile"); [discriminate|]. auto.
Qed.

(** C6 (as amended).  [capturePageData] resolves every name whose
    lowercase form is [desktop], [tablet] or [mobile] to 1920x1080,
    768x1024 or 375x667; [capturePage] does so only for those exact
    lowercase names (its command-line caller lowercases the list first).
    Any other name that is not a property of [Object.prototype] is
    skipped with a warning and gives no screenshot; each name is one turn
    of the loop, in order. *)
Theorem viewport_resolution :
  (forall name w h, preset (toLowerCase name) = Some (w, h) ->
     capturePageData_viewports [name] = [Screenshot (toLowerCase name) w h]) /\
  (forall name, preset (toLowerCase name) = None ->
     existsb (String.eqb (toLowerCase name)) OBJECT_PROTOTYPE_KEYS = false ->
     capturePageData_viewports [name] = [SkipWarning (unknown_viewport_warning name)]) /\
  (forall name w h, preset name = Some (w, h) ->
     capturePage_viewports [name] = [Screenshot name w h]) /\
  (forall name, preset name = None ->
     existsb (String.eqb name) OBJECT_PROTOTYPE_KEYS = false ->
     capturePage_viewports [name] = [SkipWarning (unknown_viewport_warning name)]) /\
  (forall l1 l2, capturePage_viewports (l1 ++ l2) = capturePage_viewports l1 ++ capturePage_viewports l2) /\
  (forall l1 l2, capturePageData_viewports (l1 ++ l2) =
                 capturePageData_viewports l1 ++ capturePageData_viewports l2).
Proof.
  split; [|split; [|split; [|split; [|split]]]].
  - intros name w h H. apply preset_some in H.
    destruct H as [[E [-> ->]]|[[E [-> ->]]|[E [-> ->]]]]; cbn [capturePageData_viewports];
      rewrite E; reflexivity.
  - intros name H Hp. apply preset_none in H as [H1 [H2 H3]].
    cbn [capturePageData_viewports]. unfold obj_get. cbn [find VIEWPORT_CONFIGS fst].
    drop_string_eqb. rewrite Hp. reflexivity.
  - intros name w h H. apply preset_some in H.
    destruct H as [[E [-> ->]]|[[E [-> ->]]|[E [-> ->]]]]; subst name; reflexivity.
  - intros name H Hp. apply preset_none in H as [H1 [H2 H3]].
    cbn [capturePage_viewports]. unfold obj_get. cbn [find VIEWPORTS fst].
    drop_string_eqb. rewrite Hp. reflexivity.
  - induction l1 as [|n l1 IH]; intros l2; [reflexivity|]. simpl. rewrite IH. reflexivity.
  - induction l1 as [|n l1 IH]; intros l2; [reflexivity|]. simpl. rewrite IH. reflexivity.
Qed.

Lemma viewport_resolution_witness :
  capturePageData_viewports ["TaBlEt"] = [Screenshot (toLowerCase "TaBlEt") 768 1024] /\
  capturePage_viewports ["wide"] = [SkipWarning (unknown_viewport_warning "wide")].
Proof.
  split.
  - apply (proj1 viewport_resolution). vm_compute. reflexivity.
  - apply (proj1 (proj2 (proj2 (proj2 viewport_resolution)))); vm_compute; reflexivity.
Defined.

(* ------------------------------------------------------------------ *)
(** ** Provider auto-detection *)

Lemma env_get_input_only (env : env_t) (n : string) :
  startsWith n "INPUT_" = true -> env_get (input_only env) n = env_get env n.
Proof.
  intros Hn. unfold env_get, input_only.
  induction env as [|[k v] env IH]; [reflexivity|]. cbn [filter fst].
  destruct (startsWith k "INPUT_") eqn:Hk; cbn [find fst].
  - destruct (String.eqb k n); [reflexivity|exact IH].
  - destruct (String.eqb k n) eqn:E; [|exact IH].
    apply String.eqb_eq in E. subst k. congruence.
Qed.

(** src/providers/index.js never looks at a variable outside [INPUT_*]. *)
Lemma index_detect_input_only (env : env_t) :
  ProvidersIndex.detectProvider (input_only env) = ProvidersIndex.detectProvider env.
Proof.
  unfold ProvidersIndex.detectProvider.
  rewrite !env_get_input_only by reflexivity. reflexivity.
Qed.

(** C7: the detection that [require('./providers')] loads
    (src/providers/index.js) reads only the [INPUT_]-prefixed variables.
    With only [ANTHROPIC_API_KEY] set, [getProvider] fails with the
    "No API key provided" error, while the detection in
    src/providers/openai.js reads the plain name and selects anthropic. *)
Theorem detectProvider_plain_variables_ignored :
  ProvidersIndex.detectProvider plain_anthropic_env = None /\
  ProvidersIndex.getProvider plain_anthropic_env = inl ProvidersIndex.no_key_message /\
  ProvidersOpenAI.detectProvider plain_anthropic_env =
    Some {| provider := "anthropic"; apiKey := Some "sk-ant-test"; options := [] |} /\
  (forall env, ProvidersIndex.detectProvider (input_only env) = ProvidersIndex.detectProvider env).
Proof.
  split; [reflexivity|]. split; [reflexivity|]. split; [reflexivity|].
  exact index_detect_input_only.
Qed.

(* ------------------------------------------------------------------ *)
(** ** Test generation *)

Lemma no_generateTests_method (c : js_class) : has_method c "generateTests" = false.
Proof. destruct c; vm_compute; reflexivity. Qed.

Lemma provider_call_fails (env : env_t) :
  provider_call env =
    Some (match getProvider_instance env with
          | Instance _ => not_a_function_msg
          | Thrown msg => msg
          end).
Proof.
  unfold provider_call. destruct (getProvider_instance env) as [c|msg]; [|reflexivity].
  rewrite no_generateTests_method. reflexivity.
Qed.

Lemma unit_loop_fails (env : env_t) (s : string) (rest : list string) :
  unit_loop env (s :: rest) = provider_call env.
Proof. cbn [unit_loop]. rewrite provider_call_fails. reflexivity. Qed.

(** C8: no class in [PROVIDERS] (nor the values an Object.prototype key
    of it yields) has a [generateTests] property, so both generation
    modes reject and never reach the output step; once a provider
    instance exists, the rejection is the [TypeError] of the call. *)
Theorem generate_never_writes :
  (forall name c, In (name, c) PROVIDERS -> has_property c "generateTests" = false) /\
  (forall c, has_method c "generateTests" = false) /\
  (forall env crawl, generateE2ETests env crawl <> GenWritten) /\
  (forall env filePath sources, generateUnitTests env filePath sources <> GenWritten) /\
  (forall env c, getProvider_instance env = Instance c ->
     generateE2ETests env (inr tt) = GenRejected not_a_function_msg /\
     forall filePath s rest,
       generateUnitTests env filePath (s :: rest) = GenRejected not_a_function_msg).
Proof.
  split; [|split; [|split; [|split]]].
  - intros name c H. simpl in H.
    destruct H as [H|[H|[H|[H|[H|[]]]]]]; injection H as _ <-; vm_compute; reflexivity.
  - exact no_generateTests_method.
  - intros env [err|[]]; unfold generateE2ETests; [discriminate|].
    rewrite provider_call_fails. discriminate.
  - intros env filePath [|s rest]; unfold generateUnitTests; [discriminate|].
    rewrite unit_loop_fails, provider_call_fails. discriminate.
  - intros env c Hc. split.
    + unfold generateE2ETests. rewrite provider_call_fails, Hc. reflexivity.
    + intros filePath s rest. unfold generateUnitTests.
      rewrite unit_loop_fails, provider_call_fails, Hc. reflexivity.
Qed.

(* ------------------------------------------------------------------ *)
(** ** ARIA references *)

(** C9: [refCounter] restarts at 0 on every snapshot while
    [window.__qaRefs] persists, so a fresh ref can overwrite an entry
    that still names a live element. After the page grows from
    [page_one] to [page_two], two snapshots with no change in between
    give element 2 the ref [e1] and then [e2] (the first also gives [e1]
    to both buttons), and [clickByRef] on a ref with no entry fails with
    a [TypeError] that does not name the ref. *)
Theorem aria_refs_unstable :
  getAriaSnapshot page_one [] = (([(1%nat, "e1")], 1%nat), [("e1", 1%nat)]) /\
  getAriaSnapshot page_two [("e1", 1%nat)] = (([(1%nat, "e1"); (2%nat, "e1")], 1%nat), [("e1", 2%nat)]) /\
  getAriaSnapshot page_two [("e1", 2%nat)] =
    (([(1%nat, "e1"); (2%nat, "e2")], 2%nat), [("e1", 1%nat); ("e2", 2%nat)]) /\
  clickByRef [("e1", 1%nat); ("e2", 2%nat)] "e9" = ClickError "TypeError: element.click is not a function" /\
  (forall qa ref, clickByRef qa ref <> ClickError ("Element with ref " ++ ref ++ " not found")%string).
Proof.
  split; [vm_compute; reflexivity|]. split; [vm_compute; reflexivity|].
  split; [vm_compute; reflexivity|]. split; [vm_compute; reflexivity|].
  intros qa ref. unfold clickByRef, handle_truthy.
  destruct (selectByRef qa ref); discriminate.
Qed.

(* ------------------------------------------------------------------ *)
(** ** Provider detection: failure, Ollama settings, the two modules *)

Ltac split_truthy :=
  repeat match goal with
         | |- context [truthy ?x] => destruct (truthy x)
         | |- context [option_eq_string ?x ?s] => destruct (option_eq_string x s)
         end.

(** X1: [getProvider] of src/providers/index.js throws its
    "No API key provided" error exactly when no provider/key pair, no
    vendor key and no [INPUT_PROVIDER=ollama] is set. *)
Theorem index_getProvider_fails_iff (env : env_t) :
  ProvidersIndex.getProvider env = inl ProvidersIndex.no_key_message <->
  ~ (truthy (env_get env "INPUT_PROVIDER") = true /\ truthy (env_get env "INPUT_API_KEY") = true) /\
  truthy (env_get env "INPUT_ANTHROPIC_API_KEY") = false /\
  truthy (env_get env "INPUT_OPENAI_API_KEY") = false /\
  truthy (env_get env "INPUT_CODEX_API_KEY") = false /\
  truthy (env_get env "INPUT_GEMINI_API_KEY") = false /\
  option_eq_string (env_get env "INPUT_PROVIDER") "ollama" = false.
Proof.
  unfold ProvidersIndex.getProvider, ProvidersIndex.detectProvider.
  split_truthy; cbn; split; intros H; try discriminate;
    try (intuition (discriminate || congruence)); reflexivity.
Qed.

Lemma option_eq_string_true (v : option string) (s : string) :
  option_eq_string v s = true -> v = Some s.
Proof.
  destruct v as [x|]; [|discriminate]. cbn. intros H.
  apply String.eqb_eq in H. subst. reflexivity.
Qed.

(** X2: the Ollama base URL and model variables are used only when no
    key variable is set; [INPUT_PROVIDER=ollama] together with
    [INPUT_API_KEY] yields Ollama with no options. *)
Theorem index_ollama_options (env : env_t) :
  (option_eq_string (env_get env "INPUT_PROVIDER") "ollama" = true ->
   truthy (env_get env "INPUT_API_KEY") = true ->
   ProvidersIndex.detectProvider env =
     Some {| provider := "ollama"; apiKey := env_get env "INPUT_API_KEY"; options := [] |}) /\
  (forall d, ProvidersIndex.detectProvider env = Some d ->
   In "baseUrl" (map fst (options d)) ->
   env_get env "INPUT_PROVIDER" = Some "ollama" /\
   truthy (env_get env "INPUT_API_KEY") = false /\
   truthy (env_get env "INPUT_ANTHROPIC_API_KEY") = false /\
   truthy (env_get env "INPUT_OPENAI_API_KEY") = false /\
   truthy (env_get env "INPUT_CODEX_API_KEY") = false /\
   truthy (env_get env "INPUT_GEMINI_API_KEY") = false).
Proof.
  split.
  - intros Hp Hk. pose proof (option_eq_string_true _ _ Hp) as E.
    unfold ProvidersIndex.detectProvider. rewrite Hk, E. reflexivity.
  - intros d. unfold ProvidersIndex.detectProvider.
    destruct (truthy (env_get env "INPUT_PROVIDER")) eqn:Hp;
    destruct (truthy (env_get env "INPUT_API_KEY")) eqn:Hk; cbn [andb];
    (destruct (truthy (env_get env "INPUT_ANTHROPIC_API_KEY")) eqn:Ha;
      [intros H; injection H as <-; cbn; tauto|]);
    (destruct (truthy (env_get env "INPUT_OPENAI_API_KEY")) eqn:Ho;
      [intros H; injection H as <-; cbn; tauto|]);
    (destruct (truthy (env_get env "INPUT_CODEX_API_KEY")) eqn:Hc;
      [intros H; injection H as <-; cbn; intuition discriminate|]);
    (destruct (truthy (env_get env "INPUT_GEMINI_API_KEY")) eqn:Hg;
      [intros H; injection H as <-; cbn; tauto|]);
    try (intros H; injection H as <-; cbn; tauto);
    (destruct (option_eq_string (env_get env "INPUT_PROVIDER") "ollama") eqn:Hl; [|discriminate]);
    intros H _; apply option_eq_string_true in Hl; rewrite Hl in Hp; cbn in Hp;
    try discriminate; repeat split; assumption.
Qed.

(** X3: the detection in src/providers/openai.js is the one of
    src/providers/index.js run on the environment where every
    [INPUT_NAME] reads [NAME || INPUT_NAME]. *)
Theorem openai_detect_is_index_on_input_view (env : env_t) :
  ProvidersOpenAI.detectProvider env = ProvidersIndex.detectProvider (input_view env).
Proof.
  unfold ProvidersOpenAI.detectProvider, ProvidersIndex.detectProvider.
  cbv [input_view flat_map PROVIDER_VARS String.append app].
  destruct (or_opt (env_get env "PROVIDER") (env_get env "INPUT_PROVIDER"));
  destruct (or_opt (env_get env "API_KEY") (env_get env "INPUT_API_KEY"));
  destruct (or_opt (env_get env "ANTHROPIC_API_KEY") (env_get env "INPUT_ANTHROPIC_API_KEY"));
  destruct (or_opt (env_get env "OPENAI_API_KEY") (env_get env "INPUT_OPENAI_API_KEY"));
  destruct (or_opt (env_get env "CODEX_API_KEY") (env_get env "INPUT_CODEX_API_KEY"));
  destruct (or_opt (env_get env "GEMINI_API_KEY") (env_get env "INPUT_GEMINI_API_KEY"));
  destruct (or_opt (env_get env "OLLAMA_BASE_URL") (env_get env "INPUT_OLLAMA_BASE_URL"));
  destruct (or_opt (env_get env "OLLAMA_MODEL") (env_get env "INPUT_OLLAMA_MODEL"));
  reflexivity.
Qed.

Lemma find_key_none {A : Type} (l : list (string * A)) (key : string) :
  ~ In key (map fst l) -> find (fun kv => String.eqb (fst kv) key) l = None.
Proof.
  induction l as [|[k v] l IH]; intros H; [reflexivity|]. cbn [find fst].
  destruct (String.eqb k key) eqn:E.
  - apply String.eqb_eq in E. subst. exfalso. apply H. left. reflexivity.
  - apply IH. intros Hin. apply H. right. exact Hin.
Qed.

Lemma existsb_eqb_false (l : list string) (key : string) :
  ~ In key l -> existsb (String.eqb key) l = false.
Proof.
  intros H. apply Bool.not_true_iff_false. intros Hx.
  apply existsb_exists in Hx as [x [Hin Hx]]. apply String.eqb_eq in Hx. subst. contradiction.
Qed.

(** X4: [createProvider] looks the lowercased name up in [PROVIDERS];
    a name found nowhere throws "Unknown provider" with the supported
    list, and a lowercase Object.prototype name other than [constructor]
    throws a [TypeError] instead. *)
Theorem createProvider_lookup (name : string) (key : option string) :
  (forall c, In (toLowerCase name, c) PROVIDERS -> createProvider name key = Instance c) /\
  (~ In (toLowerCase name) (map fst PROVIDERS) -> ~ In (toLowerCase name) OBJECT_PROTOTYPE_KEYS ->
   createProvider name key =
     Thrown ("Unknown provider: " ++ name ++ ". Supported: anthropic, openai, codex, gemini, ollama")) /\
  (In (toLowerCase name) OBJECT_PROTOTYPE_KEYS -> toLowerCase name <> "constructor" ->
   createProvider name key = Thrown "TypeError: ProviderClass is not a constructor").
Proof.
  unfold createProvider, obj_get. generalize (toLowerCase name) as k. intros k.
  split; [|split].
  - intros c H. cbn [PROVIDERS In] in H.
    destruct H as [H|[H|[H|[H|[H|[]]]]]]; injection H as <- <-; reflexivity.
  - intros Hp Ho. rewrite (find_key_none _ _ Hp), (existsb_eqb_false _ _ Ho). reflexivity.
  - intros H Hc. cbn [OBJECT_PROTOTYPE_KEYS In] in H.
    repeat (destruct H as [<-|H]; [try (exfalso; apply Hc; reflexivity); reflexivity|]).
    destruct H.
Qed.

Lemma createProvider_lookup_witness :
  createProvider "OpenAI" (Some "k") = Instance OpenAIProvider /\
  createProvider "toString" (Some "k") =
    Thrown "Unknown provider: toString. Supported: anthropic, openai, codex, gemini, ollama" /\
  createProvider "__proto__" (Some "k") = Thrown "TypeError: ProviderClass is not a constructor".
Proof.
  split; [|split].
  - apply (proj1 (createProvider_lookup "OpenAI" (Some "k"))). vm_compute. right. left. reflexivity.
  - apply (proj1 (proj2 (createProvider_lookup "toString" (Some "k")))); vm_compute; intuition discriminate.
  - apply (proj2 (proj2 (createProvider_lookup "__proto__" (Some "k")))); vm_compute.
    + do 10 right. left. reflexivity.
    + discriminate.
Defined.

(** X5: [reviewPR] answers a blank diff with the fixed "No changes"
    report whatever the environment; otherwise, with an Anthropic or
    Ollama provider, [reviewCode] resolves to the stub of
    [BaseProvider] and the review rejects, while OpenAI (and Codex) and
    Gemini send the request. *)
Theorem reviewPR_outcome (env : env_t) (d : string) :
  (trim d = EmptyString -> reviewPR env (inr d) = NoChanges) /\
  (trim d <> EmptyString -> forall msg, getProvider_instance env = Thrown msg ->
     reviewPR env (inr d) = ReviewRejected msg) /\
  (trim d <> EmptyString -> forall c, getProvider_instance env = Instance c ->
     reviewPR env (inr d) =
       match c with
       | AnthropicProvider | OllamaProvider | BaseProvider =>
           ReviewRejected "reviewCode() must be implemented by subclass"
       | OpenAIProvider | GeminiProvider => VendorReview c
       | StringWrapper | ObjectProto => ReviewRejected "TypeError: provider.reviewCode is not a function"
       end).
Proof.
  unfold reviewPR. split; [|split].
  - intros H. rewrite H. reflexivity.
  - intros H msg Hm. apply String.eqb_neq in H. rewrite H, Hm. reflexivity.
  - intros H c Hc. apply String.eqb_neq in H. rewrite H, Hc.
    destruct c; reflexivity.
Qed.

Lemma reviewPR_outcome_witness :
  reviewPR anthropic_input_env (inr "  ") = NoChanges /\
  reviewPR [] (inr "+x") = ReviewRejected ProvidersIndex.no_key_message /\
  reviewPR anthropic_input_env (inr "+x") =
    ReviewRejected "reviewCode() must be implemented by subclass".
Proof.
  split; [|split].
  - apply (proj1 (reviewPR_outcome anthropic_input_env "  ")). reflexivity.
  - apply (proj1 (proj2 (reviewPR_outcome [] "+x"))); [discriminate|reflexivity].
  - refine (proj2 (proj2 (reviewPR_outcome anthropic_input_env "+x")) _ AnthropicProvider _);
      [discriminate|reflexivity].
Defined.

(** X6: [analyzeWithAI] uses [options.provider] only together with a
    truthy [options.apiKey]; without one it falls back to the
    environment, so [{provider: 'ollama'}] alone throws the missing-key
    error in an empty environment. Every class of [PROVIDERS] defines
    its own [analyze]. *)
Theorem analyzeWithAI_provider_needs_key (env : env_t) (name key : option string) :
  (truthy key = false -> analyzeWithAI_provider env name key = getProvider_instance env) /\
  analyzeWithAI_provider [] (Some "ollama") None = Thrown ProvidersIndex.no_key_message /\
  (forall n c, In (n, c) PROVIDERS -> resolve_method c "analyze" = Some c).
Proof.
  split; [|split].
  - intros H. unfold analyzeWithAI_provider. rewrite H, andb_false_r. reflexivity.
  - reflexivity.
  - intros n c H. cbn [PROVIDERS In] in H.
    destruct H as [H|[H|[H|[H|[H|[]]]]]]; injection H as _ <-; reflexivity.
Qed.

Lemma analyzeWithAI_provider_needs_key_witness :
  analyzeWithAI_provider anthropic_input_env (Some "ollama") None = Instance AnthropicProvider.
Proof.
  rewrite (proj1 (analyzeWithAI_provider_needs_key anthropic_input_env (Some "ollama") None)
             eq_refl).
  reflexivity.
Defined.

Lemma index_ollama_options_witness :
  ProvidersIndex.detectProvider [("INPUT_PROVIDER", "ollama"); ("INPUT_API_KEY", "x")] =
    Some {| provider := "ollama"; apiKey := Some "x"; options := [] |} /\
  env_get [("INPUT_PROVIDER", "ollama")] "INPUT_PROVIDER" = Some "ollama".
Proof.
  split.
  - apply (proj1 (index_ollama_options [("INPUT_PROVIDER", "ollama"); ("INPUT_API_KEY", "x")]));
      reflexivity.
  - apply (proj2 (index_ollama_options [("INPUT_PROVIDER", "ollama")])
             {| provider := "ollama"; apiKey := None;
                options := [("baseUrl", "http://localhost:11434"); ("model", "llava")] |});
      [reflexivity | cbn; tauto].
Defined.

Lemma parseGeneratedFiles_text (r : llm_response) :
  r <> RespNullish ->
  parseGeneratedFiles r =
    match JSON_parse (generated_text (response_text r)) with
    | inl _ => GenFallback (response_text r)
    | inr parsed =>
        match parsed with
        | JArr _ => GenFiles parsed
        | JNull => GenFallback (response_text r)
        | JObj m =>
            match member_last files_key m with
            | Some f => if json_truthy f then GenFiles f else GenFiles (JArr [parsed])
            | None => GenFiles (JArr [parsed])
            end
        | _ => GenFiles (JArr [parsed])
        end
    end.
Proof. destruct r; [reflexivity | reflexivity | congruence]. Qed.



(** [parseGeneratedFiles] throws only for a [null] or [undefined]
    response; it falls back to one file holding the whole unmodified text
    exactly when the text (after fence removal, without trimming) is not
    JSON or is [null]; an object with a [files] member gives that member
    when it is truthy (even an empty array) and the object wrapped in an
    array otherwise. *)
Theorem parseGeneratedFiles_outcome (r : llm_response) :
  (parseGeneratedFiles r = GenThrows <-> r = RespNullish) /\
  (forall t, parseGeneratedFiles r = GenFallback t <->
     r <> RespNullish /\ t = response_text r /\
     ((exists e, JSON_parse (generated_text t) = inl e) \/
      JSON_parse (generated_text t) = inr JNull)) /\
  (forall m f, r <> RespNullish ->
     JSON_parse (generated_text (response_text r)) = inr (JObj m) ->
     member_last files_key m = Some f ->
     parseGeneratedFiles r = if json_truthy f then GenFiles f else GenFiles (JArr [JObj m])).
Proof.
  assert (Hcase : r = RespNullish \/ r <> RespNullish)
    by (destruct r; [right; discriminate | right; discriminate | left; reflexivity]).
  destruct Hcase as [->|Hr].
  { split; [tauto|]. split.
    - intro t. cbn. split; [discriminate|]. intros [H _]. congruence.
    - intros m f H. congruence. }
  rewrite (parseGeneratedFiles_text r Hr).
  split; [|split].
  - split; [|congruence].
    destruct (JSON_parse _) as [e|[| | | | |m]]; try discriminate.
    destruct (member_last files_key m) as [f|]; [destruct (json_truthy f)|]; discriminate.
  - intro t. split.
    + destruct (JSON_parse _) as [e|[| | | | |m]] eqn:E; try discriminate.
      * intro H. injection H as <-. eauto 6.
      * intro H. injection H as <-. auto.
      * destruct (member_last files_key m) as [f|]; [destruct (json_truthy f)|]; discriminate.
    + intros [_ [-> [[e E]|E]]]; rewrite E; reflexivity.
  - intros m f _ E F. rewrite E, F. reflexivity.
Qed.

Lemma parseGeneratedFiles_outcome_witness :
  parseGeneratedFiles (RespString (js "```json~{'files': []}~```")) = GenFiles (JArr []) /\
  parseGeneratedFiles (RespString (js " ```json~[1]~```")) =
    GenFallback (js " ```json~[1]~```").
Proof.
  split.
  - refine (eq_trans
      (proj2 (proj2 (parseGeneratedFiles_outcome (RespString (js "```json~{'files': []}~```"))))
         [(files_key, JArr [])] (JArr []) _ _ _) _);
      [discriminate | vm_compute; reflexivity | vm_compute; reflexivity | reflexivity].
  - apply (proj2 (proj1 (proj2 (parseGeneratedFiles_outcome (RespString (js " ```json~[1]~```"))))
           (js " ```json~[1]~```"))).
    split; [discriminate|]. split; [reflexivity|]. left. vm_compute. eexists. reflexivity.
Defined.

Lemma list_ascii_of_string_app (s1 s2 : string) :
  list_ascii_of_string (s1 ++ s2) = list_ascii_of_string s1 ++ list_ascii_of_string s2.
Proof. induction s1 as [|c s1 IH]; cbn; [reflexivity|]. rewrite IH. reflexivity. Qed.

Lemma take_while_app_all {A} (f : A -> bool) (l1 l2 : list A) :
  forallb f l1 = true -> take_while f (l1 ++ l2) = l1 ++ take_while f l2.
Proof.
  induction l1 as [|x l1 IH]; cbn; [reflexivity|].
  intros H. apply andb_prop in H as [-> H]. rewrite IH; auto.
Qed.

Lemma drop_while_app_all {A} (f : A -> bool) (l1 l2 : list A) :
  forallb f l1 = true -> drop_while f (l1 ++ l2) = drop_while f l2.
Proof.
  induction l1 as [|x l1 IH]; cbn; [reflexivity|].
  intros H. apply andb_prop in H as [-> H]. auto.
Qed.

Lemma drop_while_in {A} (f : A -> bool) (l : list A) (x : A) :
  In x (drop_while f l) -> In x l.
Proof.
  induction l as [|y l IH]; cbn; [auto|]. destruct (f y); cbn; auto.
Qed.

Lemma take_while_in {A} (f : A -> bool) (l : list A) (x : A) :
  In x (take_while f l) -> In x l /\ f x = true.
Proof.
  induction l as [|y l IH]; cbn; [tauto|].
  destruct (f y) eqn:E; cbn; [|tauto]. intros [<-|H]; [auto|]. apply IH in H. tauto.
Qed.

Lemma split_ext_fst_in (seg : list ascii) (c : ascii) :
  In c (fst (split_ext seg)) -> In c seg.
Proof.
  unfold split_ext.
  destruct (drop_while _ (rev seg)) as [|d pre_rev] eqn:E; cbn; [auto|].
  destruct pre_rev as [|p ps]; cbn; [auto|].
  destruct (list_eq_dec _ _ _); cbv [fst]; [auto|].
  intros H. apply (proj2 (in_rev _ _)).
  apply (drop_while_in (fun c => negb (is_dot c))). rewrite E. right.
  apply (proj2 (in_rev (p :: ps) c)). exact H.
Qed.

Lemma forallb_rev {A} (f : A -> bool) (l : list A) :
  forallb f (rev l) = forallb f l.
Proof.
  induction l as [|x l IH]; cbn; [reflexivity|].
  rewrite forallb_app, IH. cbn. rewrite andb_true_r, andb_comm. reflexivity.
Qed.

Lemma drop_while_app_none {A} (f : A -> bool) (l1 l2 : list A) (c : A) :
  forallb (fun y => negb (f y)) l1 = true -> f c = false ->
  drop_while f (l1 ++ c :: l2) = l1 ++ c :: l2.
Proof.
  destruct l1 as [|y l1]; cbn; intros H Hc; [rewrite Hc; reflexivity|].
  apply andb_prop in H as [H _]. destruct (f y); [discriminate|reflexivity].
Qed.


(** [getTestFileName] gives a bare file name with no directory, ending in
    [.test.ts] or [.test.js]; for [dir/b.x] it is [b] followed by
    [.test.ts] when [x] is [ts] or [tsx] and [.test.js] otherwise. *)
Theorem getTestFileName_shape (p : string) :
  (exists base, ~ In "/"%char (list_ascii_of_string base) /\
     (getTestFileName p = (base ++ ".test.ts")%string \/
      getTestFileName p = (base ++ ".test.js")%string)) /\
  (forall dir b x,
     p = (dir ++ b ++ "." ++ x)%string ->
     (dir = EmptyString \/ exists d, dir = (d ++ "/")%string) ->
     forallb (fun c => negb (is_slash c)) (list_ascii_of_string b) = true ->
     forallb plain_char (list_ascii_of_string x) = true ->
     b <> EmptyString -> ~ (b = "." /\ x = EmptyString) ->
     getTestFileName p =
       (b ++ (if String.eqb x "ts" || String.eqb x "tsx" then ".test.ts" else ".test.js"))%string).
Proof.
  split.
  - exists (basename_noext p). split.
    + unfold basename_noext. rewrite list_ascii_of_string_of_list_ascii.
      intros H. apply split_ext_fst_in in H. unfold last_segment in H.
      apply in_rev, take_while_in in H. cbn in H. destruct H as [_ H]. discriminate.
    + unfold getTestFileName.
      destruct (String.eqb _ ".ts" || String.eqb _ ".tsx"); auto.
  - intros dir b x -> Hdir Hb Hx Hb0 Hdd.
    assert (Hx1 : forallb (fun c => negb (is_slash c)) (rev (list_ascii_of_string x)) = true).
    { rewrite forallb_rev. apply forallb_forall. intros c Hc.
      pose proof (proj1 (forallb_forall _ _) Hx c Hc) as H. unfold plain_char in H.
      apply andb_prop in H. tauto. }
    assert (Hx2 : forallb (fun c => negb (is_dot c)) (rev (list_ascii_of_string x)) = true).
    { rewrite forallb_rev. apply forallb_forall. intros c Hc.
      pose proof (proj1 (forallb_forall _ _) Hx c Hc) as H. unfold plain_char in H.
      apply andb_prop in H. tauto. }
    assert (HD : take_while (fun c => negb (is_slash c)) (rev (list_ascii_of_string dir)) = []).
    { destruct Hdir as [->|[d ->]]; [reflexivity|].
      rewrite list_ascii_of_string_app, rev_app_distr. reflexivity. }
    assert (Hseg : last_segment (dir ++ b ++ "." ++ x) =
                   list_ascii_of_string b ++ "."%char :: list_ascii_of_string x).
    { unfold last_segment.
      rewrite !list_ascii_of_string_app. cbn [list_ascii_of_string].
      rewrite !rev_app_distr. cbn [rev]. rewrite <- !app_assoc. cbn [app].
      rewrite drop_while_app_none by (assumption || reflexivity).
      rewrite take_while_app_all by assumption. cbn [take_while].
      cbn [is_slash Ascii.eqb Bool.eqb negb].
      rewrite take_while_app_all by (rewrite forallb_rev; assumption).
      rewrite HD, app_nil_r.
      rewrite rev_app_distr. cbn [rev app]. rewrite !rev_involutive, <- app_assoc.
      reflexivity. }
    assert (HB : list_ascii_of_string b <> []).
    { intros HB. apply Hb0. rewrite <- (string_of_list_ascii_of_string b), HB. reflexivity. }
    assert (Hsplit : split_ext (list_ascii_of_string b ++ "."%char :: list_ascii_of_string x) =
                     (list_ascii_of_string b, "."%char :: list_ascii_of_string x)).
    { unfold split_ext.
      rewrite rev_app_distr. cbn [rev]. rewrite <- app_assoc. cbn [app].
      rewrite drop_while_app_all by assumption. cbn [drop_while is_dot Ascii.eqb Bool.eqb negb].
      destruct (rev (list_ascii_of_string b)) as [|c cs] eqn:Er.
      { apply (f_equal (@rev ascii)) in Er. rewrite rev_involutive in Er. contradiction. }
      rewrite <- Er. destruct (list_eq_dec _ _ _) as [E|_].
      - exfalso. apply Hdd.
        destruct (list_ascii_of_string b) as [|b1 [|b2 bs]] eqn:EB; [contradiction| |].
        + cbn in E. injection E as <- E. destruct (list_ascii_of_string x) eqn:EX; [|discriminate].
          split.
          * rewrite <- (string_of_list_ascii_of_string b), EB. reflexivity.
          * rewrite <- (string_of_list_ascii_of_string x), EX. reflexivity.
        + cbn in E. injection E as _ _ E. destruct bs; discriminate.
      - rewrite rev_involutive, take_while_app_all by assumption. cbn [take_while is_dot Ascii.eqb Bool.eqb negb].
        rewrite app_nil_r, rev_involutive. reflexivity. }
    unfold getTestFileName, path_extname, basename_noext. rewrite Hseg, Hsplit.
    cbv [fst snd]. rewrite string_of_list_ascii_of_string. cbn [string_of_list_ascii].
    rewrite string_of_list_ascii_of_string. reflexivity.
Qed.

Lemma getTestFileName_shape_witness :
  getTestFileName "src/App.tsx" = "App.test.ts" /\
  getTestFileName ".eslintrc.js" = ".eslintrc.test.js".
Proof.
  split.
  - refine (proj2 (getTestFileName_shape "src/App.tsx") "src/" "App" "tsx" _ _ _ _ _ _).
    + reflexivity.
    + right. exists "src". reflexivity.
    + reflexivity.
    + reflexivity.
    + discriminate.
    + intros [H _]. discriminate.
  - refine (proj2 (getTestFileName_shape ".eslintrc.js") EmptyString ".eslintrc" "js" _ _ _ _ _ _).
    + reflexivity.
    + left. reflexivity.
    + reflexivity.
    + reflexivity.
    + discriminate.
    + intros [H _]. discriminate.
Defined.

Lemma fs_entry_ind' (P : fs_entry -> Prop)
  (Hf : forall name body, P (FsFile name body))
  (Hd : forall name es, Forall P es -> P (FsDir name es))
  (Ho : forall name, P (FsOther name)) : forall e, P e.
Proof.
  fix IH 1. intros [name body|name es|name].
  - apply Hf.
  - apply Hd. induction es as [|x r IHr]; constructor; [apply IH | exact IHr].
  - apply Ho.
Qed.

Lemma concat_map_res_forall {A B Er} (f : A -> Er + list B) (P : B -> Prop) (l : list A) out :
  (forall x o, In x l -> f x = inr o -> Forall P o) ->
  concat_map_res f l = inr out -> Forall P out.
Proof.
  revert out. induction l as [|x r IH]; cbn; intros out H E.
  - injection E as <-. constructor.
  - destruct (f x) as [e|o1] eqn:Ef; [discriminate|].
    destruct (concat_map_res f r) as [e|o2] eqn:Hr; [discriminate|].
    injection E as <-. apply Forall_app. split.
    + eapply H; eauto.
    + apply IH; auto. intros y o Hy Hf. eapply H; eauto.
Qed.


Lemma walk_entry_ok join relative regex_of pattern (e : fs_entry) :
  forall dir out, walk_entry join relative regex_of pattern dir e = inr out ->
  Forall source_ok out.
Proof.
  induction e as [name body|name es IH|name] using fs_entry_ind'; intros dir out; cbn [walk_entry].
  - destruct (existsb _ source_exts) eqn:Ex; cbn; [|intros H; injection H as <-; constructor].
    destruct (includes name ".test." || includes name ".spec."); [intros H; injection H as <-; constructor|].
    destruct (pattern_filter regex_of pattern name) as [err|[|]]; [discriminate| |intros H; injection H as <-; constructor].
    destruct ((30000 <? Z.of_nat (String.length body))%Z
              || (Z.of_nat (String.length body) <? 50)%Z) eqn:Es;
      intros H; injection H as <-; [constructor|].
    apply orb_false_iff in Es as [E1 E2]. apply Z.ltb_ge in E1, E2.
    constructor; [|constructor]. split; cbn; [|lia].
    apply existsb_exists in Ex as [y [Hy Hey]]. apply String.eqb_eq in Hey. subst. exact Hy.
  - destruct (existsb _ skipDirs); [intros H; injection H as <-; constructor|].
    apply concat_map_res_forall. intros x o Hx. rewrite Forall_forall in IH. apply IH. exact Hx.
  - intros H; injection H as <-; constructor.
Qed.

Lemma walk_entry_total join relative regex_of pattern (e : fs_entry) :
  (pattern = None \/ pattern = Some EmptyString) ->
  forall dir, exists out, walk_entry join relative regex_of pattern dir e = inr out.
Proof.
  intros Hp.
  assert (Hf : forall name, pattern_filter regex_of pattern name = inr true)
    by (intros name; destruct Hp as [->| ->]; reflexivity).
  induction e as [name body|name es IH|name] using fs_entry_ind'; intros dir; cbn [walk_entry].
  - rewrite Hf. 
    destruct (negb _); [eauto|]. destruct (_ || _); [eauto|]. destruct (_ || _); eauto.
  - destruct (existsb _ skipDirs); [eauto|].
    induction es as [|x r IHr]; cbn; [eauto|].
    inversion IH as [|? ? Hx Hr]; subst.
    destruct (Hx (join dir name)) as [o1 ->]. destruct (IHr Hr) as [o2 ->]. eauto.
  - eauto.
Qed.

(** [readSourceFiles] takes a single file whole and unfiltered; from a
    directory it keeps at most 10 files, each with a source extension and
    between 50 and 30000 characters; without a pattern it never throws; a
    missing path or one that is neither file nor directory gives nothing. *)
Theorem readSourceFiles_filters resolve join relative regex_of filePath pattern target :
  (forall name body, target = Some (FsFile name body) ->
     readSourceFiles resolve join relative regex_of filePath pattern target =
       inr [{| relativePath := filePath; content := body; ext := path_extname filePath |}]) /\
  (forall name es srcs, target = Some (FsDir name es) ->
     readSourceFiles resolve join relative regex_of filePath pattern target = inr srcs ->
     (length srcs <= 10)%nat /\ Forall source_ok srcs) /\
  ((pattern = None \/ pattern = Some EmptyString) ->
     exists srcs, readSourceFiles resolve join relative regex_of filePath pattern target = inr srcs) /\
  ((target = None \/ exists name, target = Some (FsOther name)) ->
     readSourceFiles resolve join relative regex_of filePath pattern target = inr []).
Proof.
  split; [|split; [|split]].
  - intros name body ->. reflexivity.
  - intros name es srcs -> H. unfold readSourceFiles in H.
    destruct (concat_map_res _ es) as [err|all] eqn:E; [discriminate|].
    assert (Hs : srcs = firstn 10 all) by congruence. subst srcs.
    split; [apply firstn_le_length|].
    assert (Hall : Forall source_ok all).
    { eapply concat_map_res_forall; [|exact E]. intros x o _. apply walk_entry_ok. }
    rewrite Forall_forall in *. intros s Hs. apply Hall.
    rewrite <- (firstn_skipn 10 all). apply in_or_app. left. exact Hs.
  - intros Hp. destruct target as [[name body|name es|name]|]; unfold readSourceFiles; eauto.
    enough (exists out, concat_map_res (walk_entry join relative regex_of pattern (resolve filePath)) es = inr out)
      as [out ->] by eauto.
    induction es as [|x r IHr]; cbn; [eauto|].
    destruct (walk_entry_total join relative regex_of pattern x Hp (resolve filePath)) as [o1 ->].
    destruct IHr as [o2 ->]. eauto.
  - intros [->|[name ->]]; reflexivity.
Qed.


Lemma readSourceFiles_filters_witness :
  readSourceFiles (fun s => s) id_join (fun s => s) (fun _ => inr (fun _ => true))
    "src" None (Some sample_tree) =
    inr [{| relativePath := "src/add.ts"; content := sample_body; ext := ".ts" |}] /\
  (1 <= 10)%nat /\ Forall source_ok [{| relativePath := "src/add.ts"; content := sample_body; ext := ".ts" |}].
Proof.
  assert (E : readSourceFiles (fun s => s) id_join (fun s => s) (fun _ => inr (fun _ => true))
    "src" None (Some sample_tree) =
    inr [{| relativePath := "src/add.ts"; content := sample_body; ext := ".ts" |}])
    by (vm_compute; reflexivity).
  split; [exact E|].
  exact (proj1 (proj2 (readSourceFiles_filters (fun s => s) id_join (fun s => s)
            (fun _ => inr (fun _ => true)) "src" None (Some sample_tree))) "src" _ _ eq_refl E).
Defined.

(** [generateTests] never reaches the output step; without a target it
    rejects with ["Target is required (URL or file path)"]; a target not
    starting with [http://] or [https://] (case-sensitive) is read as a
    path, and a missing one rejects with ["No source files found at: "]. *)
Theorem generateTests_routes resolve join relative regex_of env target pattern crawl fs_at :
  generateTests resolve join relative regex_of env target pattern crawl fs_at <> GenWritten /\
  ((target = None \/ target = Some EmptyString) ->
     generateTests resolve join relative regex_of env target pattern crawl fs_at =
       GenRejected "Target is required (URL or file path)") /\
  (forall t, target = Some t -> t <> EmptyString ->
     startsWith t "http://" = false -> startsWith t "https://" = false ->
     fs_at t = None ->
     generateTests resolve join relative regex_of env target pattern crawl fs_at =
       GenRejected ("No source files found at: " ++ t)%string).
Proof.
  split; [|split].
  - unfold generateTests. destruct target as [t|]; [|discriminate].
    destruct (String.eqb t EmptyString); [discriminate|].
    destruct (startsWith t "http://" || startsWith t "https://").
    + unfold generateE2ETests. destruct crawl as [err|u]; [discriminate|].
      rewrite provider_call_fails. discriminate.
    + destruct (readSourceFiles _ _ _ _ _ _ _) as [err|srcs]; [discriminate|].
      unfold generateUnitTests. destruct (map relativePath srcs) as [|s rest]; [discriminate|].
      rewrite unit_loop_fails, provider_call_fails. discriminate.
  - intros [->| ->]; reflexivity.
  - intros t -> Ht Hh Hs Hfs. unfold generateTests.
    apply String.eqb_neq in Ht. rewrite Ht, Hh, Hs. cbn [orb]. rewrite Hfs. reflexivity.
Qed.

Lemma generateTests_routes_witness :
  generateTests (fun s => s) (fun d n => d ++ "/" ++ n)%string (fun s => s)
    (fun _ => inr (fun _ => true)) [] (Some "HTTPS://example.com") None (inr tt)
    (fun _ => None) =
  GenRejected "No source files found at: HTTPS://example.com".
Proof.
  refine (proj2 (proj2 (generateTests_routes (fun s => s) (fun d n => d ++ "/" ++ n)%string
            (fun s => s) (fun _ => inr (fun _ => true)) [] (Some "HTTPS://example.com") None
            (inr tt) (fun _ => None))) "HTTPS://example.com" eq_refl _ _ _ _);
    [discriminate | reflexivity | reflexivity | reflexivity].
Defined.

Lemma timer_delay_pos (d : Z) : (1 <= timer_delay d)%Z.
Proof.
  unfold timer_delay. destruct (1 <=? d)%Z eqn:E1; [|cbn; lia].
  destruct (d <=? TIMEOUT_MAX)%Z; cbn; [apply Z.leb_le in E1; lia|lia].
Qed.

Lemma ready_loop_mono (fuel : nat) (o : ready_options) (pending_at : Z -> list pending_req)
    (late : Z -> Z -> nat) (startTime now : Z) :
  (now <= ready_loop fuel o pending_at late startTime now)%Z /\
  ((timeout o <= now - startTime)%Z -> ready_loop fuel o pending_at late startTime now = now).
Proof.
  revert now. induction fuel as [|fuel IH]; intros now; cbn [ready_loop].
  - split; [lia|reflexivity].
  - destruct (now - startTime <? timeout o)%Z eqn:Ht.
    + apply Z.ltb_lt in Ht. split; [|lia].
      pose proof (timer_delay_pos (networkIdleTime o)) as Hd.
      assert (Hs : forall t d, (t < sleep_end late t d)%Z)
        by (intros t d; unfold sleep_end; pose proof (timer_delay_pos d); lia).
      destruct (critical_pending _ now _) as [|x xs].
      * destruct (critical_pending _ (sleep_end late now (networkIdleTime o)) _) as [|y ys].
        -- pose proof (Hs now (networkIdleTime o)). lia.
        -- destruct (IH (sleep_end late (sleep_end late now (networkIdleTime o)) 100)) as [H1 _].
           pose proof (Hs now (networkIdleTime o)).
           pose proof (Hs (sleep_end late now (networkIdleTime o)) 100%Z). lia.
      * destruct (IH (sleep_end late now 100)) as [H1 _]. pose proof (Hs now 100%Z). lia.
    + split; [lia|reflexivity].
Qed.

Lemma ready_loop_bound (fuel : nat) (o : ready_options) (pending_at : Z -> list pending_req)
    (late : Z -> Z -> nat) (L : nat) (startTime now : Z) :
  (forall a d, (late a d <= L)%nat) ->
  (now - startTime < timeout o)%Z ->
  (ready_loop fuel o pending_at late startTime now - startTime
     < timeout o + timer_delay (networkIdleTime o) + 100 + 2 * Z.of_nat L)%Z.
Proof.
  intros HL. revert now. induction fuel as [|fuel IH]; intros now Ht; cbn [ready_loop].
  - pose proof (timer_delay_pos (networkIdleTime o)). lia.
  - apply Z.ltb_lt in Ht as Ht'. rewrite Ht'.
    assert (Hs : forall t d, (t + timer_delay d <= sleep_end late t d <= t + timer_delay d + Z.of_nat L)%Z).
    { intros t d. unfold sleep_end. specialize (HL t d). lia. }
    assert (Hrec : forall now', (now' <= now + timer_delay (networkIdleTime o) + 100 + 2 * Z.of_nat L)%Z ->
              (ready_loop fuel o pending_at late startTime now' - startTime
                 < timeout o + timer_delay (networkIdleTime o) + 100 + 2 * Z.of_nat L)%Z).
    { intros now' Hn. destruct (Z.lt_ge_cases (now' - startTime) (timeout o)) as [Hl|Hl].
      - apply IH. exact Hl.
      - rewrite (proj2 (ready_loop_mono fuel o pending_at late startTime now') Hl). lia. }
    assert (H100 : timer_delay 100 = 100%Z) by reflexivity.
    pose proof (timer_delay_pos (networkIdleTime o)) as Hd.
    destruct (critical_pending _ now _) as [|x xs].
    + destruct (critical_pending _ (sleep_end late now (networkIdleTime o)) _) as [|y ys].
      * pose proof (Hs now (networkIdleTime o)). lia.
      * apply Hrec. pose proof (Hs now (networkIdleTime o)).
        pose proof (Hs (sleep_end late now (networkIdleTime o)) 100%Z). lia.
    + apply Hrec. pose proof (Hs now 100%Z). lia.
Qed.

(** A call of [waitForPageReady] resolves only when [waitForLoadState]
    did.  Its [loadTime] is then at least the time spent waiting for
    [domcontentloaded].  When that came before the timeout, and no
    timer fires more than [L] ms late, [loadTime] stays below [timeout]
    plus the idle delay Node uses (at least 1 ms) plus [100 + 2 L]: the
    loop can overrun the timeout by one idle wait and one 100 ms sleep.
    Otherwise the loop does not run and the pending list is read at that
    time. *)
Theorem waitForPageReady_loadTime (o : ready_options) (pending_at : Z -> list pending_req)
    (late : Z -> Z -> nat) (startTime : Z) (dom : option Z) (res : ready_result) :
  waitForPageReady_run o pending_at late startTime dom = Some res ->
  exists domLoaded, dom = Some domLoaded /\
  (domLoaded - startTime <= loadTime res)%Z /\
  (forall L : nat, (forall a d, (late a d <= L)%nat) -> (domLoaded - startTime < timeout o)%Z ->
     (loadTime res < timeout o + timer_delay (networkIdleTime o) + 100 + 2 * Z.of_nat L)%Z) /\
  ((timeout o <= domLoaded - startTime)%Z ->
     loadTime res = (domLoaded - startTime)%Z /\
     pendingRequests res = map req_url (pending_at domLoaded)).
Proof.
  destruct dom as [domLoaded|]; [|discriminate]. cbn [waitForPageReady_run].
  intros H. injection H as <-. exists domLoaded. split; [reflexivity|].
  unfold ready_after. cbn [loadTime pendingRequests].
  set (fuel := (Z.to_nat (timeout o - (domLoaded - startTime)) + 1)%nat).
  destruct (ready_loop_mono fuel o pending_at late startTime domLoaded) as [H1 H3].
  split; [lia|]. split.
  - intros L HL Ht. pose proof (ready_loop_bound fuel o pending_at late L startTime domLoaded HL Ht).
    lia.
  - intros Ht. rewrite (H3 Ht). split; reflexivity.
Qed.

Lemma waitForPageReady_loadTime_witness :
  (loadTime (ready_after default_ready_options (fun _ => []) (fun _ _ => 7%nat) 0 100)
     < timeout default_ready_options + timer_delay (networkIdleTime default_ready_options)
       + 100 + 2 * Z.of_nat 7)%Z.
Proof.
  destruct (waitForPageReady_loadTime default_ready_options (fun _ => []) (fun _ _ => 7%nat) 0
              (Some 100%Z) _ eq_refl) as [d [Hd [_ [Hb _]]]].
  injection Hd as <-.
  exact (Hb 7%nat (fun _ _ => le_n 7) ltac:(vm_compute; reflexivity)).
Defined.

Lemma fold_left_invariant {A B} (P : A -> Prop) (f : A -> B -> A) (l : list B) (a : A) :
  P a -> (forall a b, P a -> P (f a b)) -> P (fold_left f l a).
Proof. revert a. induction l as [|b l IH]; cbn; auto. Qed.

Lemma map_set_keys {V} (m : list (nat * V)) (k : nat) (v : V) (j : nat) :
  In j (map fst (map_set m k v)) <-> j = k \/ In j (map fst m).
Proof.
  induction m as [|[k' v'] r IH]; cbn.
  { split; [intros [<-|[]]; auto|intros [->|[]]; auto]. }
  destruct (Nat.eqb k k') eqn:E; cbn.
  - apply Nat.eqb_eq in E. subst. split; [intros [<-|H]; auto|intros [->|[<-|H]]; auto].
  - rewrite IH. split; [intros [<-|[H|H]]; auto|intros [->|[<-|H]]; auto].
Qed.

Lemma map_set_nodup {V} (m : list (nat * V)) (k : nat) (v : V) :
  NoDup (map fst m) -> NoDup (map fst (map_set m k v)).
Proof.
  induction m as [|[k' v'] r IH]; cbn; intros H.
  - constructor; [auto|constructor].
  - inversion H as [|? ? Hn Hr]; subst.
    destruct (Nat.eqb k k') eqn:E; cbn.
    + apply Nat.eqb_eq in E. subst. constructor; assumption.
    + constructor; [|auto]. rewrite map_set_keys. intros [->|Hi]; [|contradiction].
      rewrite Nat.eqb_refl in E. discriminate.
Qed.

Lemma map_set_forall {V} (P : V -> Prop) (m : list (nat * V)) (k : nat) (v : V) :
  Forall (fun kv => P (snd kv)) m -> P v -> Forall (fun kv => P (snd kv)) (map_set m k v).
Proof.
  induction m as [|[k' v'] r IH]; cbn; intros H Hv.
  - constructor; [exact Hv|constructor].
  - inversion H; subst. destruct (Nat.eqb k k'); constructor; auto.
Qed.

Lemma map_delete_keys {V} (m : list (nat * V)) (k j : nat) :
  In j (map fst (map_delete m k)) <-> j <> k /\ In j (map fst m).
Proof.
  unfold map_delete. rewrite !in_map_iff. split.
  - intros [[j' v] [<- Hin]]. apply filter_In in Hin as [Hin Hk]. cbn in Hk |- *.
    split; [intros ->; rewrite Nat.eqb_refl in Hk; discriminate|]. exists (j', v); auto.
  - intros [Hjk [[j' v] [<- Hin]]]. exists (j', v). split; [reflexivity|].
    apply filter_In. split; [exact Hin|]. cbn in Hjk |- *. apply Nat.eqb_neq in Hjk. rewrite Hjk. reflexivity.
Qed.

Lemma map_delete_nodup {V} (m : list (nat * V)) (k : nat) :
  NoDup (map fst m) -> NoDup (map fst (map_delete m k)).
Proof.
  induction m as [|[k' v'] r IH]; cbn; intros H; [constructor|].
  inversion H as [|? ? Hn Hr]; subst. unfold map_delete in *. cbn.
  destruct (negb (Nat.eqb k' k)); cbn; [|auto].
  constructor; [|auto]. intros Hi. apply (map_delete_keys r k k') in Hi. tauto.
Qed.

Lemma map_delete_forall {V} (P : V -> Prop) (m : list (nat * V)) (k : nat) :
  Forall (fun kv => P (snd kv)) m -> Forall (fun kv => P (snd kv)) (map_delete m k).
Proof.
  intros H. unfold map_delete. apply Forall_forall. intros x Hx.
  apply filter_In in Hx as [Hx _]. rewrite Forall_forall in H. auto.
Qed.

(** The [pendingRequests] map of [waitForPageReady] has one entry per
    request object, never holds a URL that [shouldIgnoreRequest] ignores,
    drops a request once it gets a response or fails, and records a kept
    request (replacing an earlier entry of the same request). *)
Theorem pending_requests_map URL_parse (evs : list page_event) :
  let m := pending_after URL_parse evs in
  NoDup (map fst m) /\
  Forall (fun kv => shouldIgnoreRequest URL_parse (req_url (snd kv)) = false) m /\
  (forall id, ~ In id (map fst (pending_after URL_parse (evs ++ [PageResponse id])))) /\
  (forall id, ~ In id (map fst (pending_after URL_parse (evs ++ [PageRequestFailed id])))) /\
  (forall id url type t, shouldIgnoreRequest URL_parse url = false ->
     In (id, {| req_url := url; req_type := type; req_start := t |})
        (pending_after URL_parse (evs ++ [PageRequest id url type t]))).
Proof.
  cbv zeta. unfold pending_after.
  set (m := fold_left (pending_step URL_parse) evs []).
  assert (Hinv : NoDup (map fst m) /\
                 Forall (fun kv => shouldIgnoreRequest URL_parse (req_url (snd kv)) = false) m).
  { apply fold_left_invariant; [split; constructor|].
    intros a [id url type t|id|id] [Hn Hf]; cbn [pending_step].
    - destruct (shouldIgnoreRequest URL_parse url) eqn:E; cbn [negb]; [split; assumption|].
      split; [apply map_set_nodup; exact Hn|].
      apply (map_set_forall (fun v => shouldIgnoreRequest URL_parse (req_url v) = false));
        [exact Hf|exact E].
    - split; [apply map_delete_nodup; exact Hn|].
      apply (map_delete_forall (fun v => shouldIgnoreRequest URL_parse (req_url v) = false)); exact Hf.
    - split; [apply map_delete_nodup; exact Hn|].
      apply (map_delete_forall (fun v => shouldIgnoreRequest URL_parse (req_url v) = false)); exact Hf. }
  destruct Hinv as [Hn Hf].
  split; [exact Hn|]. split; [exact Hf|].
  split; [intros id Hi; rewrite fold_left_app in Hi; apply map_delete_keys in Hi; tauto|].
  split; [intros id Hi; rewrite fold_left_app in Hi; apply map_delete_keys in Hi; tauto|].
  intros id url type t E. rewrite fold_left_app. cbn [fold_left pending_step]. rewrite E. cbn [negb].
  fold m.
  clear. induction m as [|[k v] r IH]; cbn; [left; reflexivity|].
  destruct (Nat.eqb id k); [left; reflexivity|right; exact IH].
Qed.

Lemma pending_requests_map_witness :
  In (1%nat, {| req_url := "https://api.myapp.com/v1/orders"; req_type := "fetch"; req_start := 5 |})
     (pending_after sample_URL_parse
        ([PageRequest 1 "https://api.myapp.com/v1/orders" "xhr" 0;
          PageRequest 2 "https://www.google-analytics.com/collect" "image" 1] ++
         [PageRequest 1 "https://api.myapp.com/v1/orders" "fetch" 5])).
Proof.
  apply (proj2 (proj2 (proj2 (proj2 (pending_requests_map sample_URL_parse
           [PageRequest 1 "https://api.myapp.com/v1/orders" "xhr" 0;
            PageRequest 2 "https://www.google-analytics.com/collect" "image" 1]))))).
  vm_compute. reflexivity.
Defined.

Lemma find_open_spec (url : string) (l : list net_entry) (i : nat) :
  find_open url l = Some i ->
  (i < length l)%nat /\ end_open (nth i l default_entry) = true.
Proof.
  revert i. induction l as [|e r IH]; cbn; intros i H; [discriminate|].
  destruct (String.eqb (e_url e) url && end_open e) eqn:E.
  - injection H as <-. apply andb_prop in E. split; [lia|tauto].
  - destruct (find_open url r) as [j|] eqn:F; cbn in H; [|discriminate].
    injection H as <-. destruct (IH j eq_refl). split; [lia|assumption].
Qed.

Lemma replace_nth_length {A} (l : list A) (i : nat) (x : A) :
  length (replace_nth l i x) = length l.
Proof.
  revert i. induction l as [|y r IH]; intros [|i]; cbn; auto.
Qed.

Lemma open_count_replace (l : list net_entry) (i : nat) (x : net_entry) :
  (i < length l)%nat -> end_open (nth i l default_entry) = true -> end_open x = false ->
  (open_count (replace_nth l i x) + 1 = open_count l)%nat.
Proof.
  unfold open_count. revert i. induction l as [|y r IH]; intros [|i]; cbn; intros Hi Ho Hx;
    try lia.
  - rewrite Hx, Ho. cbn. lia.
  - destruct (end_open y); cbn; [|apply IH; auto; lia].
    rewrite <- (IH i); [lia|lia|assumption|assumption].
Qed.

Lemma open_count_app (l1 l2 : list net_entry) :
  open_count (l1 ++ l2) = (open_count l1 + open_count l2)%nat.
Proof. unfold open_count. rewrite filter_app, length_app. reflexivity. Qed.


Lemma open_count_le (l : list net_entry) : (open_count l <= length l)%nat.
Proof. unfold open_count. apply filter_length_le. Qed.

Lemma net_step_inv (lg : net_log) (ev : net_event) :
  (0 < net_event_time ev)%Z -> net_inv lg ->
  net_inv (net_step lg ev) /\
  length (log_requests (net_step lg ev)) =
    (length (log_requests lg) + if is_net_request ev then 1 else 0)%nat.
Proof.
  intros Ht [H1 H2]. destruct ev as [url method type t|url status statusText t|url errorText t];
    cbn [net_step is_net_request net_event_time] in *.
  - unfold net_inv. cbn [log_requests log_failures log_slow].
    rewrite open_count_app, length_app. cbn. lia.
  - destruct (find_open url (log_requests lg)) as [i|] eqn:F; [|split; [split; assumption|lia]].
    destruct (find_open_spec _ _ _ F) as [Hi Ho].
    match goal with |- context [replace_nth _ i ?x] => set (e' := x) end.
    assert (He : end_open e' = false).
    { unfold end_open, e'. cbn. apply Z.eqb_neq. lia. }
    pose proof (open_count_replace _ _ _ Hi Ho He) as Hc. clearbody e'.
    unfold net_inv. cbn [log_requests log_failures log_slow].
    rewrite replace_nth_length.
    split; [|lia].
    split.
    + destruct (400 <=? status)%Z; rewrite ?length_app; cbn [Datatypes.length]; lia.
    + destruct (SLOW_THRESHOLD <? _)%Z; rewrite ?length_app; cbn [Datatypes.length]; lia.
  - destruct (find_open url (log_requests lg)) as [i|] eqn:F; [|split; [split; assumption|lia]].
    destruct (find_open_spec _ _ _ F) as [Hi Ho].
    match goal with |- context [replace_nth _ i ?x] => set (e' := x) end.
    assert (He : end_open e' = false).
    { unfold end_open, e'. cbn. apply Z.eqb_neq. lia. }
    pose proof (open_count_replace _ _ _ Hi Ho He) as Hc. clearbody e'.
    unfold net_inv. cbn [log_requests log_failures log_slow].
    rewrite replace_nth_length, length_app. cbn [Datatypes.length]. lia.
Qed.

(** With positive timestamps, [totalRequests] of the network logger's
    [getSummary()] counts the request events, and neither
    [failedRequests] nor [slowRequests] exceeds the number of requests
    that have ended (got a response or failed). *)
Theorem networkLogger_counts (evs : list net_event) :
  Forall (fun ev => (0 < net_event_time ev)%Z) evs ->
  let lg := net_run evs in
  let s := getSummary lg in
  totalRequests s = length (filter is_net_request evs) /\
  (failedRequests s + open_count (log_requests lg) <= totalRequests s)%nat /\
  (slowRequests s + open_count (log_requests lg) <= totalRequests s)%nat.
Proof.
  intros Hpos. cbv zeta. unfold net_run, getSummary. cbn [totalRequests failedRequests slowRequests].
  assert (G : forall lg, net_inv lg ->
            net_inv (fold_left net_step evs lg) /\
            length (log_requests (fold_left net_step evs lg)) =
              (length (log_requests lg) + length (filter is_net_request evs))%nat).
  { induction evs as [|ev evs IH]; cbn [fold_left filter]; intros lg Hlg.
    - split; [exact Hlg|cbn [List.filter Datatypes.length]; lia].
    - inversion Hpos as [|? ? Hev Hrest]; subst.
      destruct (net_step_inv lg ev Hev Hlg) as [Hi Hl].
      destruct (IH Hrest _ Hi) as [Hi' Hl']. split; [exact Hi'|].
      rewrite Hl', Hl. destruct (is_net_request ev); cbn; lia. }
  destruct (G empty_net_log) as [[H1 H2] Hl]; [unfold net_inv; cbn; lia|].
  rewrite Hl in *. cbn in *. split; [reflexivity|]. split; assumption.
Qed.

Lemma networkLogger_counts_witness :
  getSummary (net_run [NetRequest "https://a.test/api" "GET" "fetch" 1000;
                       NetRequest "https://a.test/api" "GET" "fetch" 5000;
                       NetResponse "https://a.test/api" 500 "Server Error" 5100]) =
    {| totalRequests := 2; failedRequests := 1; slowRequests := 1;
       failures := [{| f_url := "https://a.test/api"; f_method := "GET"; f_status := Some 500%Z;
                       f_error := None; f_duration := Some 4100%Z |}];
       slow := [("https://a.test/api", Some 4100%Z)] |} /\
  (1 + 1 <= 2)%nat.
Proof.
  split; [vm_compute; reflexivity|].
  exact (proj1 (proj2 (networkLogger_counts
           [NetRequest "https://a.test/api" "GET" "fetch" 1000;
            NetRequest "https://a.test/api" "GET" "fetch" 5000;
            NetResponse "https://a.test/api" 500 "Server Error" 5100]
           ltac:(repeat constructor)))).
Defined.

Lemma entry_of_existsIn (d : directory) (f : string) :
  existsIn d f = true <-> exists v, entry_of d f = Some v.
Proof.
  unfold existsIn, entry_of. induction d as [|[g v] r IH]; cbn.
  - split; [discriminate|intros [v H]; discriminate].
  - destruct (String.eqb g f); cbn; [split; eauto|exact IH].
Qed.

Lemma find_app_first {A} (p : A -> bool) (l1 l2 : list A) :
  find p (l1 ++ l2) = match find p l1 with Some x => Some x | None => find p l2 end.
Proof.
  induction l1 as [|x r IH]; cbn; [reflexivity|]. destruct (p x); [reflexivity|exact IH].
Qed.

Lemma entry_of_replace (d : directory) (f g : string) (v : option png_image) :
  entry_of (map (fun e => if String.eqb (fst e) f then (f, v) else e) d) g =
  if String.eqb g f then (if existsIn d f then Some v else None) else entry_of d g.
Proof.
  unfold entry_of, existsIn. induction d as [|[h w] r IH]; cbn.
  - destruct (String.eqb g f); reflexivity.
  - destruct (String.eqb h f) eqn:Ehf; cbn.
    + apply String.eqb_eq in Ehf. subst h. rewrite (String.eqb_sym f g).
      destruct (String.eqb g f) eqn:Egf; [reflexivity|].
      rewrite IH; rewrite ?Egf; reflexivity.
    + destruct (String.eqb h g) eqn:Ehg.
      * apply String.eqb_eq in Ehg. subst h. first [rewrite Ehf | rewrite String.eqb_sym, Ehf]; reflexivity.
      * rewrite IH. reflexivity.
Qed.

Lemma entry_of_dir_put (d : directory) (f g : string) (v : option png_image) :
  entry_of (dir_put d f v) g = if String.eqb g f then Some v else entry_of d g.
Proof.
  unfold dir_put. destruct (existsIn d f) eqn:Ex.
  - rewrite entry_of_replace, Ex. reflexivity.
  - unfold entry_of. rewrite find_app_first.
    destruct (String.eqb g f) eqn:Egf.
    + apply String.eqb_eq in Egf. subst g.
      destruct (find (fun e => String.eqb (fst e) f) d) as [[h w]|] eqn:F.
      * apply find_some in F as [Hin Heq]. exfalso.
        assert (existsIn d f = true) as Ht
          by (apply existsb_exists; exists (h, w); auto). congruence.
      * cbn. rewrite String.eqb_refl. reflexivity.
    + destruct (find (fun e => String.eqb (fst e) g) d) as [[h w]|]; [reflexivity|].
      cbn. rewrite String.eqb_sym, Egf. reflexivity.
Qed.

Lemma existsIn_dir_put (d : directory) (f g : string) (v : option png_image) :
  existsIn (dir_put d f v) g = String.eqb g f || existsIn d g.
Proof.
  destruct (existsIn (dir_put d f v) g) eqn:E1, (String.eqb g f || existsIn d g) eqn:E2;
    try reflexivity; exfalso.
  - apply entry_of_existsIn in E1 as [w Hw]. rewrite entry_of_dir_put in Hw.
    apply orb_false_iff in E2 as [E2 E3]. rewrite E2 in Hw.
    assert (existsIn d g = true) by (apply entry_of_existsIn; eauto). congruence.
  - apply orb_true_iff in E2 as [E2|E2].
    + assert (existsIn (dir_put d f v) g = true)
        by (apply entry_of_existsIn; rewrite entry_of_dir_put, E2; eauto). congruence.
    + apply entry_of_existsIn in E2 as [w Hw].
      assert (existsIn (dir_put d f v) g = true); [|congruence].
      apply entry_of_existsIn. rewrite entry_of_dir_put.
      destruct (String.eqb g f); eauto.
Qed.

Lemma update_loop_facts (cur : directory) (ow : bool) (files : list string) :
  forall b c0 s0 b' c s,
  update_loop cur ow files b c0 s0 = (b', c, s) ->
  (c + s = c0 + s0 + length files)%nat /\
  (ow = true -> s = s0) /\
  (forall g, ~ In g files -> entry_of b' g = entry_of b g) /\
  (ow = true -> forall f, In f files ->
     entry_of b' f = Some (match entry_of cur f with Some v => v | None => None end)) /\
  (ow = false -> forall f, existsIn b f = true -> entry_of b' f = entry_of b f).
Proof.
  induction files as [|file rest IH]; intros b c0 s0 b' c s H; cbn [update_loop] in H.
  - injection H as <- <- <-. cbn. repeat split; intros; try lia; try tauto.
  - destruct (negb ow && existsIn b file) eqn:Hs.
    + apply andb_prop in Hs as [Hw He]. destruct ow; [discriminate|].
      destruct (IH _ _ _ _ _ _ H) as [H1 [H2 [H3 [H4 H5]]]].
      split; [cbn; lia|]. split; [discriminate|]. split.
      * intros g Hg. apply H3. intros Hin. apply Hg. right. exact Hin.
      * split; [discriminate|]. intros _ f Hf. apply H5; auto.
    + set (v := match entry_of cur file with Some v => v | None => None end) in H.
      destruct (IH _ _ _ _ _ _ H) as [H1 [H2 [H3 [H4 H5]]]].
      split; [cbn; lia|]. split; [intros Hw; apply H2, Hw|]. split; [|split].
      * intros g Hg. rewrite H3 by (intros Hin; apply Hg; right; exact Hin).
        rewrite entry_of_dir_put. destruct (String.eqb g file) eqn:E; [|reflexivity].
        apply String.eqb_eq in E. subst. exfalso. apply Hg. left. reflexivity.
      * intros Hw f [<-|Hf]; [|apply H4; auto].
        destruct (in_dec string_dec file rest) as [Hr|Hr]; [apply H4; auto|].
        rewrite H3 by exact Hr. rewrite entry_of_dir_put, String.eqb_refl. reflexivity.
      * intros Hw f Hf. subst ow. cbn in Hs.
        rewrite (H5 eq_refl f) by (rewrite existsIn_dir_put, Hf, orb_true_r; reflexivity).
        rewrite entry_of_dir_put. destruct (String.eqb f file) eqn:E; [|reflexivity].
        apply String.eqb_eq in E. subst. congruence.
Qed.

Lemma png_names_entry (cur : directory) (f : string) :
  In f (png_names cur) -> exists v, entry_of cur f = Some v.
Proof.
  intros H. apply entry_of_existsIn. unfold png_names in H.
  apply filter_In in H as [H _]. apply in_map_iff in H as [[g v] [<- Hin]].
  apply existsb_exists. exists (g, v). split; [exact Hin|apply String.eqb_refl].
Qed.

(** [updateBaseline] throws when the current directory does not exist;
    otherwise [copied + skipped = total], the number of PNG names of the
    current run; entries of the baseline that are not such names are left
    as they were; with [overwrite] (the default) nothing is skipped and
    every current PNG ends up in the baseline with the current content;
    without it a file already in the baseline keeps its content. *)
Theorem updateBaseline_effect (current : option directory) (baseline : directory)
    (overwrite : bool) :
  (current = None -> updateBaseline current baseline overwrite = None) /\
  (forall cur baseline' u, current = Some cur ->
     updateBaseline current baseline overwrite = Some (baseline', u) ->
     (copied u + skipped u = update_total u)%nat /\
     update_total u = length (png_names cur) /\
     (forall g, ~ In g (png_names cur) -> entry_of baseline' g = entry_of baseline g) /\
     (overwrite = true -> skipped u = 0%nat /\
        forall f, In f (png_names cur) -> entry_of baseline' f = entry_of cur f) /\
     (overwrite = false -> forall f, existsIn baseline f = true ->
        entry_of baseline' f = entry_of baseline f)).
Proof.
  split; [intros ->; reflexivity|].
  intros cur b' u -> H. unfold updateBaseline in H.
  destruct (update_loop cur overwrite (png_names cur) baseline 0 0) as [[b2 c] s] eqn:E.
  injection H as <- <-. cbn [copied skipped update_total].
  destruct (update_loop_facts _ _ _ _ _ _ _ _ _ E) as [H1 [H2 [H3 [H4 H5]]]].
  split; [lia|]. split; [reflexivity|]. split; [exact H3|]. split; [|exact H5].
  intros Hw. split; [apply H2, Hw|]. intros f Hf. rewrite (H4 Hw f Hf).
  destruct (png_names_entry cur f Hf) as [v ->]. reflexivity.
Qed.

Lemma updateBaseline_effect_witness :
  updateBaseline (Some sample_current) sample_baseline false =
    Some (sample_baseline ++ [("c.png", Some sample_image)],
          {| copied := 1; skipped := 1; update_total := 2 |}) /\
  (1 + 1 = 2)%nat.
Proof.
  assert (E : updateBaseline (Some sample_current) sample_baseline false =
    Some (sample_baseline ++ [("c.png", Some sample_image)],
          {| copied := 1; skipped := 1; update_total := 2 |})) by (vm_compute; reflexivity).
  split; [exact E|].
  exact (proj1 (proj2 (updateBaseline_effect (Some sample_current) sample_baseline false)
           sample_current _ _ eq_refl E)).
Defined.

Lemma updateBaseline_copies (cur baseline baseline' : directory) (u : update_summary) :
  updateBaseline (Some cur) baseline true = Some (baseline', u) ->
  forall f, In f (png_names cur) -> entry_of baseline' f = entry_of cur f.
Proof.
  intros H f Hf. unfold updateBaseline in H.
  destruct (update_loop cur true (png_names cur) baseline 0 0) as [[b2 c] s] eqn:E.
  injection H as <- _.
  destruct (update_loop_facts _ _ _ _ _ _ _ _ _ E) as [_ [_ [_ [H4 _]]]].
  rewrite (H4 eq_refl f Hf). destruct (png_names_entry cur f Hf) as [v ->]. reflexivity.
Qed.

Lemma readPng_entry_of (d : directory) (f : string) :
  readPng d f = match entry_of d f with Some v => v | None => None end.
Proof. unfold readPng, entry_of. destruct (find _ d) as [[g v]|]; reflexivity. Qed.

Lemma compare_loop_passed_missing pm b c t ft (files : list string) (cnt : counters) :
  (forall f, In f files -> compare_file pm b c t ft f = Some Passed \/
                           compare_file pm b c t ft f = Some Missing) ->
  exists results c',
    compare_loop pm b c t ft files cnt = Some (results, c') /\
    c_failed c' = c_failed cnt /\ c_new c' = c_new cnt /\
    (forall f st, In (f, st) results -> compare_file pm b c t ft f = Some st).
Proof.
  revert cnt. induction files as [|f rest IH]; intros cnt H; cbn [compare_loop].
  - exists [], cnt. repeat split. intros ? ? [].
  - assert (Hf : compare_file pm b c t ft f = Some Passed \/
                 compare_file pm b c t ft f = Some Missing) by (apply H; left; reflexivity).
    assert (Hr : forall g, In g rest -> compare_file pm b c t ft g = Some Passed \/
                                         compare_file pm b c t ft g = Some Missing)
      by (intros g Hg; apply H; right; exact Hg).
    destruct Hf as [Hf|Hf]; rewrite Hf.
    + destruct (IH (bump Passed cnt) Hr) as [results [c' [E [E1 [E2 E3]]]]]; rewrite E.
      exists ((f, Passed) :: results), c'. cbn in E1, E2.
      split; [reflexivity|]. split; [exact E1|]. split; [exact E2|].
      intros g st [Heq|Hin]; [injection Heq as <- <-; exact Hf| apply E3; exact Hin].
    + destruct (IH (bump Missing cnt) Hr) as [results [c' [E [E1 [E2 E3]]]]]; rewrite E.
      exists ((f, Missing) :: results), c'. cbn in E1, E2.
      split; [reflexivity|]. split; [exact E1|]. split; [exact E2|].
      intros g st [Heq|Hin]; [injection Heq as <- <-; exact Hf| apply E3; exact Hin].
Qed.

(** After [updateBaseline] with [overwrite] from a current run whose PNG
    files all decode, comparing that run against the updated baseline
    (with a pixel comparison that finds no difference between an image
    and itself, and [failThreshold >= 0]) completes with no failed and no
    new file: every current PNG is [passed] and every other result is
    [missing]. *)
Theorem update_then_compare pm (current baseline baseline' : directory) (u : update_summary)
    (threshold failThreshold : Q) :
  updateBaseline (Some current) baseline true = Some (baseline', u) ->
  (forall f, In f (png_names current) -> exists img, readPng current f = Some img) ->
  (forall img t, pm img img t = 0%Z) ->
  0 <= failThreshold ->
  exists summ results,
    compareDirectories pm baseline' current threshold failThreshold = Some (summ, results) /\
    failed summ = 0%nat /\ new_images summ = 0%nat /\
    (forall f, In f (png_names current) -> In (f, Passed) results) /\
    (forall f st, In (f, st) results -> st = Passed \/ st = Missing).
Proof.
  intros Hu Hdec Hpm Hft.
  pose proof (updateBaseline_copies current baseline baseline' u Hu) as Hcopy.
  assert (Hcur : forall f, In f (png_names current) ->
            compare_file pm baseline' current threshold failThreshold f = Some Passed).
  { intros f Hf. destruct (Hdec f Hf) as [img Himg].
    destruct (png_names_entry current f Hf) as [v Hv].
    unfold compare_file.
    rewrite (proj2 (entry_of_existsIn baseline' f)) by (rewrite Hcopy by exact Hf; eauto).
    rewrite (proj2 (entry_of_existsIn current f)) by eauto. cbn [negb].
    rewrite Himg, readPng_entry_of, Hcopy, <- readPng_entry_of, Himg by exact Hf.
    destruct (zero_diff_not_over pm img img threshold failThreshold Hft (Hpm img threshold)
                eq_refl eq_refl) as [pct [-> ->]]. reflexivity. }
  assert (Hall : forall f, In f (allFiles baseline' current) ->
            compare_file pm baseline' current threshold failThreshold f = Some Passed \/
            compare_file pm baseline' current threshold failThreshold f = Some Missing).
  { intros f Hf. unfold allFiles in Hf. apply set_add_all_In in Hf as [[]|Hf].
    apply in_app_or in Hf as [Hf|Hf]; [|left; apply Hcur; exact Hf].
    destruct (in_dec string_dec f (png_names current)) as [Hc|Hc]; [left; apply Hcur; exact Hc|].
    right. unfold compare_file.
    assert (existsIn baseline' f = true) as ->.
    { unfold png_names in Hf. apply filter_In in Hf as [Hf _].
      apply in_map_iff in Hf as [[g v] [<- Hin]]. apply existsb_exists. exists (g, v).
      split; [exact Hin|apply String.eqb_refl]. }
    assert (existsIn current f = false) as ->.
    { destruct (existsIn current f) eqn:E; [|reflexivity]. exfalso. apply Hc.
      unfold png_names. apply filter_In. split.
      - apply existsb_exists in E as [[g v] [Hin Hg]]. apply String.eqb_eq in Hg. cbn in Hg.
        subst g. apply in_map_iff. exists (f, v). auto.
      - unfold png_names in Hf. apply filter_In in Hf. tauto. }
    reflexivity. }
  destruct (compare_loop_passed_missing pm baseline' current threshold failThreshold
              (allFiles baseline' current) {| c_passed := 0; c_failed := 0; c_missing := 0; c_new := 0 |}
              Hall) as [results [c' [E [E1 [E2 E3]]]]].
  unfold compareDirectories. rewrite E. do 2 eexists. split; [reflexivity|].
  cbn [failed new_images]. split; [exact E1|]. split; [exact E2|]. split.
  - intros f Hf.
    destruct (compare_loop_spec pm baseline' current threshold failThreshold _ _ _ _ E)
      as [Hmap _].
    assert (Hin : In f (map fst results)).
    { rewrite Hmap. unfold allFiles. apply set_add_all_In. right. apply in_or_app. right. exact Hf. }
    apply in_map_iff in Hin as [[g st] [Hg Hin]]. cbn in Hg. subst g.
    pose proof (E3 f st Hin) as Hst. rewrite (Hcur f Hf) in Hst. injection Hst as <-. exact Hin.
  - intros f st Hin. pose proof (E3 f st Hin) as Hst.
    destruct (compare_loop_spec pm baseline' current threshold failThreshold _ _ _ _ E)
      as [Hmap _].
    assert (Hf : In f (allFiles baseline' current))
      by (rewrite <- Hmap; apply in_map_iff; exists (f, st); auto).
    destruct (Hall f Hf) as [H|H]; rewrite H in Hst; injection Hst as <-; auto.
Qed.

Lemma update_then_compare_witness :
  exists summ results,
    compareDirectories no_diff (sample_baseline ++ [("c.png", Some sample_image)]) sample_current
      (1 # 10) (1 # 2) = Some (summ, results) /\
    failed summ = 0%nat /\ new_images summ = 0%nat /\
    (forall f, In f (png_names sample_current) -> In (f, Passed) results) /\
    (forall f st, In (f, st) results -> st = Passed \/ st = Missing).
Proof.
  apply (update_then_compare no_diff sample_current sample_baseline
           (sample_baseline ++ [("c.png", Some sample_image)])
           {| copied := 2; skipped := 0; update_total := 2 |}).
  - vm_compute. reflexivity.
  - intros f Hf. vm_compute in Hf. destruct Hf as [<-|[<-|[]]]; eexists; vm_compute; reflexivity.
  - intros img t. reflexivity.
  - vm_compute. discriminate.
Defined.

(** *** Benchmark scoring and the [main] command *)

Lemma lower_chr_idem (c : ascii) : lower_chr (lower_chr c) = lower_chr c.
Proof.
  destruct c as [[] [] [] [] [] [] [] []]; vm_compute; reflexivity.
Qed.

Lemma toLowerCase_idem (s : string) : toLowerCase (toLowerCase s) = toLowerCase s.
Proof.
  induction s as [|c t IH]; cbn [toLowerCase]; [reflexivity|].
  rewrite lower_chr_idem, IH. reflexivity.
Qed.

Lemma keywords_empty_match (actual expected : string) :
  keywords expected = [] -> matchDescription actual expected = true.
Proof.
  intros H. unfold matchDescription. rewrite H. reflexivity.
Qed.

(** X16.  Scoring against an issues array: adding issues (before or
    after) never turns a detected case into an undetected one; a list of
    expected entries is detected iff each part of it is; when no expected
    description has a keyword, the case is detected iff there are no
    expected entries or at least one issue; and the fuzzy description
    match ignores the letter case of both texts. *)
Theorem scoreResult_issue_monotone :
  (forall (l l' : list issue) (exps : list expected_issue),
     detected (scoreResult (Some {| issues := IssuesArray l |}) exps) = true ->
     detected (scoreResult (Some {| issues := IssuesArray (l ++ l') |}) exps) = true /\
     detected (scoreResult (Some {| issues := IssuesArray (l' ++ l) |}) exps) = true) /\
  (forall (l : list issue) (exps1 exps2 : list expected_issue),
     detected (scoreResult (Some {| issues := IssuesArray l |}) (exps1 ++ exps2)) =
     detected (scoreResult (Some {| issues := IssuesArray l |}) exps1)
     && detected (scoreResult (Some {| issues := IssuesArray l |}) exps2)) /\
  (forall (l : list issue) (exps : list expected_issue),
     Forall (fun e => keywords (exp_description e) = []) exps ->
     detected (scoreResult (Some {| issues := IssuesArray l |}) exps) =
     match exps, l with [], _ => true | _, [] => false | _, _ => true end) /\
  (forall actual expected : string,
     matchDescription (toLowerCase actual) expected = matchDescription actual expected /\
     matchDescription actual (toLowerCase expected) = matchDescription actual expected).
Proof.
  split; [|split; [|split]].
  - intros l l' exps. cbn [scoreResult issues detected].
    rewrite !forallb_forall. intros H. split; intros e He;
      specialize (H e He); apply existsb_exists in H; destruct H as [i [Hi Hm]];
      apply existsb_exists; exists i; split; auto; apply in_or_app; auto.
  - intros l e1 e2. cbn [scoreResult issues detected]. apply forallb_app.
  - intros l exps H. cbn [scoreResult issues detected].
    destruct exps as [|e r]; [reflexivity|].
    assert (Hall : forall i x, In x (e :: r) -> issue_matches i x = true).
    { intros i x Hx. rewrite Forall_forall in H. unfold issue_matches.
      rewrite keywords_empty_match by (apply H; exact Hx). reflexivity. }
    destruct l as [|i l].
    + reflexivity.
    + apply forallb_forall. intros x Hx. cbn [existsb]. rewrite (Hall i x Hx). reflexivity.
  - intros a e. unfold matchDescription, keywords. rewrite !toLowerCase_idem. split; reflexivity.
Qed.

Lemma scoreResult_issue_monotone_witness :
  Forall (fun e => keywords (exp_description e) = [])
    [{| exp_description := "a bug"; exp_category := Some "x"; exp_severity := None |}] /\
  detected (scoreResult (Some {| issues := IssuesArray
    [{| description := None; message := None; category := None; severity := None |}] |})
    [{| exp_description := "a bug"; exp_category := Some "x"; exp_severity := None |}]) = true.
Proof.
  assert (H : Forall (fun e => keywords (exp_description e) = [])
    [{| exp_description := "a bug"; exp_category := Some "x"; exp_severity := None |}])
    by (constructor; [vm_compute; reflexivity | constructor]).
  split; [exact H|].
  rewrite (proj1 (proj2 (proj2 scoreResult_issue_monotone)) _ _ H). reflexivity.
Defined.

Lemma split_chars_length (p : ascii -> bool) (s : string) :
  length (split_chars p s) = S (count_chars p s).
Proof.
  induction s as [|c t IH]; cbn [split_chars count_chars]; [reflexivity|].
  destruct (p c); cbn [length]; [rewrite IH; reflexivity|].
  destruct (split_chars p t) as [|x r]; cbn [length] in *; [discriminate|]. lia.
Qed.

Lemma is_js_space_lower (c : ascii) : is_js_space (lower_chr c) = is_js_space c.
Proof. destruct c as [[] [] [] [] [] [] [] []]; vm_compute; reflexivity. Qed.

Lemma toLowerCase_app (a b : string) :
  toLowerCase (a ++ b)%string = (toLowerCase a ++ toLowerCase b)%string.
Proof. induction a as [|c t IH]; cbn; [reflexivity|]. rewrite IH. reflexivity. Qed.

Lemma rev_string_toLowerCase (s : string) :
  rev_string (toLowerCase s) = toLowerCase (rev_string s).
Proof.
  induction s as [|c t IH]; cbn [toLowerCase rev_string]; [reflexivity|].
  rewrite IH, toLowerCase_app. reflexivity.
Qed.

Lemma trim_start_toLowerCase (s : string) :
  trim_start (toLowerCase s) = toLowerCase (trim_start s).
Proof.
  induction s as [|c t IH]; cbn [toLowerCase trim_start]; [reflexivity|].
  rewrite is_js_space_lower. destruct (is_js_space c); [exact IH|reflexivity].
Qed.

Lemma trim_toLowerCase (s : string) : trim (toLowerCase s) = toLowerCase (trim s).
Proof.
  unfold trim. rewrite trim_start_toLowerCase, rev_string_toLowerCase,
    trim_start_toLowerCase, rev_string_toLowerCase. reflexivity.
Qed.

Lemma trim_start_starts_ok (s : string) : starts_ok (trim_start s).
Proof.
  induction s as [|c t IH]; cbn [trim_start]; [exact I|].
  destruct (is_js_space c) eqn:E; [exact IH|exact E].
Qed.

Lemma trim_start_id (s : string) : starts_ok s -> trim_start s = s.
Proof. destruct s as [|c t]; cbn; [reflexivity|]. intros ->. reflexivity. Qed.

Lemma starts_ok_app (a b : string) :
  a <> EmptyString -> starts_ok (a ++ b)%string <-> starts_ok a.
Proof. destruct a; cbn; [congruence|tauto]. Qed.

Lemma string_app_nil_r (s : string) : (s ++ EmptyString)%string = s.
Proof. induction s as [|c t IH]; cbn; [reflexivity|]. rewrite IH. reflexivity. Qed.

Lemma string_app_assoc (a b c : string) : (a ++ (b ++ c))%string = ((a ++ b) ++ c)%string.
Proof. induction a as [|x t IH]; cbn; [reflexivity|]. rewrite IH. reflexivity. Qed.

Lemma rev_string_app (a b : string) :
  rev_string (a ++ b)%string = (rev_string b ++ rev_string a)%string.
Proof.
  induction a as [|c t IH]; cbn [rev_string append].
  - rewrite string_app_nil_r. reflexivity.
  - rewrite IH. rewrite <- string_app_assoc. reflexivity.
Qed.

Lemma rev_string_involutive (s : string) : rev_string (rev_string s) = s.
Proof.
  induction s as [|c t IH]; cbn [rev_string]; [reflexivity|].
  rewrite rev_string_app, IH. reflexivity.
Qed.

(** Dropping leading white space from [x] keeps the first character of
    its reverse when that one is not white space. *)
Lemma trim_start_rev_ok (x : string) :
  starts_ok (rev_string x) -> starts_ok (rev_string (trim_start x)).
Proof.
  induction x as [|c t IH]; cbn [trim_start rev_string]; intros H; [exact I|].
  destruct (is_js_space c) eqn:E; [|exact H].
  apply IH. destruct (String.eqb_spec (rev_string t) EmptyString) as [Et|Et].
  - rewrite Et in H. cbn in H. congruence.
  - exact (proj1 (starts_ok_app _ _ Et) H).
Qed.

Lemma trim_idem (s : string) : trim (trim s) = trim s.
Proof.
  unfold trim at 2 3. set (w := trim_start (rev_string (trim_start s))).
  assert (Hw : starts_ok (rev_string w)).
  { unfold w. apply trim_start_rev_ok. rewrite rev_string_involutive.
    apply trim_start_starts_ok. }
  unfold trim. rewrite (trim_start_id _ Hw), rev_string_involutive.
  unfold w. rewrite (trim_start_id _ (trim_start_starts_ok _)). reflexivity.
Qed.

(** X17.  [main] exits without a URL (from [URL], else [INPUT_URL]);
    otherwise every viewport name it passes on is already trimmed and
    lowercase, there is one name per comma-separated piece of the raw
    value (empty pieces included), and with neither viewport variable
    set to a non-empty value the names are desktop and mobile. *)
Theorem main_config_viewports (env : env_t) :
  (main_config_of env = None <->
   truthy (env_get env "URL") = false /\ truthy (env_get env "INPUT_URL") = false) /\
  (forall c, main_config_of env = Some c ->
     m_url c = or_str (or_opt (env_get env "URL") (env_get env "INPUT_URL")) EmptyString /\
     Forall (fun v => trim v = v /\ toLowerCase v = v) (m_viewports c) /\
     length (m_viewports c) =
       S (count_chars is_comma
            (or_str (or_opt (env_get env "VIEWPORTS") (env_get env "INPUT_VIEWPORTS"))
                    "desktop,mobile")) /\
     (truthy (env_get env "VIEWPORTS") = false -> truthy (env_get env "INPUT_VIEWPORTS") = false ->
      m_viewports c = ["desktop"; "mobile"])).
Proof.
  unfold main_config_of. split.
  - unfold or_opt. destruct (truthy (env_get env "URL")) eqn:E1.
    + rewrite E1. split; [discriminate|intros [H _]; discriminate].
    + destruct (truthy (env_get env "INPUT_URL")); split; intros H;
        try discriminate; try tauto; destruct H; discriminate.
  - intros c. destruct (truthy (or_opt (env_get env "URL") (env_get env "INPUT_URL")));
      [|discriminate].
    intros H. injection H as <-. cbn [m_url m_viewports]. split; [reflexivity|].
    unfold parse_viewports. split; [|split].
    + apply Forall_forall. intros v Hv. apply in_map_iff in Hv.
      destruct Hv as [x [<- _]]. split.
      * rewrite trim_toLowerCase, trim_idem. reflexivity.
      * apply toLowerCase_idem.
    + rewrite length_map. apply split_chars_length.
    + intros H1 H2. unfold or_opt. rewrite H1.
      destruct (env_get env "INPUT_VIEWPORTS") as [s|]; cbn [or_str].
      * cbn [truthy] in H2. apply negb_false_iff in H2. rewrite H2. reflexivity.
      * reflexivity.
Qed.

(** X18.  The report files [main] saves: [qa-report.json] for the
    formats json and all, [qa-report.md] for markdown and all, none for
    any other value; the report file named in the GitHub output is one of
    the saved files exactly for those three formats. *)
Theorem main_saved_reports (outputFormat : string) :
  (In "qa-report.json" (saved_reports outputFormat) <->
     outputFormat = "json" \/ outputFormat = "all") /\
  (In "qa-report.md" (saved_reports outputFormat) <->
     outputFormat = "markdown" \/ outputFormat = "all") /\
  (In (report_output_file outputFormat) (saved_reports outputFormat) <->
     outputFormat = "json" \/ outputFormat = "markdown" \/ outputFormat = "all").
Proof.
  unfold saved_reports, report_output_file.
  destruct (String.eqb_spec outputFormat "json") as [->|Hj]; [cbn; intuition congruence|].
  destruct (String.eqb_spec outputFormat "all") as [->|Ha]; [cbn; intuition congruence|].
  destruct (String.eqb_spec outputFormat "markdown") as [->|Hm]; [cbn; intuition congruence|].
  cbn [orb app In]. intuition congruence.
Qed.

Lemma main_config_viewports_witness :
  main_config_of [("URL", "http://localhost"); ("INPUT_VIEWPORTS", " Mobile,, TABLET ")] =
    Some {| m_url := "http://localhost"; m_viewports := ["mobile"; EmptyString; "tablet"];
            m_focus := "all"; m_outputFormat := "markdown" |} /\
  length (m_viewports {| m_url := "http://localhost"; m_viewports := ["mobile"; EmptyString; "tablet"];
            m_focus := "all"; m_outputFormat := "markdown" |}) = 3%nat.
Proof.
  assert (E : main_config_of [("URL", "http://localhost"); ("INPUT_VIEWPORTS", " Mobile,, TABLET ")] =
    Some {| m_url := "http://localhost"; m_viewports := ["mobile"; EmptyString; "tablet"];
            m_focus := "all"; m_outputFormat := "markdown" |}) by (vm_compute; reflexivity).
  split; [exact E|].
  rewrite (proj1 (proj2 (proj2 (proj2 (main_config_viewports _) _ E)))). vm_compute. reflexivity.
Defined.

(** *** Arguments of [runReview] *)

Lemma parse_review_args_cons2 (a b : string) (r : list string) (o : review_options) :
  parse_review_args (a :: b :: r) o =
    if String.eqb a "--base" && negb (String.eqb b EmptyString) then
      parse_review_args r
        {| opt_base := Some b; opt_focus := opt_focus o; opt_json := opt_json o; opt_pr := opt_pr o |}
    else if String.eqb a "--focus" && negb (String.eqb b EmptyString) then
      parse_review_args r
        {| opt_base := opt_base o; opt_focus := Some b; opt_json := opt_json o; opt_pr := opt_pr o |}
    else parse_review_args (b :: r) (single_arg a o).
Proof. reflexivity. Qed.

Lemma parse_review_args_facts (n : nat) :
  forall (args : list string) (o : review_options), (length args <= n)%nat ->
  let o' := parse_review_args args o in
  (forall b, opt_base o' = Some b -> opt_base o = Some b \/
     (b <> EmptyString /\ exists pre post, args = pre ++ "--base" :: b :: post)) /\
  (forall f, opt_focus o' = Some f -> opt_focus o = Some f \/
     (f <> EmptyString /\ exists pre post, args = pre ++ "--focus" :: f :: post)) /\
  (forall s, opt_pr o' = Some s -> opt_pr o = Some s \/ (all_digits s = true /\ In s args)) /\
  (~ In "--base" args -> ~ In "--focus" args ->
     o' = {| opt_base := opt_base o; opt_focus := opt_focus o;
             opt_json := opt_json o || existsb (String.eqb "--json") args;
             opt_pr := fold_left (fun acc a => if all_digits a then Some a else acc) args (opt_pr o) |}).
Proof.
  induction n as [|n IH]; intros args o Hlen o'.
  - destruct args; [|cbn in Hlen; lia].
    subst o'. cbn. repeat split; auto. intros _ _. rewrite orb_false_r. destruct o; reflexivity.
  - destruct args as [|a rest].
    + subst o'. cbn. repeat split; auto. intros _ _. rewrite orb_false_r. destruct o; reflexivity.
    + cbn in Hlen.
      (* the one-argument branches, shared by both shapes of [rest] *)
      assert (Single : let o1 := parse_review_args rest (single_arg a o) in
        (forall b, opt_base o1 = Some b -> opt_base o = Some b \/
           (b <> EmptyString /\ exists pre post, a :: rest = pre ++ "--base" :: b :: post)) /\
        (forall f, opt_focus o1 = Some f -> opt_focus o = Some f \/
           (f <> EmptyString /\ exists pre post, a :: rest = pre ++ "--focus" :: f :: post)) /\
        (forall s, opt_pr o1 = Some s -> opt_pr o = Some s \/ (all_digits s = true /\ In s (a :: rest))) /\
        (~ In "--base" (a :: rest) -> ~ In "--focus" (a :: rest) ->
           o1 = {| opt_base := opt_base o; opt_focus := opt_focus o;
                   opt_json := opt_json o || existsb (String.eqb "--json") (a :: rest);
                   opt_pr := fold_left (fun acc a => if all_digits a then Some a else acc)
                               (a :: rest) (opt_pr o) |})).
      { intros o1. destruct (IH rest (single_arg a o) ltac:(lia)) as (Hb & Hf & Hp & Hn).
        assert (Eb : opt_base (single_arg a o) = opt_base o)
          by (unfold single_arg; destruct (String.eqb a "--json"), (all_digits a); reflexivity).
        assert (Ef : opt_focus (single_arg a o) = opt_focus o)
          by (unfold single_arg; destruct (String.eqb a "--json"), (all_digits a); reflexivity).
        split; [|split; [|split]].
        - intros b H. destruct (Hb b H) as [H'|[Hne [pre [post ->]]]].
          + left. rewrite <- Eb. exact H'.
          + right. split; [exact Hne|]. exists (a :: pre), post. reflexivity.
        - intros f H. destruct (Hf f H) as [H'|[Hne [pre [post ->]]]].
          + left. rewrite <- Ef. exact H'.
          + right. split; [exact Hne|]. exists (a :: pre), post. reflexivity.
        - intros s H. destruct (Hp s H) as [H'|[Hd Hin]]; [|right; split; [exact Hd|right; exact Hin]].
          unfold single_arg in H'.
          destruct (String.eqb a "--json"); [left; exact H'|].
          destruct (all_digits a) eqn:Ed; [|left; exact H'].
          cbn in H'. injection H' as <-. right. split; [exact Ed|left; reflexivity].
        - intros Nb Nf. unfold o1. rewrite Hn; [|intros Hi; apply Nb; right; exact Hi|intros Hi; apply Nf; right; exact Hi].
          cbn [existsb fold_left]. unfold single_arg.
          destruct (String.eqb_spec a "--json") as [->|Hj].
          + cbn. rewrite orb_true_r. reflexivity.
          + rewrite (proj2 (String.eqb_neq "--json" a) (fun e => Hj (eq_sym e))). cbn [orb].
            destruct (all_digits a); cbn; reflexivity. }
      destruct rest as [|b r].
      * subst o'. exact Single.
      * cbn [length] in Hlen. subst o'. rewrite parse_review_args_cons2.
        destruct (String.eqb_spec a "--base") as [->|Hab];
          [destruct (String.eqb_spec b EmptyString) as [->|Hb0]|].
        -- cbn [andb negb]. rewrite (proj2 (String.eqb_neq "--base" "--focus") ltac:(discriminate)).
           cbn [andb]. exact Single.
        -- cbn [andb negb].
           destruct (IH r {| opt_base := Some b; opt_focus := opt_focus o; opt_json := opt_json o; opt_pr := opt_pr o |} ltac:(lia)) as (Hb & Hf & Hp & Hn). cbn [opt_base opt_focus opt_pr] in *.
           split; [|split; [|split]].
           ++ intros x H. right. destruct (Hb x H) as [H'|[Hne [pre [post ->]]]].
              ** injection H' as <-. split; [exact Hb0|]. exists [], r. reflexivity.
              ** split; [exact Hne|]. exists ("--base" :: b :: pre), post. reflexivity.
           ++ intros x H. destruct (Hf x H) as [H'|[Hne [pre [post ->]]]]; [left; exact H'|].
              right. split; [exact Hne|]. exists ("--base" :: b :: pre), post. reflexivity.
           ++ intros x H. destruct (Hp x H) as [H'|[Hd Hin]]; [left; exact H'|].
              right. split; [exact Hd|right; right; exact Hin].
           ++ intros Nb _. exfalso. apply Nb. left. reflexivity.
        -- cbn [andb].
           destruct (String.eqb_spec a "--focus") as [->|Haf];
             [destruct (String.eqb_spec b EmptyString) as [->|Hb0]|].
           ++ cbn [andb negb]. exact Single.
           ++ cbn [andb negb].
              destruct (IH r {| opt_base := opt_base o; opt_focus := Some b; opt_json := opt_json o; opt_pr := opt_pr o |} ltac:(lia)) as (Hb & Hf & Hp & Hn). cbn [opt_base opt_focus opt_pr] in *.
              split; [|split; [|split]].
              ** intros x H. destruct (Hb x H) as [H'|[Hne [pre [post ->]]]]; [left; exact H'|].
                 right. split; [exact Hne|]. exists ("--focus" :: b :: pre), post. reflexivity.
              ** intros x H. right. destruct (Hf x H) as [H'|[Hne [pre [post ->]]]].
                 --- injection H' as <-. split; [exact Hb0|]. exists [], r. reflexivity.
                 --- split; [exact Hne|]. exists ("--focus" :: b :: pre), post. reflexivity.
              ** intros x H. destruct (Hp x H) as [H'|[Hd Hin]]; [left; exact H'|].
                 right. split; [exact Hd|right; right; exact Hin].
              ** intros _ Nf. exfalso. apply Nf. left. reflexivity.
           ++ cbn [andb]. exact Single.
Qed.

(** X19.  [runReview] reads its arguments as follows: a base branch or
    focus is only ever set to a non-empty argument that directly follows
    [--base] or [--focus]; the PR number is only ever set from an
    argument made of digits; without [--base] and [--focus] among the
    arguments, JSON output is on iff [--json] is one of them and the PR
    is the last numeric argument; and [getDiff] then fetches that PR's
    diff unless it is absent or all zeros, in which case it diffs against
    main. *)
Theorem runReview_args (args : list string) :
  let o := runReview_options args in
  (forall b, opt_base o = Some b ->
     b <> EmptyString /\ exists pre post, args = pre ++ "--base" :: b :: post) /\
  (forall f, opt_focus o = Some f ->
     f <> EmptyString /\ exists pre post, args = pre ++ "--focus" :: f :: post) /\
  (forall s, opt_pr o = Some s -> all_digits s = true /\ In s args) /\
  (~ In "--base" args -> ~ In "--focus" args ->
     opt_json o = existsb (String.eqb "--json") args /\
     opt_pr o = last_number_arg args /\
     getDiff_source o =
       match last_number_arg args with
       | Some s => if pr_truthy s then DiffOfPR s else DiffOfBranch "main"
       | None => DiffOfBranch "main"
       end).
Proof.
  intros o. destruct (parse_review_args_facts (length args) args no_review_options (le_n _))
    as (Hb & Hf & Hp & Hn).
  split; [|split; [|split]].
  - intros b H. destruct (Hb b H) as [H'|H']; [discriminate|exact H'].
  - intros f H. destruct (Hf f H) as [H'|H']; [discriminate|exact H'].
  - intros s H. destruct (Hp s H) as [H'|H']; [discriminate|exact H'].
  - intros Nb Nf. unfold o, runReview_options. rewrite (Hn Nb Nf).
    cbn [opt_json opt_pr opt_base orb no_review_options]. unfold getDiff_source, last_number_arg.
    cbn [opt_pr opt_base]. split; [reflexivity|split; reflexivity].
Qed.

Lemma runReview_args_witness :
  ~ In "--base" ["42"; "--json"; "0"] /\ ~ In "--focus" ["42"; "--json"; "0"] /\
  getDiff_source (runReview_options ["42"; "--json"; "0"]) = DiffOfBranch "main".
Proof.
  assert (Nb : ~ In "--base" ["42"; "--json"; "0"]) by (cbn; intuition discriminate).
  assert (Nf : ~ In "--focus" ["42"; "--json"; "0"]) by (cbn; intuition discriminate).
  split; [exact Nb|split; [exact Nf|]].
  rewrite (proj2 (proj2 (proj2 (proj2 (proj2 (runReview_args _))) Nb Nf))).
  vm_compute. reflexivity.
Defined.

(** *** Parsing a unified diff *)

Lemma split_file_diffs_sep (r : string) :
  split_file_diffs (diff_sep ++ r) true 0 = EmptyString :: split_file_diffs r false 0.
Proof. destruct r; reflexivity. Qed.

Lemma prepend_first_cons (c : ascii) (t : string) (ps : list string) :
  match prepend_first t ps with
  | p :: ps' => String c p :: ps'
  | [] => [String c EmptyString]
  end = prepend_first (String c t) ps.
Proof. destruct ps; reflexivity. Qed.

Lemma split_file_diffs_nonnil (s : string) (b : bool) (k : nat) :
  split_file_diffs s b k <> [].
Proof.
  revert b k. induction s as [|c t IH]; intros b k; cbn [split_file_diffs]; [discriminate|].
  destruct k as [|k]; [|apply IH].
  destruct (b && String.prefix diff_sep (String c t)); [discriminate|].
  destruct (split_file_diffs t (is_line_term c) 0); discriminate.
Qed.

Lemma prepend_first_empty (ps : list string) : ps <> [] -> prepend_first EmptyString ps = ps.
Proof. destruct ps; [congruence|reflexivity]. Qed.

Lemma split_file_diffs_no_term (h r : string) :
  no_char is_line_term h = true ->
  split_file_diffs (h ++ r) false 0 = prepend_first h (split_file_diffs r false 0).
Proof.
  induction h as [|c t IH]; intros H.
  - cbn [append]. symmetry. apply prepend_first_empty, split_file_diffs_nonnil.
  - cbn in H. apply andb_prop in H. destruct H as [Hc Ht].
    apply negb_true_iff in Hc.
    cbn [append split_file_diffs andb]. rewrite Hc, IH by exact Ht.
    apply prepend_first_cons.
Qed.

Lemma prefix_take_line (p x : string) :
  no_char is_line_term p = true -> String.prefix p x = String.prefix p (take_line x).
Proof.
  revert x. induction p as [|c t IH]; intros x H.
  { destruct x as [|a y]; [reflexivity|]. cbn [take_line].
    destruct (is_line_term a); reflexivity. }
  cbn in H. apply andb_prop in H. destruct H as [Hc Ht]. apply negb_true_iff in Hc.
  destruct x as [|d u]; [reflexivity|]. cbn [take_line].
  destruct (is_line_term d) eqn:Ed.
  - cbn. destruct (ascii_dec c d) as [<-|]; [congruence|reflexivity].
  - cbn. destruct (ascii_dec c d); [apply IH; exact Ht|reflexivity].
Qed.

Lemma take_line_app (b r : string) :
  ends_line b = true -> b <> EmptyString -> take_line (b ++ r) = take_line b.
Proof.
  induction b as [|c t IH]; intros He Hne; [congruence|].
  cbn [append take_line]. destruct (is_line_term c) eqn:Ec; [reflexivity|].
  destruct t as [|d u].
  - cbn in He. congruence.
  - f_equal. apply IH; [exact He|discriminate].
Qed.

Lemma take_line_first_line (s : string) :
  hd EmptyString (split_chars is_line_term s) = take_line s.
Proof.
  induction s as [|c t IH]; [reflexivity|]. cbn [split_chars take_line].
  destruct (is_line_term c); [reflexivity|].
  destruct (split_chars is_line_term t) as [|x r]; cbn in *; rewrite <- IH; reflexivity.
Qed.

Lemma split_chars_tl (p : ascii -> bool) (c : ascii) (t : string) :
  tl (split_chars p (String c t)) =
  if p c then split_chars p t else tl (split_chars p t).
Proof.
  cbn [split_chars]. destruct (p c); [reflexivity|].
  destruct (split_chars p t); reflexivity.
Qed.

Lemma sep_no_term : no_char is_line_term diff_sep = true.
Proof. reflexivity. Qed.

Lemma split_file_diffs_body (body r : string) (s : bool) :
  (s = true -> String.prefix diff_sep (take_line body) = false) ->
  Forall (fun ln => String.prefix diff_sep ln = false) (tl (split_chars is_line_term body)) ->
  ends_line body = true ->
  split_file_diffs (body ++ r) s 0 =
    prepend_first body (split_file_diffs r (match body with EmptyString => s | _ => true end) 0).
Proof.
  revert s. induction body as [|c t IH]; intros s Hh Ht He.
  - cbn [append]. symmetry. apply prepend_first_empty, split_file_diffs_nonnil.
  - cbn [append split_file_diffs].
    assert (Hp : s && String.prefix diff_sep (String c (t ++ r)) = false).
    { destruct s; [|reflexivity]. cbn [andb].
      rewrite prefix_take_line by exact sep_no_term.
      change (String c (t ++ r)) with (String c t ++ r)%string.
      rewrite take_line_app by (exact He || discriminate). apply Hh. reflexivity. }
    rewrite Hp. rewrite split_chars_tl in Ht.
    assert (Et : ends_line t = true) by (destruct t; [reflexivity|exact He]).
    rewrite IH with (s := is_line_term c).
    + rewrite prepend_first_cons. destruct t; [|reflexivity].
      cbn in He. rewrite He. reflexivity.
    + intros Hc. rewrite Hc in Ht. rewrite <- take_line_first_line.
      destruct (split_chars is_line_term t) as [|x l]; [reflexivity|].
      inversion Ht; assumption.
    + destruct (is_line_term c); [|exact Ht].
      destruct (split_chars is_line_term t); [constructor|inversion Ht; assumption].
    + exact Et.
Qed.

Lemma no_char_app (p : ascii -> bool) (a b : string) :
  no_char p (a ++ b) = no_char p a && no_char p b.
Proof.
  unfold no_char. induction a as [|c t IH]; [reflexivity|].
  cbn [append list_ascii_of_string forallb]. rewrite IH. apply andb_assoc.
Qed.

Lemma no_char_weaken (p q : ascii -> bool) (s : string) :
  (forall c, p c = true -> q c = true) -> no_char q s = true -> no_char p s = true.
Proof.
  intros Hpq. unfold no_char. rewrite !forallb_forall. intros H c Hc.
  specialize (H c Hc). destruct (p c) eqn:E; [|reflexivity].
  rewrite (Hpq c E) in H. discriminate.
Qed.

Lemma take_line_stop (p body : string) :
  no_char is_line_term p = true -> take_line (p ++ String "010"%char body) = p.
Proof.
  induction p as [|c t IH]; intros H; [reflexivity|].
  cbn in H. apply andb_prop in H. destruct H as [Hc Ht]. apply negb_true_iff in Hc.
  cbn [append take_line]. rewrite Hc, IH by exact Ht. reflexivity.
Qed.

Lemma path_no_term (p : string) :
  no_char path_char_bad p = true -> no_char is_line_term p = true.
Proof.
  apply no_char_weaken. intros x Hx. unfold path_char_bad. rewrite Hx. reflexivity.
Qed.

Lemma path_after_b_not_space (c : ascii) (s : string) :
  Ascii.eqb c " "%char = false -> path_after_b (String c s) = None.
Proof.
  intros H. destruct s as [|c2 [|c3 [|c4 r]]]; cbn [path_after_b]; try reflexivity.
  rewrite H. reflexivity.
Qed.

Lemma lazy_path_first_b (t p2 x : string) :
  no_char path_char_bad t = true -> p2 <> EmptyString -> no_char is_line_term p2 = true ->
  lazy_path (t ++ " b/" ++ p2 ++ x) true = Some (take_line (p2 ++ x)).
Proof.
  intros Ht Hne Hp2. induction t as [|c u IH].
  - destruct p2 as [|c2 r2]; [congruence|].
    cbn in Hp2. apply andb_prop in Hp2. destruct Hp2 as [Hc2 _]. apply negb_true_iff in Hc2.
    cbn [append lazy_path path_after_b]. rewrite Hc2. reflexivity.
  - cbn in Ht. apply andb_prop in Ht. destruct Ht as [Hc Hu]. apply negb_true_iff in Hc.
    unfold path_char_bad in Hc. apply orb_false_iff in Hc. destruct Hc as [Hc1 Hc2].
    cbn [append lazy_path].
    rewrite path_after_b_not_space by exact Hc2. rewrite Hc1. apply IH. exact Hu.
Qed.

Lemma header_path_a (u : string) :
  header_path (String "a"%char (String "/"%char u)) =
    match lazy_path u false with Some g => Some g | None => header_path (String "/"%char u) end.
Proof. reflexivity. Qed.

Lemma lazy_path_start (c : ascii) (t x : string) :
  lazy_path (String c t ++ x) false = if is_line_term c then None else lazy_path (t ++ x) true.
Proof. reflexivity. Qed.

Lemma header_path_git (p body : string) :
  p <> EmptyString -> no_char path_char_bad p = true ->
  header_path (git_file_text p body) = Some p.
Proof.
  intros Hne Hp. assert (Hpt := path_no_term _ Hp).
  assert (E : git_file_text p body =
              String "a"%char (String "/"%char (p ++ " b/" ++ p ++ String "010"%char body)))
    by reflexivity.
  rewrite E, header_path_a.
  destruct p as [|c t]; [congruence|].
  assert (Hp' := Hp). cbn in Hp'. apply andb_prop in Hp'. destruct Hp' as [Hc Ht].
  apply negb_true_iff in Hc. unfold path_char_bad in Hc.
  apply orb_false_iff in Hc. destruct Hc as [Hc1 _].
  rewrite lazy_path_start, Hc1, lazy_path_first_b; [|exact Ht|discriminate|exact Hpt].
  rewrite take_line_stop by exact Hpt. reflexivity.
Qed.

Lemma split_render (files : list (string * string)) :
  Forall (fun pb => no_char path_char_bad (fst pb) = true /\
                    Forall (fun ln => String.prefix diff_sep ln = false)
                           (split_chars is_line_term (snd pb)) /\
                    ends_line (snd pb) = true) files ->
  split_file_diffs (render_diff files) true 0 =
    EmptyString :: map (fun pb => git_file_text (fst pb) (snd pb)) files.
Proof.
  induction files as [|[p b] rest IH]; intros H; [reflexivity|].
  inversion H as [|x y [Hp [Hb He]] Hrest]; subst. cbn [fst snd] in *.
  cbn [render_diff map]. unfold git_file_diff.
  rewrite <- string_app_assoc, split_file_diffs_sep.
  assert (Hpt := path_no_term _ Hp).
  unfold git_file_text.
  assert (Eh : ("a/" ++ p ++ " b/" ++ p ++ String "010"%char b ++ render_diff rest)%string =
               (("a/" ++ p ++ " b/" ++ p) ++ (String "010"%char (b ++ render_diff rest)))%string).
  { rewrite <- !string_app_assoc. reflexivity. }
  rewrite <- !string_app_assoc. rewrite Eh.
  rewrite split_file_diffs_no_term.
  2: { rewrite !no_char_app, Hpt. reflexivity. }
  cbn [split_file_diffs andb]. change (is_line_term "010"%char) with true.
  rewrite split_file_diffs_body.
  - assert (Hs : split_file_diffs (render_diff rest) (match b with EmptyString => true | _ => true end) 0
                 = EmptyString :: map (fun pb => git_file_text (fst pb) (snd pb)) rest)
      by (destruct b; apply IH; exact Hrest).
    rewrite Hs. cbn [prepend_first]. rewrite string_app_nil_r.
    unfold git_file_text. rewrite <- !string_app_assoc. reflexivity.
  - intros _. rewrite <- take_line_first_line.
    destruct (split_chars is_line_term b) as [|x l]; [reflexivity|].
    inversion Hb; assumption.
  - destruct (split_chars is_line_term b) as [|x l]; [constructor|inversion Hb; assumption].
  - exact He.
Qed.

Lemma take_line_facts (s : string) : no_char is_line_term (take_line s) = true.
Proof.
  induction s as [|d u IH]; [reflexivity|]. cbn [take_line].
  destruct (is_line_term d) eqn:Ed; [reflexivity|]. cbn. rewrite Ed. exact IH.
Qed.

Lemma path_after_b_facts (s : string) (g : string) :
  path_after_b s = Some g -> g <> EmptyString /\ no_char is_line_term g = true.
Proof.
  destruct s as [|c1 [|c2 [|c3 [|c r]]]]; cbn [path_after_b]; try discriminate.
  destruct (Ascii.eqb c1 " "%char && Ascii.eqb c2 "b"%char && Ascii.eqb c3 "/"%char
            && negb (is_line_term c)) eqn:E; [|discriminate].
  intros H. injection H as <-. apply andb_prop in E. destruct E as [_ Ec].
  apply negb_true_iff in Ec. split.
  - cbn [take_line]. rewrite Ec. discriminate.
  - exact (take_line_facts (String c r)).
Qed.

Lemma lazy_path_facts (s : string) (b : bool) (g : string) :
  lazy_path s b = Some g -> g <> EmptyString /\ no_char is_line_term g = true.
Proof.
  revert b. induction s as [|c t IH]; intros b H; [discriminate|].
  cbn [lazy_path] in H.
  destruct (if b then path_after_b (String c t) else None) eqn:E.
  - injection H as <-. destruct b; [|discriminate]. exact (path_after_b_facts _ _ E).
  - destruct (is_line_term c); [discriminate|]. exact (IH true H).
Qed.

Lemma header_path_facts (s g : string) :
  header_path s = Some g -> g <> EmptyString /\ no_char is_line_term g = true.
Proof.
  induction s as [|c t IH]; intros H; [discriminate|].
  cbn [header_path] in H.
  destruct (if Ascii.eqb c "a"%char then
              match t with
              | String d u => if Ascii.eqb d "/"%char then lazy_path u false else None
              | EmptyString => None
              end
            else None) eqn:E.
  - injection H as <-.
    destruct (Ascii.eqb c "a"%char); [|discriminate].
    destruct t as [|d u]; [discriminate|].
    destruct (Ascii.eqb d "/"%char); [|discriminate].
    exact (lazy_path_facts _ _ _ E).
  - exact (IH H).
Qed.

Lemma filter_disjoint_length {A} (p q : A -> bool) (l : list A) :
  (forall x, p x = true -> q x = false) ->
  (length (filter p l) + length (filter q l) <= length l)%nat.
Proof.
  intros Hd. induction l as [|x r IH]; [reflexivity|]. cbn [filter length].
  destruct (p x) eqn:Ep; [rewrite (Hd x Ep)|destruct (q x)]; cbn [length]; lia.
Qed.

Lemma addition_not_deletion (ln : string) : is_addition ln = true -> is_deletion ln = false.
Proof.
  unfold is_addition, is_deletion.
  destruct ln as [|c [|d u]]; [discriminate| |];
    destruct c as [[] [] [] [] [] [] [] []]; cbn; intros H; (discriminate || reflexivity).
Qed.

Lemma changed_files_list (l : list string) :
  Forall (fun p => p <> EmptyString) l ->
  (length (flat_map changed_file_of l) <= length l)%nat /\
  Forall (fun f => cf_path f <> EmptyString /\ no_char is_line_term (cf_path f) = true /\
                   cf_diff f <> EmptyString /\ In (cf_diff f) l /\
                   (additions f + deletions f <= length (split_chars is_nl (cf_diff f)))%nat)
         (flat_map changed_file_of l).
Proof.
  induction l as [|x r IH]; intros Hne; cbn [flat_map]; [split; [cbn; lia|constructor]|].
  inversion Hne as [|? ? Hx Hr]; subst.
  destruct (IH Hr) as [Hl Hf].
  destruct (header_path x) as [g|] eqn:Eg.
  - assert (Ec : changed_file_of x =
      [{| cf_path := g; isNew := includes x "new file mode";
          isDeleted := includes x "deleted file mode"; cf_hunks := hunks_of x;
          additions := count_lines is_addition x; deletions := count_lines is_deletion x;
          cf_diff := x |}]) by (unfold changed_file_of; rewrite Eg; reflexivity).
    rewrite Ec. cbn [app length].
    split; [lia|]. constructor.
    + cbn [cf_path cf_diff additions deletions].
      destruct (header_path_facts _ _ Eg) as [G1 G2].
      split; [exact G1|split; [exact G2|split; [exact Hx|split; [left; reflexivity|]]]].
      unfold count_lines. apply filter_disjoint_length.
      exact addition_not_deletion.
    + eapply Forall_impl; [|exact Hf]. cbn. intros f (A & B & C & D & E).
      repeat split; auto with datatypes.
  - assert (Ec : changed_file_of x = []) by (unfold changed_file_of; rewrite Eg; reflexivity).
    rewrite Ec. cbn [app length].
    split; [lia|]. eapply Forall_impl; [|exact Hf]. cbn. intros f (A & B & C & D & E).
    repeat split; auto with datatypes.
Qed.

(** X20.  Every file [parseChangedFiles] returns has a non-empty path
    without line terminators, a non-empty diff text that is one of the
    pieces of the input split at [diff --git ] line starts, and at most
    as many added plus deleted lines as its text has lines; there are
    never more files than pieces. *)
Theorem parseChangedFiles_files (diff : string) :
  (length (parseChangedFiles diff) <= length (file_diffs diff))%nat /\
  Forall (fun f => cf_path f <> EmptyString /\ no_char is_line_term (cf_path f) = true /\
                   cf_diff f <> EmptyString /\ In (cf_diff f) (file_diffs diff) /\
                   (additions f + deletions f <= length (split_chars is_nl (cf_diff f)))%nat)
         (parseChangedFiles diff).
Proof.
  apply changed_files_list. unfold file_diffs. apply Forall_forall. intros x Hx.
  apply filter_In in Hx. destruct Hx as [_ Hx].
  apply negb_true_iff, String.eqb_neq in Hx. exact Hx.
Qed.

(** X21.  A diff in git's form, one [diff --git a/P b/P] header per
    file with paths that hold no space and no line break, each file's
    body ending with a line break (or empty) and having no line that
    starts with [diff --git ], is parsed back into its files in order:
    each path is P and each diff text is [a/P b/P], a line break and
    the body. *)
Theorem parseChangedFiles_render (files : list (string * string)) :
  Forall (fun pb => fst pb <> EmptyString /\ no_char path_char_bad (fst pb) = true /\
                    Forall (fun ln => String.prefix diff_sep ln = false)
                           (split_chars is_line_term (snd pb)) /\
                    ends_line (snd pb) = true) files ->
  map cf_path (parseChangedFiles (render_diff files)) = map fst files /\
  map cf_diff (parseChangedFiles (render_diff files)) =
    map (fun pb => git_file_text (fst pb) (snd pb)) files.
Proof.
  intros H. unfold parseChangedFiles, file_diffs.
  rewrite split_render.
  2: { eapply Forall_impl; [|exact H]. cbn. tauto. }
  cbn [filter String.eqb negb].
  clear -H. induction files as [|[p b] r IH]; [split; reflexivity|].
  inversion H as [|? ? [Hp1 [Hp2 _]] Hr]; subst. cbn [map filter fst snd] in *.
  assert (Ene : String.eqb (git_file_text p b) EmptyString = false) by reflexivity.
  rewrite Ene. cbn [negb flat_map].
  assert (Ec : changed_file_of (git_file_text p b) =
    [{| cf_path := p; isNew := includes (git_file_text p b) "new file mode";
        isDeleted := includes (git_file_text p b) "deleted file mode";
        cf_hunks := hunks_of (git_file_text p b);
        additions := count_lines is_addition (git_file_text p b);
        deletions := count_lines is_deletion (git_file_text p b);
        cf_diff := git_file_text p b |}])
    by (unfold changed_file_of; rewrite header_path_git by assumption; reflexivity).
  rewrite Ec.
  destruct (IH Hr) as [IH1 IH2]. cbn [app map cf_path cf_diff].
  rewrite IH1, IH2. split; reflexivity.
Qed.

Lemma prefix_app_self (p x : string) : String.prefix p (p ++ x) = true.
Proof.
  induction p as [|c t IH]; [destruct x; reflexivity|].
  cbn [append String.prefix]. destruct (ascii_dec c c) as [_|n]; [exact IH|contradiction].
Qed.

Lemma take_digits_app (a r : string) :
  forallb is_digit (list_ascii_of_string a) = true -> starts_non_digit r ->
  take_digits (a ++ r) = (a, r).
Proof.
  intros Ha Hr. induction a as [|c t IH].
  - destruct r as [|x u]; [reflexivity|]. cbn in Hr |- *. rewrite Hr. reflexivity.
  - cbn in Ha. apply andb_prop in Ha. destruct Ha as [Hc Ht].
    cbn [append take_digits]. rewrite Hc, IH by exact Ht. reflexivity.
Qed.

Lemma skip_count_app (b r : string) :
  all_digits b = true -> starts_non_digit r -> skip_count ("," ++ b ++ r) = r.
Proof.
  intros Hb Hr. unfold all_digits in Hb. apply andb_prop in Hb. destruct Hb as [Hne Hd].
  cbn [append skip_count]. change (Ascii.eqb "," ",") with true. cbv iota.
  rewrite take_digits_app by assumption.
  apply negb_true_iff in Hne. rewrite Hne. reflexivity.
Qed.

Lemma prefix_cons (a b : ascii) (s1 s2 : string) :
  String.prefix (String a s1) (String b s2) =
    if ascii_dec a b then String.prefix s1 s2 else false.
Proof. reflexivity. Qed.

Lemma skip_count_opt (w : bool) (b r : string) :
  (w = true -> all_digits b = true) -> String.prefix " " r = true ->
  skip_count ((if w then "," ++ b else EmptyString) ++ r) = r /\
  starts_non_digit ((if w then "," ++ b else EmptyString) ++ r).
Proof.
  intros Hb Hr.
  assert (Hs : starts_non_digit r /\ skip_count r = r).
  { destruct r as [|x u]; [discriminate|]. rewrite prefix_cons in Hr.
    destruct (ascii_dec " " x) as [<-|]; [split; reflexivity|discriminate Hr]. }
  destruct Hs as [Hn Hk]. destruct w.
  - split; [|reflexivity]. rewrite <- string_app_assoc. apply skip_count_app; auto.
  - split; [exact Hk|exact Hn].
Qed.

(** X22.  A hunk header line [@@ -a,b +c,d @@] followed by any text
    (each [,count] part optional, a b c d digit strings) gives the hunk
    whose start lines are the digit strings a and c and whose header is
    the trimmed text after [@@]. *)
Theorem hunk_of_line_header (a b c d ctx : string) (wb wd : bool) :
  all_digits a = true -> all_digits c = true ->
  (wb = true -> all_digits b = true) -> (wd = true -> all_digits d = true) ->
  hunk_of_line ("@@ -" ++ a ++ (if wb then "," ++ b else EmptyString) ++ " +" ++ c ++
                (if wd then "," ++ d else EmptyString) ++ " @@" ++ ctx) =
    Some {| oldStart := a; newStart := c; hunk_header := trim ctx |}.
Proof.
  intros Ha Hc Hb Hd. unfold hunk_of_line.
  rewrite prefix_app_self.
  change (drop_str 4 ("@@ -" ++ ?x)) with x.
  assert (Ha' := Ha). unfold all_digits in Ha'. apply andb_prop in Ha'.
  destruct Ha' as [Hane Had]. apply negb_true_iff in Hane.
  assert (Hc' := Hc). unfold all_digits in Hc'. apply andb_prop in Hc'.
  destruct Hc' as [Hcne Hcd]. apply negb_true_iff in Hcne.
  destruct (skip_count_opt wb b (" +" ++ c ++ (if wd then "," ++ d else EmptyString) ++ " @@" ++ ctx)
              Hb (prefix_app_self " " _)) as [Sb Nb].
  rewrite take_digits_app by assumption. rewrite Hane.
  rewrite Sb, prefix_app_self.
  change (drop_str 2 (" +" ++ ?x)) with x.
  destruct (skip_count_opt wd d (" @@" ++ ctx) Hd (prefix_app_self " " _)) as [Sd Nd].
  rewrite take_digits_app by assumption. rewrite Hcne.
  rewrite Sd, prefix_app_self.
  change (drop_str 3 (" @@" ++ ?x)) with x.
  reflexivity.
Qed.

Lemma hunk_of_line_header_witness :
  all_digits "12" = true /\
  hunk_of_line "@@ -12 +13,2 @@  function f() {" =
    Some {| oldStart := "12"; newStart := "13"; hunk_header := "function f() {" |}.
Proof.
  split; [reflexivity|].
  exact (hunk_of_line_header "12" EmptyString "13" "2" "  function f() {" false true
           eq_refl eq_refl (fun H => match H with end) (fun _ => eq_refl)).
Defined.

Lemma parseChangedFiles_render_witness :
  map cf_path (parseChangedFiles (render_diff
    [("src/a.js", ("@@ -1 +1 @@" ++ String "010"%char ("+x" ++ String "010"%char EmptyString))%string);
     ("b.txt", EmptyString)])) = ["src/a.js"; "b.txt"].
Proof.
  refine (proj1 (parseChangedFiles_render _ _)).
  repeat constructor; cbn [fst snd]; try discriminate.
Defined.


Lemma scoreResult_fp_nonneg (rv : option review) (e : list expected_issue) :
  (0 <= falsePositives (scoreResult rv e))%Z.
Proof.
  destruct rv as [[f]|]; [destruct f|]; cbn; lia.
Qed.

Lemma bench_loop_spec (cases : list bench_case) (d0 : nat) (fp0 : Z) :
  (bench_loop cases d0 fp0 = None <-> existsb (fun tc => nullish_call (case_call tc)) cases = true) /\
  (forall d fp, bench_loop cases d0 fp0 = Some (d, fp) ->
     d = (d0 + length (filter case_detected cases))%nat /\
     fp = (fp0 + fold_right (fun tc acc => (case_fp tc + acc)%Z) 0%Z cases)%Z).
Proof.
  revert d0 fp0. induction cases as [|tc rest IH]; intros d0 fp0.
  - cbn. split; [split; discriminate|]. intros d fp H. injection H as <- <-. split; lia.
  - destruct tc as [name exps call]. cbn [bench_loop case_call existsb filter fold_right].
    unfold case_detected at 1, case_fp at 1. cbn [case_call expectedIssues].
    destruct call as [m|[r|]]; cbn [nullish_call returned_review orb].
    + destruct (truthy m) eqn:Em; cbn [negb orb].
      * destruct (IH d0 fp0) as [H1 H2]. split; [exact H1|].
        intros d fp H. destruct (H2 d fp H) as [-> ->]. split; lia.
      * split; [split; reflexivity|]. intros d fp H. discriminate.
    + destruct (IH (if detected (scoreResult (Some r) exps) then S d0 else d0)
                   (fp0 + falsePositives (scoreResult (Some r) exps))%Z) as [H1 H2].
      cbn [orb]. split; [exact H1|].
      intros d fp H. destruct (H2 d fp H) as [-> ->].
      destruct (detected (scoreResult (Some r) exps)); cbn [length]; split; lia.
    + split; [split; reflexivity|]. intros d fp H. discriminate.
Qed.

Lemma case_fp_nonneg (tc : bench_case) : (0 <= case_fp tc)%Z.
Proof.
  unfold case_fp. destruct (returned_review (case_call tc)); [apply scoreResult_fp_nonneg|lia].
Qed.

(** X23.  The benchmark runner ignores [--provider] (the run depends on
    the environment only); it exits when the provider cannot be set
    up; otherwise it aborts without a report exactly when some case's
    review call returns a nullish review or throws without a message,
    and else reports the number of cases, the number of cases whose
    returned review is detected (cases with an error count as not
    detected) and the sum of their false positives, which is never
    negative. *)
Theorem bench_main_outcome (env : env_t) (args : list string) (dataset : list bench_case) :
  (forall args', bench_main env args' dataset = bench_main env args dataset) /\
  (forall msg, bench_main env args dataset = BenchInitFailed msg <->
               getProvider_instance env = Thrown msg) /\
  (forall c, getProvider_instance env = Instance c ->
     (bench_main env args dataset = BenchCrashed <->
        existsb (fun tc => nullish_call (case_call tc)) dataset = true)) /\
  (forall s, bench_main env args dataset = BenchReport s ->
     b_total s = length dataset /\
     b_detected s = length (filter case_detected dataset) /\
     (b_detected s <= b_total s)%nat /\
     b_totalFP s = fold_right (fun tc acc => (case_fp tc + acc)%Z) 0%Z dataset /\
     (0 <= b_totalFP s)%Z).
Proof.
  unfold bench_main, bench_getProvider.
  split; [|split; [|split]].
  - intros args'. reflexivity.
  - intros msg. destruct (getProvider_instance env) as [c|m].
    + destruct (bench_loop dataset 0 0) as [[d fp]|]; split; discriminate.
    + split; intros H; injection H as ->; reflexivity.
  - intros c Hc. rewrite Hc. destruct (bench_loop_spec dataset 0 0) as [H1 _].
    rewrite <- H1. destruct (bench_loop dataset 0 0) as [[d fp]|]; split; congruence.
  - intros s. destruct (getProvider_instance env) as [c|m]; [|discriminate].
    destruct (bench_loop_spec dataset 0 0) as [_ H2].
    destruct (bench_loop dataset 0 0) as [[d fp]|] eqn:E; [|discriminate].
    intros H. injection H as <-. cbn [b_total b_detected b_totalFP].
    destruct (H2 d fp eq_refl) as [-> ->].
    split; [reflexivity|split; [reflexivity|split; [apply filter_length_le|split; [lia|]]]].
    clear. induction dataset as [|tc r IH]; cbn [fold_right]; [lia|].
    pose proof (case_fp_nonneg tc). lia.
Qed.

Lemma bench_main_outcome_witness :
  bench_main anthropic_input_env ["--provider"; "ollama"] sample_bench_crash = BenchCrashed /\
  b_detected {| b_total := 2; b_detected := 1; b_totalFP := 0 |} =
    length (filter case_detected sample_bench_report).
Proof.
  split.
  - apply (proj2 (proj1 (proj2 (proj2 (bench_main_outcome anthropic_input_env
             ["--provider"; "ollama"] sample_bench_crash))) AnthropicProvider eq_refl)).
    reflexivity.
  - apply (proj1 (proj2 (proj2 (proj2 (proj2 (bench_main_outcome anthropic_input_env
             ["--provider"; "ollama"] sample_bench_report))) _ eq_refl))).
Defined.
